(** * pico2signalk: the frame decoder, the CRC, the sensor registry and the
    telemetry interpreter of [pico.py], embedded in Rocq.

    The Python program is untyped and raises exceptions; the embedding
    keeps both: values are [pyval], every operation that can raise returns
    a [result].  Binary64 arithmetic is the Standard Library's [SpecFloat]
    at precision 53 and exponent bound 1024. *)

From Stdlib Require Import ZArith NArith List Lia Bool.
From Stdlib Require Import Strings.Byte Strings.Ascii Strings.String.
From Stdlib Require Import Floats.SpecFloat.
From Stdlib Require Floats Uint63.
From stdpp Require Import base option list gmap strings.

Import ListNotations.
Local Open Scope Z_scope.

(** ** Exceptions and results *)

Inductive exn : Type :=
  | IndexError
  | KeyError
  | TypeError
  | ZeroDivisionError
  | UnicodeDecodeError
  | OverflowError
  | ValueError.

Inductive result (A : Type) : Type :=
  | Ok (a : A)
  | Raise (e : exn).
Arguments Ok {A} a.
Arguments Raise {A} e.

#[global] Instance result_ret : MRet result := fun A a => Ok a.
#[global] Instance result_bind : MBind result := fun A B f m =>
  match m with
  | Ok a => f a
  | Raise e => Raise e
  end.

#[global] Instance result_fmap : FMap result := fun A B f m =>
  match m with
  | Ok a => Ok (f a)
  | Raise e => Raise e
  end.

#[global] Instance exn_eq_dec : EqDecision exn.
Proof. solve_decision. Defined.

(** ** Bytes, slices and the [bytes] methods the program calls *)

Abbreviation bytes := (list byte).

#[global] Instance byte_eq_dec : EqDecision byte := Byte.byte_eq_dec.

Definition byte_val (b : byte) : Z := Z.of_N (Byte.to_N b).

(** Python normalises a slice bound against the length [n]: a negative
    bound counts from the end, and every bound is clipped to [0..n]. *)
Definition slice_bound (n : nat) (i : Z) : nat :=
  if i <? 0 then Z.to_nat (Z.max 0 (Z.of_nat n + i))
  else Nat.min n (Z.to_nat i).

(** [l[lo:hi]] *)
Definition slice {A} (l : list A) (lo hi : Z) : list A :=
  let a := slice_bound (length l) lo in
  let b := slice_bound (length l) hi in
  firstn (b - a) (skipn a l).

(** [l[lo:]] *)
Definition slice_from {A} (l : list A) (lo : Z) : list A :=
  skipn (slice_bound (length l) lo) l.

(** [l[:hi]] *)
Definition slice_to {A} (l : list A) (hi : Z) : list A :=
  firstn (slice_bound (length l) hi) l.

(** [l[i]] for a non-negative literal index. *)
Definition index {A} (l : list A) (i : nat) : result A :=
  match nth_error l i with
  | Some x => Ok x
  | None => Raise IndexError
  end.

(** [int.from_bytes(data)]: big-endian, unsigned. *)
Definition int_from_bytes (data : bytes) : Z :=
  fold_left (fun acc b => acc * 256 + byte_val b) data 0.

Fixpoint starts_with (sub l : bytes) : bool :=
  match sub, l with
  | [], _ => true
  | _ :: _, [] => false
  | x :: sub', y :: l' => if decide (x = y) then starts_with sub' l' else false
  end.

Fixpoint find_at (sub l : bytes) (i : Z) : Z :=
  if starts_with sub l then i
  else match l with
       | [] => -1
       | _ :: l' => find_at sub l' (i + 1)
       end.

(** [l.find(sub)]: the lowest index where [sub] occurs, or -1. *)
Definition find (l sub : bytes) : Z := find_at sub l 0.

(** ** Text: [bytes.decode()] is strict UTF-8; a [str] is its code points *)

Abbreviation pystr := (list N).

Definition str_lit (s : string) : pystr :=
  map N_of_ascii (list_ascii_of_string s).

Definition is_cont (b : byte) : bool :=
  let v := Byte.to_N b in ((128 <=? v) && (v <=? 191))%N.

Definition in_range (lo hi : N) (b : byte) : bool :=
  let v := Byte.to_N b in ((lo <=? v) && (v <=? hi))%N.

Definition cont_bits (b : byte) : N := (Byte.to_N b mod 64)%N.

Fixpoint utf8_decode (l : bytes) : result pystr :=
  match l with
  | [] => Ok []
  | b0 :: t0 =>
    let v0 := Byte.to_N b0 in
    if (v0 <? 128)%N then
      s ← utf8_decode t0; Ok (v0 :: s)
    else if in_range 194 223 b0 then
      match t0 with
      | b1 :: t1 =>
        if is_cont b1 then
          s ← utf8_decode t1;
          Ok (((v0 mod 32) * 64 + cont_bits b1)%N :: s)
        else Raise UnicodeDecodeError
      | _ => Raise UnicodeDecodeError
      end
    else if in_range 224 239 b0 then
      match t0 with
      | b1 :: b2 :: t2 =>
        let ok1 :=
          if decide (b0 = xe0) then in_range 160 191 b1
          else if decide (b0 = xed) then in_range 128 159 b1
          else is_cont b1 in
        if ok1 && is_cont b2 then
          s ← utf8_decode t2;
          Ok ((((v0 mod 16) * 64 + cont_bits b1) * 64 + cont_bits b2)%N :: s)
        else Raise UnicodeDecodeError
      | _ => Raise UnicodeDecodeError
      end
    else if in_range 240 244 b0 then
      match t0 with
      | b1 :: b2 :: b3 :: t3 =>
        let ok1 :=
          if decide (b0 = xf0) then in_range 144 191 b1
          else if decide (b0 = xf4) then in_range 128 143 b1
          else is_cont b1 in
        if ok1 && is_cont b2 && is_cont b3 then
          s ← utf8_decode t3;
          Ok (((((v0 mod 8) * 64 + cont_bits b1) * 64 + cont_bits b2) * 64
               + cont_bits b3)%N :: s)
        else Raise UnicodeDecodeError
      | _ => Raise UnicodeDecodeError
      end
    else Raise UnicodeDecodeError
  end.

(** [data.decode()] *)
Definition decode (data : bytes) : result pystr := utf8_decode data.

(** ** Python values that reach the registry and the readings *)

Inductive pyval : Type :=
  | VInt (z : Z)
  | VFloat (f : spec_float)
  | VStr (s : pystr)
  | VPair (a b : Z).          (* the two-element list [a, b] of a field *)

#[global] Instance spec_float_eq_dec : EqDecision spec_float.
Proof. solve_decision. Defined.
#[global] Instance pyval_eq_dec : EqDecision pyval.
Proof. solve_decision. Defined.

(** ** Frame field decoder *)

(** [getNextField]: [Ok None] is the implicit [return None] of the
    default case, after the debug line. *)
Definition getNextField (response : bytes)
  : result (option (Z * pyval * bytes)) :=
  b0 ← index response 0;
  b1 ← index response 1;
  let field_nr := byte_val b0 in
  let field_type := byte_val b1 in
  if field_type =? 1 then
    let data := slice response 2 6 in
    let response := slice_from response 7 in
    let a := int_from_bytes (slice data 0 2) in
    let b := int_from_bytes (slice data 2 4) in
    Ok (Some (field_nr, VPair a b, response))
  else if field_type =? 3 then
    let data := slice response 7 11 in
    let response := slice_from response 12 in
    if decide (data = [x7f; xff; xff; xff]) then
      Ok (Some (field_nr, VStr [], response))
    else
      let a := int_from_bytes (slice data 0 2) in
      let b := int_from_bytes (slice data 2 4) in
      Ok (Some (field_nr, VPair a b, response))
  else if field_type =? 4 then
    let response := slice_from response 7 in
    let index := find response [x00; xff] in
    word ← decode (slice_to response index);
    let response := slice_from response (index + 2) in
    Ok (Some (field_nr, VStr word, response))
  else
    Ok None.

(** The [while len(response) > 6] loop of [parseResponse].  The loop is
    driven by a step count; [None] means the count ran out before the
    loop ended, which [parseLoop_enough] shows never happens from
    [parseResponse].  Unpacking [None] into three names is a
    [TypeError]. *)
Fixpoint parseLoop (steps : nat) (response : bytes) (dict : gmap Z pyval)
  : option (result (gmap Z pyval)) :=
  if (6 <? length response)%nat then
    match steps with
    | O => None
    | S steps' =>
      match getNextField response with
      | Raise e => Some (Raise e)
      | Ok None => Some (Raise TypeError)
      | Ok (Some (field_nr, field_data, response')) =>
        parseLoop steps' response' (<[field_nr := field_data]> dict)
      end
    end
  else Some (Ok dict).

Definition parseResponse (response : bytes) : result (gmap Z pyval) :=
  let response := slice_from response 14 in
  match parseLoop (length response) response ∅ with
  | Some r => r
  | None => Ok ∅
  end.

(** ** Binary64 arithmetic *)

Definition prec : Z := 53.
Definition emax : Z := 1024.

Definition fadd : spec_float -> spec_float -> spec_float := SFadd prec emax.
Definition fmul : spec_float -> spec_float -> spec_float := SFmul prec emax.
Definition fdiv : spec_float -> spec_float -> spec_float := SFdiv prec emax.

Definition is_zero (x : spec_float) : bool :=
  match x with S754_zero _ => true | _ => false end.

(** The double nearest to the rational [n / d] ([d > 0]), ties to even.
    [SFdiv] rounds the exact quotient of the two integers once, whatever
    their sizes.  A decimal literal such as [273.15] is
    [nearest_ratio 27315 100]. *)
Definition nearest_ratio (n d : Z) : spec_float :=
  match n with
  | Z0 => S754_zero false
  | Zpos p => fdiv (S754_finite false p 0) (S754_finite false (Z.to_pos d) 0)
  | Zneg p => fdiv (S754_finite true p 0) (S754_finite false (Z.to_pos d) 0)
  end.

(** The conversion of an [int] operand in [int / float] and the like:
    nearest double, [OverflowError] past the largest one. *)
Definition float_of_int (z : Z) : result spec_float :=
  match binary_normalize prec emax z 0 false with
  | S754_infinity _ => Raise OverflowError
  | f => Ok f
  end.

(** [float / float]: a zero divisor raises. *)
Definition py_truediv (x y : spec_float) : result spec_float :=
  if is_zero y then Raise ZeroDivisionError else Ok (fdiv x y).

(** [int / int], for a positive literal divisor: the exact quotient
    rounded once. *)
Definition int_truediv (a d : Z) : result spec_float :=
  match nearest_ratio a d with
  | S754_infinity _ => Raise OverflowError
  | f => Ok f
  end.

(** The integer nearest to [m / d] ([m >= 0], [d > 0]), ties to even. *)
Definition div_half_even (m d : Z) : Z :=
  let q := m / d in
  match 2 * (m mod d) ?= d with
  | Lt => q
  | Gt => q + 1
  | Eq => if Z.even q then q else q + 1
  end.

(** The integer nearest to [m * 2^e * 10^digits], ties to even. *)
Definition scaled_nearest (digits : nat) (m : positive) (e : Z) : Z :=
  let num := Zpos m * 10 ^ Z.of_nat digits in
  if 0 <=? e then num * 2 ^ e else div_half_even num (2 ^ (- e)).

(** [float("%.2f" % x)]: the exact value of [x] is rounded to two
    decimals, ties to even, and the decimal read back as the nearest
    double.  [round(x, 2)] is the same function: CPython formats to
    two decimals with the same conversion and reads the digits back. *)
Definition quantize2 (x : spec_float) : spec_float :=
  match x with
  | S754_finite s m e =>
    match scaled_nearest 2 m e with
    | Zpos n => fdiv (S754_finite s n 0) (S754_finite false 100 0)
    | _ => S754_zero s
    end
  | _ => x
  end.

Definition py_round2 (x : spec_float) : spec_float := quantize2 x.

(** [round(x)]: the nearest [int], ties to even. *)
Definition py_round (x : spec_float) : result Z :=
  match x with
  | S754_zero _ => Ok 0
  | S754_finite s m e =>
    let n := scaled_nearest 0 m e in Ok (if s then - n else n)
  | S754_infinity _ => Raise OverflowError
  | S754_nan => Raise ValueError
  end.

(** ** Operand checks of the dynamically typed arithmetic *)

(** [v[i]] for [i] in 0, 1: a field pair or a [str]. *)
Definition subscript (v : pyval) (i : nat) : result pyval :=
  match v with
  | VPair a b =>
    match i with
    | O => Ok (VInt a)
    | S O => Ok (VInt b)
    | _ => Raise IndexError
    end
  | VStr s => c ← index s i; Ok (VStr [c])
  | _ => Raise TypeError
  end.

(** An [int] operand where a [str] operand raises [TypeError]. *)
Definition as_int (v : pyval) : result Z :=
  match v with
  | VInt z => Ok z
  | _ => Raise TypeError
  end.

(** [v / float(k)] for an [int] [v] and a small positive literal [k]. *)
Definition div_by_lit (v : pyval) (k : Z) : result spec_float :=
  z ← as_int v;
  x ← float_of_int z;
  y ← float_of_int k;
  py_truediv x y.

(** ** Temperature *)

Definition toTemperature (temp : pyval) : result pyval :=
  t ← as_int temp;
  let t := if 32768 <? t then t - 65536 else t in
  x ← div_by_lit (VInt t) 10;
  let temp2 := quantize2 (py_round2 (fadd x (nearest_ratio 27315 100))) in
  Ok (VFloat temp2).

(** ** CRC engine *)

(** [crcmod.mkCrcFun(poly, initCrc, rev=False, xorOut)] for a 16-bit
    polynomial.  crcmod is not part of the repository; this is its
    table-driven algorithm: [_bytecrc] fills the 256-entry table and
    [_crc16] folds it over the data. *)
Module crcmod.

Definition bytecrc_step (poly mask crc : Z) : Z :=
  if Z.land crc mask =? 0 then Z.shiftl crc 1
  else Z.lxor (Z.shiftl crc 1) poly.

Definition bytecrc (crc poly n : Z) : Z :=
  let mask := Z.shiftl 1 (n - 1) in
  let crc := Nat.iter 8 (bytecrc_step poly mask) crc in
  Z.land crc (Z.shiftl 1 n - 1).

Definition mkTable (poly n : Z) : list Z :=
  let poly := Z.land poly (Z.shiftl 1 n - 1) in
  map (fun i => bytecrc (Z.shiftl (Z.of_nat i) (n - 8)) poly n) (seq 0 256).

Definition crc16_byte (table : list Z) (crc : Z) (x : byte) : Z :=
  Z.lxor (nth (Z.to_nat (Z.lxor (byte_val x) (Z.land (Z.shiftr crc 8) 255)))
              table 0)
         (Z.land (Z.shiftl crc 8) 65280).

Definition crc16 (data : bytes) (crc : Z) (table : list Z) : Z :=
  fold_left (crc16_byte table) data (Z.land crc 65535).

Definition mkCrcFun (poly initCrc xorOut : Z) (data : bytes) : Z :=
  let table := mkTable poly 16 in
  Z.lxor xorOut (crc16 data (Z.lxor xorOut initCrc) table).

End crcmod.

(** The byte of value [z], for [0 <= z < 256]. *)
Definition byte_of_Z (z : Z) : byte := default x00 (Byte.of_N (Z.to_N z)).

(** [n.to_bytes(2, "big")] *)
Definition to_bytes2 (n : Z) : result bytes :=
  if (0 <=? n) && (n <? 65536) then
    Ok [byte_of_Z (n / 256); byte_of_Z (n mod 256)]
  else Raise OverflowError.

(** [add_crc]: [data.extend] appends to the buffer it was given. *)
Definition add_crc_with (data : bytes) (offset length : Z) : result bytes :=
  let crc_func := crcmod.mkCrcFun 0x11189 0x0000 0x0000 in
  let crc_int := crc_func (slice data offset length) in
  tail ← to_bytes2 crc_int;
  Ok (data ++ tail).

(** The defaults [offset=1, length=-1]. *)
Definition add_crc (data : bytes) : result bytes := add_crc_with data 1 (-1).

(** ** Dictionaries *)

(** A [dict] whose iteration order the program relies on: pairs in
    insertion order; assigning to a present key keeps its place. *)
Section odict.
Context {K V : Type} `{EqDecision K}.

Fixpoint od_get (d : list (K * V)) (k : K) : result V :=
  match d with
  | [] => Raise KeyError
  | (k', v) :: d' => if decide (k = k') then Ok v else od_get d' k
  end.

Fixpoint od_set (d : list (K * V)) (k : K) (v : V) : list (K * V) :=
  match d with
  | [] => [(k, v)]
  | (k', v') :: d' =>
    if decide (k = k') then (k, v) :: d' else (k', v') :: od_set d' k v
  end.
End odict.

(** [d[k]] on a [dict] used as a plain map. *)
Definition getitem {K V} `{Countable K} (d : gmap K V) (k : K) : result V :=
  match d !! k with
  | Some v => Ok v
  | None => Raise KeyError
  end.

Abbreviation fields := (gmap Z pyval).       (* field number -> field data *)
Abbreviation attrs := (gmap string pyval).   (* one sensor's attributes *)
Abbreviation sensors := (list (pyval * attrs)). (* id -> attributes *)

(** ** Sensor registry builder *)

Definition fluid : list pystr :=
  map str_lit ["Unknown"; "freshWater"; "fuel"; "wasteWater"]%string.
Definition fluid_type : list pystr :=
  map str_lit ["Unknown"; "fresh water"; "diesel"; "blackwater"]%string.

(** [table[i]] *)
Definition list_item (table : list pystr) (i : pyval) : result pyval :=
  z ← as_int i;
  let n := Z.of_nat (length table) in
  let j := if z <? 0 then z + n else z in
  if (0 <=? j) && (j <? n) then
    s ← index table (Z.to_nat j); Ok (VStr s)
  else Raise IndexError.

(** [v * 36 * 12]: a product of integers, or a [str] repeated. *)
Definition times_432 (v : pyval) : result pyval :=
  match v with
  | VInt z => Ok (VInt (z * 36 * 12))
  | VStr s => Ok (VStr (concat (repeat s 432)))
  | _ => Raise TypeError
  end.

(** The local variables of one pass of the loop body: [type],
    [elementSize], and the dict bound to [sensorList[id]]. *)
Record slot_vars : Type := SlotVars {
  sv_type : pyval;
  sv_elementSize : Z;
  sv_attrs : attrs
}.

Definition with_type (t : string) (sv : slot_vars) : slot_vars :=
  SlotVars (VStr (str_lit t)) (sv_elementSize sv) (sv_attrs sv).
Definition with_size (n : Z) (sv : slot_vars) : slot_vars :=
  SlotVars (sv_type sv) n (sv_attrs sv).
Definition with_attr (k : string) (v : pyval) (sv : slot_vars) : slot_vars :=
  SlotVars (sv_type sv) (sv_elementSize sv) (<[k := v]> (sv_attrs sv)).

(** [if type == code: body] *)
Definition when_type (code : Z) (body : slot_vars -> result slot_vars)
    (sv : slot_vars) : result slot_vars :=
  if decide (sv_type sv = VInt code) then body sv else Ok sv.

Definition with_name (entry : fields) (sv : slot_vars) : result slot_vars :=
  name ← getitem entry 3; Ok (with_attr "name" name sv).

Definition PICO_INTERNAL : pyval := VStr (str_lit "PICO INTERNAL").

Definition classify (entry : fields) (type : pyval) : result slot_vars :=
  let sv := SlotVars type 1 ∅ in
  sv ← when_type 0 (fun sv => Ok (with_size 0 (with_type "null" sv))) sv;
  sv ← when_type 1 (fun sv =>
        sv ← with_name entry (with_type "volt" sv);
        name ← getitem entry 3;
        Ok (if decide (name = PICO_INTERNAL) then with_size 6 sv else sv)) sv;
  sv ← when_type 2 (fun sv =>
        sv ← with_name entry (with_type "current" sv);
        Ok (with_size 2 sv)) sv;
  sv ← when_type 3 (fun sv => with_name entry (with_type "thermometer" sv)) sv;
  sv ← when_type 5 (fun sv =>
        sv ← with_name entry (with_type "barometer" sv);
        Ok (with_size 2 sv)) sv;
  sv ← when_type 6 (fun sv => with_name entry (with_type "ohm" sv)) sv;
  sv ← when_type 8 (fun sv =>
        sv ← with_name entry (with_type "tank" sv);
        f7 ← getitem entry 7;
        c ← subscript f7 1;
        c ← as_int c;
        cap ← int_truediv c 10;
        let sv := with_attr "capacity" (VFloat cap) sv in
        f6 ← getitem entry 6;
        k ← subscript f6 1;
        ft ← list_item fluid_type k;
        let sv := with_attr "fluid_type" ft sv in
        f6 ← getitem entry 6;
        k ← subscript f6 1;
        fl ← list_item fluid k;
        Ok (with_attr "fluid" fl sv)) sv;
  sv ← when_type 9 (fun sv =>
        sv ← with_name entry (with_type "battery" sv);
        f5 ← getitem entry 5;
        n ← subscript f5 1;
        nominal ← times_432 n;
        Ok (with_size 5 (with_attr "capacity.nominal" nominal sv))) sv;
  when_type 14 (fun sv => Ok (with_size 1 (with_type "XX" sv))) sv.

(** One pass of the [for entry in config.keys()] loop.  The dict created
    by [sensorList[id] = {}] is filled in [classify] and stored once it is
    complete; an exception in between leaves the function altogether. *)
Definition slot (st : sensors * Z) (entry : fields) : result (sensors * Z) :=
  let '(sensorList, elementPos) := st in
  f0 ← getitem entry 0;
  id ← subscript f0 1;
  f1 ← getitem entry 1;
  type ← subscript f1 1;
  sv ← classify entry type;
  let a := <["pos" := VInt elementPos]> (<["type" := sv_type sv]> (sv_attrs sv)) in
  Ok (od_set sensorList id a, elementPos + sv_elementSize sv).

Fixpoint slots (st : sensors * Z) (config : list fields)
  : result (sensors * Z) :=
  match config with
  | [] => Ok st
  | entry :: config' => st' ← slot st entry; slots st' config'
  end.

(** [createSensorList(config)]: [config] is given as its values in key
    order, the order in which [get_pico_config] inserted them. *)
Definition createSensorList (config : list fields) : result sensors :=
  st ← slots ([], 0) config; Ok (fst st).

(** ** Telemetry interpreter *)

(** [sensorListTmp[sensorId].update({k: arg})]: the target dict is looked
    up before the argument is evaluated. *)
Definition tmp_update (tmp : sensors) (sensorId : pyval) (k : string)
    (arg : result pyval) : result sensors :=
  a ← od_get tmp sensorId;
  v ← arg;
  Ok (od_set tmp sensorId (<[k := v]> a)).

(** [element[elementId + off][i]].  [createSensorList] stores an [int]
    under ["pos"]; the readers are modelled for such positions. *)
Definition component (element : fields) (elementId : pyval) (off : Z)
    (i : nat) : result pyval :=
  p ← as_int elementId;
  f ← getitem element (p + off);
  subscript f i.

Definition readBaro (element : fields) (tmp : sensors)
    (sensorId elementId : pyval) : result sensors :=
  tmp_update tmp sensorId "pressure"
    (v ← component element elementId 0 1; z ← as_int v; Ok (VInt (z + 65536))).

Definition readTemp (element : fields) (tmp : sensors)
    (sensorId elementId : pyval) : result sensors :=
  tmp_update tmp sensorId "temperature"
    (v ← component element elementId 0 1; toTemperature v).

Definition readTank (element : fields) (tmp : sensors)
    (sensorId elementId : pyval) : result sensors :=
  tmp ← tmp_update tmp sensorId "currentLevel"
    (v ← component element elementId 0 0; x ← div_by_lit v 1000; Ok (VFloat x));
  tmp_update tmp sensorId "currentVolume"
    (v ← component element elementId 0 1; x ← div_by_lit v 10000; Ok (VFloat x)).

(** [float("%.2f" % (element[elementId][0] / 16000.0))] *)
Definition stateOfCharge_of (element : fields) (elementId : pyval)
  : result spec_float :=
  v ← component element elementId 0 0;
  x ← div_by_lit v 16000;
  Ok (quantize2 x).

Definition readBatt (sensorList : sensors) (element : fields) (tmp : sensors)
    (sensorId elementId : pyval) : result sensors :=
  stateOfCharge ← stateOfCharge_of element elementId;
  tmp ← tmp_update tmp sensorId "stateOfCharge" (Ok (VFloat stateOfCharge));
  tmp ← tmp_update tmp sensorId "capacity.remaining"
    (v ← component element elementId 0 1;
     z ← as_int v;
     x ← float_of_int z;
     Ok (VFloat (fmul x stateOfCharge)));
  tmp ← tmp_update tmp sensorId "voltage"
    (v ← component element elementId 2 1; x ← div_by_lit v 1000; Ok (VFloat x));
  v ← component element elementId 1 1;
  current ← as_int v;
  current ←
    (if 25000 <? current then div_by_lit (VInt (65535 - current)) 100
     else x ← div_by_lit (VInt current) 100;
          m ← float_of_int (-1);
          Ok (fmul x m));
  tmp ← tmp_update tmp sensorId "current" (Ok (VFloat current));
  stateOfCharge ← stateOfCharge_of element elementId;
  raw ← component element elementId 0 0;
  if decide (raw ≠ VInt 65535) then
    a ← od_get sensorList sensorId;
    nominal ← getitem a "capacity.nominal";
    n ← as_int nominal;
    perTwelve ← int_truediv n 12;
    q ← py_truediv perTwelve
          (fadd (fmul current stateOfCharge) (nearest_ratio 1 1000));
    timeRemaining ← py_round q;
    let timeRemaining :=
      if timeRemaining <? 0 then 60 * 60 * 24 * 7 else timeRemaining in
    tmp_update tmp sensorId "capacity.timeRemaining" (Ok (VInt timeRemaining))
  else Ok tmp.

Definition readVolt (element : fields) (tmp : sensors)
    (sensorId elementId : pyval) : result sensors :=
  tmp_update tmp sensorId "voltage"
    (v ← component element elementId 0 1; x ← div_by_lit v 1000; Ok (VFloat x)).

Definition readOhm (element : fields) (tmp : sensors)
    (sensorId elementId : pyval) : result sensors :=
  tmp_update tmp sensorId "ohm" (component element elementId 0 1).

Definition readCurrent (element : fields) (tmp : sensors)
    (sensorId elementId : pyval) : result sensors :=
  v ← component element elementId 0 1;
  current ← as_int v;
  current ←
    (if 25000 <? current then div_by_lit (VInt (65535 - current)) 100
     else x ← div_by_lit (VInt current) 100;
          m ← float_of_int (-1);
          Ok (fmul x m));
  tmp_update tmp sensorId "current" (Ok (VFloat current)).

(** ** Telemetry loop *)

(** [if itemType == name: reader(item, elId)] *)
Definition when_item (itemType : pyval) (name : string)
    (reader : sensors -> result sensors) (tmp : sensors) : result sensors :=
  if decide (itemType = VStr (str_lit name)) then reader tmp else Ok tmp.

(** The body of [for item in sensorList]. *)
Definition dispatch (sensorList : sensors) (element : fields)
    (tmp : sensors) (item : pyval) : result sensors :=
  a ← od_get sensorList item;
  elId ← getitem a "pos";
  itemType ← getitem a "type";
  tmp ← when_item itemType "barometer" (fun t => readBaro element t item elId) tmp;
  tmp ← when_item itemType "thermometer" (fun t => readTemp element t item elId) tmp;
  tmp ← when_item itemType "battery"
          (fun t => readBatt sensorList element t item elId) tmp;
  tmp ← when_item itemType "ohm" (fun t => readOhm element t item elId) tmp;
  tmp ← when_item itemType "volt" (fun t => readVolt element t item elId) tmp;
  tmp ← when_item itemType "current" (fun t => readCurrent element t item elId) tmp;
  when_item itemType "tank" (fun t => readTank element t item elId) tmp.

Fixpoint dispatch_all (sensorList : sensors) (element : fields)
    (tmp : sensors) (items : list pyval) : result sensors :=
  match items with
  | [] => Ok tmp
  | item :: items' =>
    tmp' ← dispatch sensorList element tmp item;
    dispatch_all sensorList element tmp' items'
  end.

(** One pass of the outer [while True] once a datagram is accepted: the
    decoded frame and the snapshot that [print(json.dumps(...))] emits. *)
Definition cycle (sensorList : sensors) (message : bytes)
  : result (fields * sensors) :=
  let sensorListTmp := sensorList in
  element ← parseResponse message;
  sensorListTmp ← dispatch_all sensorList element sensorListTmp
                    (map fst sensorList);
  Ok (element, sensorListTmp).

(** [len(message) > 100 and len(message) < 1200] *)
Definition accepted (message : bytes) : bool :=
  ((100 <? length message) && (length message <? 1200))%nat.

(** How a run over finitely many datagrams ends: [recvfrom] blocks for
    the next one, or an exception left the loop. *)
Inductive ending : Type :=
  | Blocked
  | Uncaught (e : exn).

(** The telemetry loop over the datagrams that [client.recvfrom] hands
    it, in order.  The state is [old_element] and what was printed.
    [old_element] is assigned as soon as the frame is decoded, before
    the readers run, so an exception of a reader leaves the new frame
    in it, and an exception of the decoder the old one. *)
Fixpoint telemetry (sensorList : sensors) (old_element : fields)
    (datagrams : list bytes) (printed : list sensors)
  : fields * list sensors * ending :=
  match datagrams with
  | [] => (old_element, printed, Blocked)
  | message :: rest =>
    if accepted message then
      match parseResponse message with
      | Raise e => (old_element, printed, Uncaught e)
      | Ok element =>
        let old_element := element in
        match dispatch_all sensorList element sensorList (map fst sensorList)
        with
        | Ok snapshot =>
          telemetry sensorList old_element rest (printed ++ [snapshot])
        | Raise e => (old_element, printed, Uncaught e)
        end
      end
    else telemetry sensorList old_element rest printed
  end.

(** * Reference definitions

    What the specification says, written apart from the program, to be
    compared with it. *)

Definition be16 (hi lo : byte) : Z := byte_val hi * 256 + byte_val lo.

(** No [00 FF] anywhere in [l]. *)
Definition terminator_free (l : bytes) : Prop :=
  forall pre post, l <> pre ++ x00 :: xff :: post.

(** [decodes body d d']: reading the frame body [body] field by field
    into the mapping [d] gives [d'].  A compact pair is seven bytes with
    its payload at offset 2, a wide pair twelve bytes with its payload at
    offset 7, a text field seven bytes followed by the text and the
    first [00 FF]; reading stops when fewer than seven bytes are left. *)
Inductive decodes : bytes -> fields -> fields -> Prop :=
  | decodes_end (r : bytes) (d : fields) :
      (length r < 7)%nat -> decodes r d d
  | decodes_pair (nr p0 p1 p2 p3 t : byte) (rest : bytes) (d d' : fields) :
      decodes rest (<[byte_val nr := VPair (be16 p0 p1) (be16 p2 p3)]> d) d' ->
      decodes (nr :: x01 :: p0 :: p1 :: p2 :: p3 :: t :: rest) d d'
  | decodes_wide (nr p0 p1 p2 p3 t : byte) (pad rest : bytes) (d d' : fields) :
      length pad = 5%nat ->
      [p0; p1; p2; p3] <> [x7f; xff; xff; xff] ->
      decodes rest (<[byte_val nr := VPair (be16 p0 p1) (be16 p2 p3)]> d) d' ->
      decodes (nr :: x03 :: pad ++ p0 :: p1 :: p2 :: p3 :: t :: rest) d d'
  | decodes_empty (nr t : byte) (pad rest : bytes) (d d' : fields) :
      length pad = 5%nat ->
      decodes rest (<[byte_val nr := VStr []]> d) d' ->
      decodes (nr :: x03 :: pad ++ x7f :: xff :: xff :: xff :: t :: rest) d d'
  | decodes_text (nr : byte) (pad text rest : bytes) (word : pystr)
      (d d' : fields) :
      length pad = 5%nat ->
      terminator_free (text ++ [x00]) ->
      decode text = Ok word ->
      decodes rest (<[byte_val nr := VStr word]> d) d' ->
      decodes (nr :: x04 :: pad ++ text ++ x00 :: xff :: rest) d d'.


(** ** Frames and registries used as concrete inputs *)

Definition header : bytes := repeat x00 14.

(** A compact-pair field. *)
Definition compact (nr : byte) (a b : Z) : bytes :=
  [nr; x01; byte_of_Z (a / 256); byte_of_Z (a mod 256);
   byte_of_Z (b / 256); byte_of_Z (b mod 256); xff].

(** Compact fields numbered [first], [first + 1], ... all holding
    [(0, 0)]: ballast that takes a datagram past 100 bytes. *)
Definition ballast (first : Z) (n : nat) : bytes :=
  concat (map (fun i => compact (byte_of_Z (first + Z.of_nat i)) 0 0) (seq 0 n)).

(** A config slot as decoded from a per-slot response. *)
Definition slot_fields (id type : Z) (name : string) : fields :=
  <[3 := VStr (str_lit name)]>
    (<[1 := VPair 0 type]> (<[0 := VPair 0 id]> ∅)).

(** One thermometer, id 5, named "Engine Room", in slot 0. *)
Definition engine_room_config : list fields :=
  [slot_fields 5 3 "Engine Room"].

Definition engine_room_registry : sensors :=
  [(VInt 5,
    <["pos" := VInt 0]>
      (<["type" := VStr (str_lit "thermometer")]>
         (<["name" := VStr (str_lit "Engine Room")]> ∅)))].

(** A 105-byte telemetry frame whose field 0 holds [(0, 50)]. *)
Definition good_frame : bytes := header ++ compact x00 0 50 ++ ballast 1 12.

(** The same frame with an extra field of type code 2 after field 0. *)
Definition bad_frame : bytes :=
  header ++ compact x00 0 50 ++ [x01; x02; x00; x00; x00; x00; xff]
         ++ ballast 2 12.

(** The claim that a frame with an unrecognized field type only costs
    its own cycle: the loop goes on with the next datagram. *)
Definition unknown_type_skipped : Prop :=
  forall (sensorList : sensors) (old_element : fields) (message : bytes)
         (rest : list bytes) (printed : list sensors),
    accepted message = true ->
    parseResponse message = Raise TypeError ->
    telemetry sensorList old_element (message :: rest) printed
    = telemetry sensorList old_element rest printed.


(** A frame with one field of each kind, and field 5 twice. *)
Definition sample_frame : bytes :=
  header
  ++ compact x05 4660 7
  ++ [x09; x03; x00; x00; x00; x00; x00; x00; x01; x00; x02; xff]
  ++ [x0a; x03; x00; x00; x00; x00; x00; x7f; xff; xff; xff; xff]
  ++ [x03; x04; x00; x00; x00; x00; x00; x50; x49; x00; xff]
  ++ compact x05 1 2.

Definition sample_fields : fields :=
  <[5 := VPair 1 2]>
    (<[3 := VStr (str_lit "PI")]>
       (<[10 := VStr []]>
          (<[9 := VPair 1 2]>
             (<[5 := VPair 4660 7]> ∅)))).


(** ** Element counts and offsets *)

(** The element count per type code as the glossary lists it: 0 for the
    null type, 2 for current and barometer, 5 for battery, 1 otherwise. *)
Definition claimed_count (code : Z) : Z :=
  if code =? 0 then 0
  else if code =? 2 then 2
  else if code =? 5 then 2
  else if code =? 9 then 5
  else 1.

(** The same table with the one sensor it leaves out: a volt sensor
    (code 1) named "PICO INTERNAL" takes six elements. *)
Definition element_count (type : pyval) (name : option pyval) : Z :=
  match type with
  | VInt code =>
    if (code =? 1) && bool_decide (name = Some PICO_INTERNAL) then 6
    else claimed_count code
  | _ => 1
  end.

(** [fields[k][1]] when it is there. *)
Definition second_of (entry : fields) (k : Z) : option pyval :=
  match entry !! k with
  | Some (VPair _ b) => Some (VInt b)
  | Some (VStr (_ :: c :: _)) => Some (VStr [c])
  | _ => None
  end.

Definition slot_id (entry : fields) : option pyval := second_of entry 0.
Definition slot_type (entry : fields) : option pyval := second_of entry 1.

Definition count_of (entry : fields) : Z :=
  match slot_type entry with
  | Some type => element_count type (entry !! 3)
  | None => 0
  end.

Definition claimed_count_of (entry : fields) : Z :=
  match slot_type entry with
  | Some (VInt code) => claimed_count code
  | _ => 0
  end.

Definition sum_counts (count : fields -> Z) (config : list fields) : Z :=
  foldr (fun entry acc => count entry + acc) 0 config.

(** The type codes of the glossary. *)
Definition recognized (entry : fields) : Prop :=
  exists code, slot_type entry = Some (VInt code) /\
               In code [0; 1; 2; 3; 5; 6; 8; 9; 14].

(** The offset invariant with the glossary's counts. *)
Definition offsets_as_listed : Prop :=
  forall (config : list fields) (registry : sensors) (total : Z),
    Forall recognized config ->
    slots ([], 0) config = Ok (registry, total) ->
    total = sum_counts claimed_count_of config.

(** The internal volt sensor followed by a thermometer. *)
Definition pico_internal_config : list fields :=
  [slot_fields 1 1 "PICO INTERNAL"; slot_fields 2 3 "Cabin"].


Definition pico_internal_registry : sensors :=
  [(VInt 1,
    <["pos" := VInt 0]>
      (<["type" := VStr (str_lit "volt")]> (<["name" := PICO_INTERNAL]> ∅)));
   (VInt 2,
    <["pos" := VInt 6]>
      (<["type" := VStr (str_lit "thermometer")]>
         (<["name" := VStr (str_lit "Cabin")]> ∅)))].


(** ** The CRC-16 of the specification *)

(** One message bit, most significant bit first: the register moves one
    place left and the generator is subtracted when a 1 falls out. *)
Definition crc16_bit (poly crc : Z) : Z :=
  let shifted := Z.shiftl crc 1 in
  Z.land (if Z.testbit crc 15 then Z.lxor shifted poly else shifted) 65535.

Definition crc16_feed (poly crc : Z) (b : byte) : Z :=
  Nat.iter 8 (crc16_bit poly) (Z.lxor crc (Z.shiftl (byte_val b) 8)).

(** Generator [poly] with its top bit, initial value [init], not
    reversed, no output XOR. *)
Definition crc16_ref (poly init : Z) (data : bytes) : Z :=
  fold_left (crc16_feed poly) data init.

(** The claim read with a length that covers the remaining bytes: the
    checksum of [buffer[1:]]. *)
Definition crc_covers_rest : Prop :=
  forall data : bytes,
    add_crc data
    = (tail ← to_bytes2 (crc16_ref 0x11189 0 (slice_from data 1));
       Ok (data ++ tail)).

(** The count request of [get_pico_config], and the frame the device
    answers in the comment there, without its two checksum bytes. *)
Definition count_request : bytes :=
  [x00; x00; x00; x00; x00; xff; x02; x04; x8c; x55; x4b; x00; x03; xff].

Definition device_answer : bytes :=
  [x00; x00; x00; x00; x00; xff; x02; x04; x8c; x55; x4b; x00; x11; xff;
   x01; x01; x00; x00; x00; x1e; xff; x02; x01; x00; x00; x00; x30; xff].

(** ** Checking a property on a range of integers *)

Fixpoint all_from (n : nat) (z : Z) (f : Z -> bool) : bool :=
  match n with
  | O => true
  | S n' => if f z then all_from n' (z + 1) f else false
  end.


(** ** Readings as the specification words them *)

(** The double of an integer below 2^53 in absolute value. *)
Definition Z2f (z : Z) : spec_float := binary_normalize prec emax z 0 false.

(** [a / k] for integers [a] and [k]. *)
Definition ratio (a k : Z) : spec_float := fdiv (Z2f a) (Z2f k).

(** A raw 16-bit value read as signed. *)
Definition signed16 (raw : Z) : Z := if 32768 <? raw then raw - 65536 else raw.

(** [round(raw/10 + 273.15, 2)] *)
Definition kelvin (raw : Z) : spec_float :=
  py_round2 (fadd (ratio (signed16 raw) 10) (nearest_ratio 27315 100)).

(** [(65535 - raw)/100] above the threshold, [-(raw/100)] otherwise. *)
Definition signed_current (raw : Z) : spec_float :=
  if 25000 <? raw then ratio (65535 - raw) 100 else SFopp (ratio raw 100).


(** The primitive double of an integer: the hardware counterpart of
    [Z2f], used only to know that results of arithmetic are canonical
    and to bound them by evaluation. *)
Definition prim_of_Z (z : Z) : PrimFloat.float :=
  match z with
  | Zneg p => PrimFloat.opp (PrimFloat.of_uint63 (Uint63.of_Z (Zpos p)))
  | _ => PrimFloat.of_uint63 (Uint63.of_Z z)
  end.


(** [round(nominal/12/(current * stateOfCharge + 0.001))], an estimate
    below zero replaced by one week in seconds. *)
Definition time_remaining (nominal : Z) (current stateOfCharge : spec_float)
  : result Z :=
  perTwelve ← int_truediv nominal 12;
  q ← py_truediv perTwelve
        (fadd (fmul current stateOfCharge) (nearest_ratio 1 1000));
  t ← py_round q;
  Ok (if t <? 0 then 604800 else t).

(** The claim that capacity.remaining is the registry's nominal capacity
    times the state of charge. *)
Definition remaining_from_nominal : Prop :=
  forall (sensorList : sensors) (element : fields) (tmp tmp' : sensors)
         (sensorId : pyval) (p a b N : Z) (registered a' : attrs),
    od_get sensorList sensorId = Ok registered ->
    registered !! "capacity.nominal"%string = Some (VInt N) ->
    element !! p = Some (VPair a b) ->
    readBatt sensorList element tmp sensorId (VInt p) = Ok tmp' ->
    od_get tmp' sensorId = Ok a' ->
    a' !! "capacity.remaining"%string
    = Some (VFloat (fmul (Z2f N) (py_round2 (ratio a 16000)))).

(** One battery, id 7, nominal capacity 100 raw units (43200 J), at
    offset 0, and a frame that shows it half charged, at 12.5 V,
    drawing 10 A. *)
Definition battery_attrs : attrs :=
  <["pos" := VInt 0]>
    (<["type" := VStr (str_lit "battery")]>
       (<["capacity.nominal" := VInt 43200]>
          (<["name" := VStr (str_lit "House")]> ∅))).

Definition battery_registry : sensors := [(VInt 7, battery_attrs)].

Definition battery_element : fields :=
  <[2 := VPair 0 12500]> (<[1 := VPair 0 1000]> (<[0 := VPair 8000 7]> ∅)).


(** The same battery charging at 10 A. *)
Definition charging_element : fields :=
  <[2 := VPair 0 12500]> (<[1 := VPair 0 64535]> (<[0 := VPair 8000 7]> ∅)).

(** What the battery reader adds to the snapshot for [battery_element]
    and for [charging_element]. *)
Definition battery_reading (current : spec_float) (timeRemaining : Z) : attrs :=
  <["capacity.timeRemaining" := VInt timeRemaining]>
    (<["current" := VFloat current]>
       (<["voltage" := VFloat (nearest_ratio 25 2)]>
          (<["capacity.remaining" := VFloat (nearest_ratio 7 2)]>
             (<["stateOfCharge" := VFloat (nearest_ratio 1 2)]>
                battery_attrs)))).


(** A finite double below 2^21 in absolute value, with a mantissa of at
    most 53 bits. *)
Definition small (x : spec_float) : Prop :=
  match x with
  | S754_finite _ m e => Zpos m < 2 ^ 53 /\ e <= -32
  | _ => True
  end.


(** [z/10 + 273.15] on the hardware doubles. *)
Definition kelvin_prim (z : Z) : PrimFloat.float :=
  PrimFloat.add (PrimFloat.div (prim_of_Z z) (prim_of_Z 10))
    (FloatOps.SF2Prim (nearest_ratio 27315 100)).


(** * The rest of the program

    The functions of [pico.py] that the readings do not pass through:
    the checksum function on its own, the hex dump, the connection and
    the configuration dialogue. *)

(** ** The checksum function by itself *)

(** The CRC function [add_crc] builds on every call. *)
Definition crc_func : bytes -> Z := crcmod.mkCrcFun 0x11189 0x0000 0x0000.

(** ** Hex dump *)

(** [format(x, "02x")] for a byte value: two lower-case hex digits. *)
Definition hex_digit (n : Z) : N :=
  nth (Z.to_nat n) (str_lit "0123456789abcdef") 0%N.

Definition format_02x (x : Z) : pystr := [hex_digit (x / 16); hex_digit (x mod 16)].

Definition BinToHex (message : bytes) : pystr :=
  fold_left (fun response x => response ++ format_02x (byte_val x) ++ str_lit " ")
            message [].

(** ** The configuration dialogue *)

(** What the program does to the outside, in order.  The [debug] lines
    are left out: they print only when the environment asks for them. *)
Inductive io_event : Type :=
  | Connect                   (* socket.create_connection *)
  | Sleep (seconds : Z)       (* time.sleep *)
  | Send (request : bytes)    (* s.sendall *)
  | Close.                    (* s.close *)

(** The [while retries < max_retries and not s] loop of [open_tcp] with
    [remaining = max_retries - retries] passes to go.  [attempt n] tells
    whether the call of [create_connection] number [n] returns a socket
    or raises [socket.error]; the socket it returns is named by [n].
    [time.sleep] raises [ValueError] on a negative delay. *)
Fixpoint open_tcp_from (remaining : nat) (attempt : nat -> bool)
    (retry_delay : Z) (retries : nat) (trace : list io_event)
  : list io_event * result (option nat) :=
  match remaining with
  | O => (trace, Ok None)
  | S remaining' =>
    let trace := trace ++ [Connect] in
    if attempt retries then (trace, Ok (Some retries))
    else
      match remaining' with
      | O => (trace, Ok None)
      | S _ =>
        if retry_delay <? 0 then (trace, Raise ValueError)
        else open_tcp_from remaining' attempt retry_delay (S retries)
               (trace ++ [Sleep retry_delay])
      end
  end.

Definition open_tcp (attempt : nat -> bool) (max_retries retry_delay : Z)
  : list io_event * result (option nat) :=
  open_tcp_from (Z.to_nat max_retries) attempt retry_delay 0 [].

(** How a function that talks to the device ends: it returns, an
    exception of the decoder's kinds leaves it, [s] was [None] when a
    method was called on it ([AttributeError]), or [recv] ran into the
    10 s timeout of the connection. *)
Inductive outcome (A : Type) : Type :=
  | Returned (a : A)
  | Raised (e : exn)
  | NoSocket
  | TimedOut.
Arguments Returned {A} a.
Arguments Raised {A} e.
Arguments NoSocket {A}.
Arguments TimedOut {A}.

(** The request for slot [pos], before its checksum. *)
Definition slot_request (pos : Z) : bytes :=
  [x00; x00; x00; x00; x00; xff; x41; x04; x8c; x55; x4b; x00; x16; xff;
   x00; x01; x00; x00; x00; byte_of_Z pos; xff; x01; x03; x00; x00; x00;
   x00; xff; x00; x00; x00; x00; xff].

(** The [for pos in range(req_count)] loop of [get_pico_config].
    [received] holds what the successive calls of [s.recv(4096)] return,
    with nothing more to come after the last; every [s.sendall] is
    taken to go through.  [config] is keyed by [pos] in insertion
    order. *)
Fixpoint config_loop (positions : list nat) (received : list bytes)
    (trace : list io_event) (config : list (Z * fields))
  : list io_event * outcome (list (Z * fields)) :=
  match positions with
  | [] => (trace ++ [Close], Returned config)
  | pos :: positions' =>
    match add_crc (slot_request (Z.of_nat pos)) with
    | Raise e => (trace, Raised e)
    | Ok request =>
      let trace := trace ++ [Send request] in
      match received with
      | [] => (trace, TimedOut)
      | response :: received' =>
        match parseResponse response with
        | Raise e => (trace, Raised e)
        | Ok element =>
          config_loop positions' received' trace
            (od_set config (Z.of_nat pos) element)
        end
      end
    end
  end.

(** [get_pico_config]: [open_tcp] with its defaults, the count request,
    then one request per slot. *)
Definition get_pico_config (attempt : nat -> bool) (received : list bytes)
  : list io_event * outcome (list (Z * fields)) :=
  let '(trace, s) := open_tcp attempt 5 5 in
  match s with
  | Raise e => (trace, Raised e)
  | Ok s =>
    match add_crc count_request with
    | Raise e => (trace, Raised e)
    | Ok request =>
      match s with
      | None => (trace, NoSocket)
      | Some _ =>
        let trace := trace ++ [Send request] in
        match received with
        | [] => (trace, TimedOut)
        | response :: received' =>
          match index response 19 with
          | Raise e => (trace, Raised e)
          | Ok count =>
            let req_count := byte_val count + 1 in
            config_loop (seq 0 (Z.to_nat req_count)) received' trace []
          end
        end
      end
    end
  end.

(** ** Vocabulary of the further properties *)

(** What a decoded field can hold: a pair of 16-bit values or text. *)
Definition field_value (v : pyval) : Prop :=
  match v with
  | VPair a b => 0 <= a < 65536 /\ 0 <= b < 65536
  | VStr _ => True
  | _ => False
  end.

(** The type codes [createSensorList] has a branch for. *)
Definition listed_codes : list Z := [0; 1; 2; 3; 5; 6; 8; 9; 14].

(** The codes whose branch reads the name field. *)
Definition named_codes : list Z := [1; 2; 3; 5; 6; 8; 9].

(** What the telemetry loop reads of every registry entry: an integer
    offset that is not negative and a type. *)
Definition readable (a : attrs) : Prop :=
  (exists p, a !! "pos"%string = Some (VInt p) /\ 0 <= p) /\
  is_Some (a !! "type"%string).

(** The type names the telemetry loop has a reader for. *)
Definition read_types : list string :=
  ["barometer"; "thermometer"; "battery"; "ohm"; "volt"; "current"; "tank"]%string.

(** The keys the readers store under. *)
Definition reading_keys : list string :=
  ["pressure"; "temperature"; "currentLevel"; "currentVolume";
   "stateOfCharge"; "capacity.remaining"; "voltage"; "current";
   "capacity.timeRemaining"; "ohm"]%string.

(** [tmp'] has the sensors of [tmp], in the same order, and each one's
    attributes differ from before under reading keys at most. *)
Definition same_static (tmp tmp' : sensors) : Prop :=
  Forall2 (fun ia ia' : pyval * attrs =>
             fst ia' = fst ia /\
             forall k, k ∉ reading_keys -> snd ia' !! k = snd ia !! k)
          tmp tmp'.

(** A buffer with the two bytes [add_crc] appends to it. *)
Definition framed (data : bytes) : bytes :=
  let crc := crc_func (slice data 1 (-1)) in
  data ++ [byte_of_Z (crc / 256); byte_of_Z (crc mod 256)].


(** * Properties *)

(** ** Slices *)

Lemma slice_bound_nonneg (n : nat) (i : Z) :
  0 <= i -> slice_bound n i = Nat.min n (Z.to_nat i).
Proof.
  intros Hi. unfold slice_bound.
  destruct (Z.ltb_spec i 0); [lia | reflexivity].
Qed.

Lemma slice_from_skipn {A} (l : list A) (lo : Z) :
  0 <= lo -> slice_from l lo = skipn (Z.to_nat lo) l.
Proof.
  intros Hlo. unfold slice_from. rewrite slice_bound_nonneg by assumption.
  destruct (Nat.le_ge_cases (length l) (Z.to_nat lo)) as [H|H].
  - rewrite Nat.min_l by assumption.
    rewrite !skipn_all2; [reflexivity | assumption | lia].
  - rewrite Nat.min_r by assumption. reflexivity.
Qed.

Lemma slice_to_firstn {A} (l : list A) (hi : Z) :
  0 <= hi -> slice_to l hi = firstn (Z.to_nat hi) l.
Proof.
  intros Hhi. unfold slice_to. rewrite slice_bound_nonneg by assumption.
  destruct (Nat.le_ge_cases (length l) (Z.to_nat hi)) as [H|H].
  - rewrite Nat.min_l by assumption.
    rewrite !firstn_all2; [reflexivity | assumption | lia].
  - rewrite Nat.min_r by assumption. reflexivity.
Qed.

Lemma slice_firstn_skipn {A} (l : list A) (lo hi : Z) :
  0 <= lo -> 0 <= hi ->
  slice l lo hi = firstn (Z.to_nat hi - Z.to_nat lo) (skipn (Z.to_nat lo) l).
Proof.
  intros Hlo Hhi. unfold slice. rewrite !slice_bound_nonneg by assumption.
  destruct (Nat.le_ge_cases (length l) (Z.to_nat lo)) as [H|H].
  - rewrite (Nat.min_l _ _ H).
    rewrite !skipn_all2 by lia. now rewrite !firstn_nil.
  - rewrite (Nat.min_r _ _ H).
    destruct (Nat.le_ge_cases (length l) (Z.to_nat hi)) as [H'|H'].
    + rewrite (Nat.min_l _ _ H').
      rewrite !firstn_all2; [reflexivity | |]; rewrite length_skipn; lia.
    + rewrite (Nat.min_r _ _ H'). reflexivity.
Qed.

Lemma slice_from_length {A} (l : list A) (lo : Z) :
  0 <= lo -> length (slice_from l lo) = (length l - Z.to_nat lo)%nat.
Proof.
  intros Hlo. rewrite slice_from_skipn by assumption. apply length_skipn.
Qed.

(** ** One field at a time *)

Lemma index_Some {A} (l : list A) (i : nat) :
  (i < length l)%nat -> exists x, index l i = Ok x /\ nth_error l i = Some x.
Proof.
  intros Hi. unfold index.
  destruct (nth_error l i) as [x|] eqn:E; [eauto |].
  apply nth_error_None in E. lia.
Qed.

(** A loop iteration that gets a field back has shortened the bytes by
    at least seven. *)
Lemma getNextField_shrinks (response rest : bytes) (nr : Z) (data : pyval) :
  (6 < length response)%nat ->
  getNextField response = Ok (Some (nr, data, rest)) ->
  (length rest + 7 <= length response)%nat.
Proof.
  intros Hlen. unfold getNextField.
  destruct (index_Some response 0) as (b0 & -> & _); [lia |].
  destruct (index_Some response 1) as (b1 & -> & _); [lia |].
  cbn [mbind result_bind].
  destruct (byte_val b1 =? 1).
  { intros [= _ _ <-]. rewrite slice_from_length by lia. lia. }
  destruct (byte_val b1 =? 3).
  { destruct (decide _); intros [= _ _ <-];
      rewrite slice_from_length by lia; lia. }
  destruct (byte_val b1 =? 4); [| discriminate].
  destruct (decode _); cbn [mbind result_bind]; [| discriminate].
  intros [= _ _ <-].
  unfold slice_from at 1.
  rewrite length_skipn, slice_from_length by lia.
  lia.
Qed.

(** With as many steps as there are bytes the loop always reaches its
    end, and the number of spare steps does not matter. *)
Lemma parseLoop_enough (steps : nat) :
  forall (response : bytes) (dict : fields),
    (length response <= steps)%nat ->
    exists r, parseLoop steps response dict = Some r /\
              forall steps', (length response <= steps')%nat ->
                             parseLoop steps' response dict = Some r.
Proof.
  induction steps as [|steps IH]; intros response dict Hsteps.
  - assert (Hit : (6 <? length response)%nat = false)
      by (apply Nat.ltb_ge; lia).
    exists (Ok dict). split; [| intros [|steps'] _]; cbn [parseLoop];
      rewrite Hit; reflexivity.
  - destruct (Nat.ltb_spec 6 (length response)) as [Hlen|Hlen].
    + assert (Hit : (6 <? length response)%nat = true)
        by (apply Nat.ltb_lt; lia).
      cbn [parseLoop]. rewrite Hit.
      destruct (getNextField response) as [[[[nr data] rest]|]|e] eqn:E.
      * pose proof (getNextField_shrinks _ _ _ _ Hlen E) as Hrest.
        destruct (IH rest (<[nr := data]> dict) ltac:(lia)) as (r & Hr & Hall).
        exists r. split; [assumption |].
        intros [|steps'] Hs'; [lia |].
        cbn [parseLoop]. rewrite Hit, E. apply Hall. lia.
      * eexists. split; [reflexivity |].
        intros [|steps'] Hs'; [lia |]. cbn [parseLoop]. now rewrite Hit, E.
      * eexists. split; [reflexivity |].
        intros [|steps'] Hs'; [lia |]. cbn [parseLoop]. now rewrite Hit, E.
    + assert (Hit : (6 <? length response)%nat = false)
        by (apply Nat.ltb_ge; lia).
      exists (Ok dict). split; [| intros [|steps'] _]; cbn [parseLoop];
        rewrite Hit; reflexivity.
Qed.

Lemma getNextField_pair (nr p0 p1 p2 p3 t : byte) (rest : bytes) :
  getNextField (nr :: x01 :: p0 :: p1 :: p2 :: p3 :: t :: rest)
  = Ok (Some (byte_val nr, VPair (be16 p0 p1) (be16 p2 p3), rest)).
Proof.
  unfold getNextField. cbn [index nth_error mbind result_bind].
  change (byte_val x01 =? 1) with true. cbv iota.
  rewrite slice_from_skipn, !slice_firstn_skipn by lia.
  reflexivity.
Qed.

Lemma getNextField_wide (nr a1 a2 a3 a4 a5 p0 p1 p2 p3 t : byte) (rest : bytes) :
  getNextField
    (nr :: x03 :: a1 :: a2 :: a3 :: a4 :: a5 :: p0 :: p1 :: p2 :: p3 :: t :: rest)
  = Ok (Some (byte_val nr,
              if decide ([p0; p1; p2; p3] = [x7f; xff; xff; xff])
              then VStr [] else VPair (be16 p0 p1) (be16 p2 p3),
              rest)).
Proof.
  unfold getNextField. cbn [index nth_error mbind result_bind].
  change (byte_val x03 =? 1) with false.
  change (byte_val x03 =? 3) with true. cbv iota.
  rewrite slice_from_skipn, !slice_firstn_skipn by lia.
  change (firstn _ (skipn _ (nr :: _))) with [p0; p1; p2; p3].
  destruct (decide _); reflexivity.
Qed.

Lemma terminator_free_tail (b : byte) (l : bytes) :
  terminator_free (b :: l) -> terminator_free l.
Proof.
  intros H pre post E. apply (H (b :: pre) post). now rewrite E.
Qed.

Lemma find_terminator (text rest : bytes) (i : Z) :
  terminator_free (text ++ [x00]) ->
  find_at [x00; xff] (text ++ x00 :: xff :: rest) i
  = i + Z.of_nat (length text).
Proof.
  revert i. induction text as [|b text IH]; intros i Hfree.
  - cbn [app find_at starts_with length].
    rewrite !decide_True by reflexivity. lia.
  - assert (Hnot : starts_with [x00; xff] (b :: text ++ x00 :: xff :: rest)
                   = false).
    { cbn [starts_with]. destruct (decide (x00 = b)) as [<-|]; [| reflexivity].
      destruct text as [|c text]; cbn [app starts_with].
      - rewrite decide_False by discriminate. reflexivity.
      - destruct (decide (xff = c)) as [<-|]; [| reflexivity].
        exfalso. apply (Hfree [] (text ++ [x00])). reflexivity. }
    cbn [app find_at]. rewrite Hnot.
    rewrite IH by now apply terminator_free_tail in Hfree.
    cbn [length]. lia.
Qed.

Lemma getNextField_text (nr a1 a2 a3 a4 a5 : byte) (text rest : bytes)
    (word : pystr) :
  terminator_free (text ++ [x00]) ->
  decode text = Ok word ->
  getNextField
    (nr :: x04 :: a1 :: a2 :: a3 :: a4 :: a5 :: text ++ x00 :: xff :: rest)
  = Ok (Some (byte_val nr, VStr word, rest)).
Proof.
  intros Hfree Hword.
  unfold getNextField. cbn [index nth_error mbind result_bind].
  change (byte_val x04 =? 1) with false.
  change (byte_val x04 =? 3) with false.
  change (byte_val x04 =? 4) with true. cbv iota.
  rewrite (slice_from_skipn (nr :: _)) by lia.
  change (skipn (Z.to_nat 7) (nr :: _)) with (text ++ x00 :: xff :: rest).
  unfold find. rewrite find_terminator by assumption.
  rewrite slice_to_firstn, slice_from_skipn by lia.
  replace (Z.to_nat (0 + Z.of_nat (length text))) with (length text) by lia.
  replace (Z.to_nat (0 + Z.of_nat (length text) + 2)) with (length text + 2)%nat
    by lia.
  rewrite take_app_length, drop_app_add. cbn [drop].
  rewrite Hword. reflexivity.
Qed.

Lemma decodes_parseLoop (r : bytes) (d d' : fields) :
  decodes r d d' ->
  forall steps, (length r <= steps)%nat -> parseLoop steps r d = Some (Ok d').
Proof.
  induction 1 as
    [r d Hshort
    |nr p0 p1 p2 p3 t rest d d' _ IH
    |nr p0 p1 p2 p3 t pad rest d d' Hpad Hne _ IH
    |nr t pad rest d d' Hpad _ IH
    |nr pad text rest word d d' Hpad Hfree Hword _ IH];
    intros steps Hsteps.
  - assert (Hit : (6 <? length r)%nat = false) by (apply Nat.ltb_ge; lia).
    destruct steps; cbn [parseLoop]; rewrite Hit; reflexivity.
  - destruct steps as [|steps]; [cbn in Hsteps; lia |].
    cbn [parseLoop]. rewrite getNextField_pair.
    cbn [length Nat.ltb Nat.leb]. apply IH. cbn in Hsteps. lia.
  - destruct pad as [|a1 [|a2 [|a3 [|a4 [|a5 [|]]]]]]; try discriminate.
    destruct steps as [|steps]; [cbn in Hsteps; lia |].
    cbn [parseLoop app]. rewrite getNextField_wide.
    rewrite decide_False by assumption.
    cbn [length Nat.ltb Nat.leb]. apply IH. cbn in Hsteps. lia.
  - destruct pad as [|a1 [|a2 [|a3 [|a4 [|a5 [|]]]]]]; try discriminate.
    destruct steps as [|steps]; [cbn in Hsteps; lia |].
    cbn [parseLoop app]. rewrite getNextField_wide.
    rewrite decide_True by reflexivity.
    cbn [length Nat.ltb Nat.leb]. apply IH. cbn in Hsteps. lia.
  - destruct pad as [|a1 [|a2 [|a3 [|a4 [|a5 [|]]]]]]; try discriminate.
    destruct steps as [|steps]; [cbn in Hsteps; lia |].
    cbn [parseLoop app]. rewrite (getNextField_text _ _ _ _ _ _ _ _ word)
      by assumption.
    cbn [length Nat.ltb Nat.leb]. apply IH.
    cbn [app length] in Hsteps. rewrite length_app in Hsteps.
    cbn [length] in Hsteps. lia.
Qed.

Example engine_room_registry_built :
  createSensorList engine_room_config = Ok engine_room_registry.
Proof. vm_compute. reflexivity. Qed.

Example good_frame_cycle :
  snd <$> cycle engine_room_registry good_frame
  = Ok [(VInt 5,
         <["temperature" := VFloat (nearest_ratio 27815 100)]>
           (<["pos" := VInt 0]>
              (<["type" := VStr (str_lit "thermometer")]>
                 (<["name" := VStr (str_lit "Engine Room")]> ∅))))].
Proof. vm_compute. reflexivity. Qed.

Example bad_frame_parse : parseResponse bad_frame = Raise TypeError.
Proof. vm_compute. reflexivity. Qed.

(** ** The frame field decoder *)

Lemma sample_frame_decodes : decodes (skipn 14 sample_frame) ∅ sample_fields.
Proof.
  apply (decodes_pair x05 x12 x34 x00 x07 xff).
  apply (decodes_wide x09 x00 x01 x00 x02 xff [x00; x00; x00; x00; x00]);
    [reflexivity | discriminate |].
  apply (decodes_empty x0a xff [x00; x00; x00; x00; x00]); [reflexivity |].
  apply (decodes_text x03 [x00; x00; x00; x00; x00] [x50; x49] _
           (str_lit "PI")).
  - reflexivity.
  - intros pre post E.
    do 4 (destruct pre as [|? pre]; try discriminate E).
  - reflexivity.
  - apply (decodes_pair x05 x00 x01 x00 x02 xff).
    apply decodes_end. cbn. lia.
Qed.

(** C3.  [parseResponse] drops the first 14 bytes and then reads fields
    while at least seven bytes remain, as [decodes] describes: a type-1
    field takes seven bytes and gives the two big-endian 16-bit integers
    at offset 2; a type-3 field takes twelve bytes with its payload at
    offsets 7 to 10, the payload [7F FF FF FF] giving the empty value; a
    type-4 field gives the text from offset 7 up to the first [00 FF];
    each value is stored under its field number, a later one replacing
    an earlier one. *)
Theorem parseResponse_decodes (response : bytes) (d' : fields) :
  decodes (skipn 14 response) ∅ d' -> parseResponse response = Ok d'.
Proof.
  intros H. unfold parseResponse.
  rewrite slice_from_skipn by lia. change (Z.to_nat 14) with 14%nat.
  now rewrite (decodes_parseLoop _ _ _ H _ (Nat.le_refl _)).
Qed.

Lemma parseResponse_decodes_witness :
  decodes (skipn 14 sample_frame) ∅ sample_fields /\
  parseResponse sample_frame = Ok sample_fields /\
  sample_fields !! 5 = Some (VPair 1 2).
Proof.
  split; [exact sample_frame_decodes |].
  split; [exact (parseResponse_decodes _ _ sample_frame_decodes) |].
  reflexivity.
Defined.

(** C10.  [parseResponse] terminates: an iteration that reads a field
    leaves at least seven bytes fewer, a recognized type code always
    reads one unless the text is not UTF-8, and as many steps as there
    are bytes bring the loop to its end, with a dictionary or with the
    exception that left it. *)
Theorem parseResponse_terminates (response : bytes) :
  (forall nr data rest,
     (6 < length response)%nat ->
     getNextField response = Ok (Some (nr, data, rest)) ->
     (length rest + 7 <= length response)%nat) /\
  (forall b1,
     nth_error response 1 = Some b1 ->
     byte_val b1 = 1 \/ byte_val b1 = 3 \/ byte_val b1 = 4 ->
     getNextField response <> Ok None) /\
  (exists r,
     parseLoop (length (slice_from response 14)) (slice_from response 14) ∅
     = Some r /\
     parseResponse response = r).
Proof.
  split; [| split].
  - intros nr data rest Hlen E. exact (getNextField_shrinks _ _ _ _ Hlen E).
  - intros b1 Hb1 Hty. unfold getNextField.
    destruct response as [|b0 [|b1' response]]; try discriminate.
    injection Hb1 as ->. cbn [index nth_error mbind result_bind].
    destruct Hty as [-> | [-> | ->]]; cbn [Z.eqb Pos.eqb]; try discriminate.
    destruct (decide _); discriminate.
    destruct (decode _); discriminate.
  - destruct (parseLoop_enough _ (slice_from response 14) ∅ (Nat.le_refl _))
      as (r & Hr & _).
    exists r. split; [assumption |].
    unfold parseResponse. now rewrite Hr.
Qed.

Lemma parseResponse_terminates_witness :
  (length (ballast 1 12) + 7 <= length (skipn 14 good_frame))%nat /\
  getNextField (skipn 14 good_frame) <> Ok None /\
  exists r, parseResponse good_frame = r.
Proof.
  destruct (parseResponse_terminates (skipn 14 good_frame)) as (H1 & H2 & _).
  destruct (parseResponse_terminates good_frame) as (_ & _ & r & _ & Hr).
  split; [| split].
  - apply (H1 0 (VPair 0 50) (ballast 1 12)); [cbn; lia | reflexivity].
  - apply (H2 x01); [reflexivity | left; reflexivity].
  - exists r. exact Hr.
Defined.

(** ** An unrecognized field type *)

Lemma parseLoop_unknown (steps : nat) (response : bytes) (dict : fields)
    (b1 : byte) :
  (6 < length response)%nat ->
  nth_error response 1 = Some b1 ->
  byte_val b1 <> 1 -> byte_val b1 <> 3 -> byte_val b1 <> 4 ->
  parseLoop (S steps) response dict = Some (Raise TypeError).
Proof.
  intros Hlen Hb1 H1 H3 H4.
  apply Nat.ltb_lt in Hlen. cbn [parseLoop]. rewrite Hlen.
  unfold getNextField.
  destruct response as [|b0 [|b1' response]]; try discriminate.
  injection Hb1 as ->. cbn [index nth_error mbind result_bind].
  apply Z.eqb_neq in H1, H3, H4. now rewrite H1, H3, H4.
Qed.

Lemma telemetry_uncaught (sensorList : sensors) (old_element : fields)
    (message : bytes) (rest : list bytes) (printed : list sensors) (e : exn) :
  accepted message = true ->
  parseResponse message = Raise e ->
  telemetry sensorList old_element (message :: rest) printed
  = (old_element, printed, Uncaught e).
Proof.
  intros Hacc Hparse. cbn [telemetry]. now rewrite Hacc, Hparse.
Qed.

(** What an unrecognized field type does to the decoder and to the
    loop, whatever the frame: the loop of [parseResponse] ends with
    [TypeError], and the telemetry loop ends with it. *)
Lemma unknown_type_ends_loop :
  (forall (steps : nat) (response : bytes) (dict : fields) (b1 : byte),
     (6 < length response)%nat ->
     nth_error response 1 = Some b1 ->
     byte_val b1 <> 1 -> byte_val b1 <> 3 -> byte_val b1 <> 4 ->
     parseLoop (S steps) response dict = Some (Raise TypeError)) /\
  (forall (sensorList : sensors) (old_element : fields) (message : bytes)
          (rest : list bytes) (printed : list sensors),
     accepted message = true ->
     parseResponse message = Raise TypeError ->
     telemetry sensorList old_element (message :: rest) printed
     = (old_element, printed, Uncaught TypeError)).
Proof.
  split.
  - exact parseLoop_unknown.
  - intros. now apply telemetry_uncaught.
Qed.

(** C2, at the failing input.  [bad_frame] is a datagram of 112 bytes,
    which the loop accepts, whose second field has type code 2.  The
    default case of [getNextField] logs and returns nothing where the
    three other cases return a triple; unpacking that nothing in
    [parseResponse] is a [TypeError], and nothing catches it.  So the
    run over [bad_frame] and then [good_frame] prints nothing and ends
    with the exception, [good_frame] unread, while the run over
    [good_frame] alone prints its snapshot and waits for more.  No
    partial reading set is emitted, as the claim says; but the loop is
    ended where the claim has the cycle skipped and the loop go on. *)
Theorem unknown_type_kills_loop :
  accepted bad_frame = true /\
  getNextField (skipn 21 bad_frame) = Ok None /\
  parseResponse bad_frame = Raise TypeError /\
  telemetry engine_room_registry ∅ [bad_frame; good_frame] []
  = (∅, [], Uncaught TypeError) /\
  (exists element snapshot,
     telemetry engine_room_registry ∅ [good_frame] []
     = (element, [snapshot], Blocked)) /\
  ~ unknown_type_skipped.
Proof.
  split; [reflexivity |].
  split; [vm_compute; reflexivity |].
  split; [vm_compute; reflexivity |].
  split; [vm_compute; reflexivity |].
  split; [do 2 eexists; vm_compute; reflexivity |].
  intros H.
  specialize (H engine_room_registry ∅ bad_frame [good_frame] []
                eq_refl bad_frame_parse).
  vm_compute in H. discriminate H.
Qed.

(** ** The sensor registry *)

Lemma od_get_set_eq {K V} `{EqDecision K} (d : list (K * V)) (k : K) (v : V) :
  od_get (od_set d k v) k = Ok v.
Proof.
  induction d as [|[k' v'] d IH]; cbn [od_set od_get].
  - now rewrite decide_True.
  - destruct (decide (k = k')) as [<-|Hne]; cbn [od_get].
    + now rewrite decide_True.
    + now rewrite decide_False.
Qed.

Lemma od_get_set_ne {K V} `{EqDecision K} (d : list (K * V)) (k k' : K)
    (v : V) :
  k <> k' -> od_get (od_set d k v) k' = od_get d k'.
Proof.
  intros Hne. induction d as [|[k0 v0] d IH]; cbn [od_set od_get].
  - rewrite decide_False by congruence. reflexivity.
  - destruct (decide (k = k0)) as [<-|Hne0]; cbn [od_get].
    + now rewrite !decide_False by congruence.
    + destruct (decide (k' = k0)); [reflexivity | exact IH].
Qed.

Lemma od_set_set {K V} `{EqDecision K} (d : list (K * V)) (k : K) (v v' : V) :
  od_set (od_set d k v) k v' = od_set d k v'.
Proof.
  induction d as [|[k0 v0] d IH]; cbn [od_set].
  - now rewrite decide_True.
  - destruct (decide (k = k0)) as [<-|Hne]; cbn [od_set].
    + now rewrite decide_True.
    + rewrite decide_False by assumption. now rewrite IH.
Qed.

Lemma when_type_skip (code : Z) (body : slot_vars -> result slot_vars)
    (sv : slot_vars) :
  sv_type sv <> VInt code -> when_type code body sv = Ok sv.
Proof. intros H. unfold when_type. now rewrite decide_False. Qed.

Lemma when_type_hit (code : Z) (body : slot_vars -> result slot_vars)
    (sv : slot_vars) :
  sv_type sv = VInt code -> when_type code body sv = body sv.
Proof. intros H. unfold when_type. now rewrite decide_True. Qed.

Ltac skip_when :=
  rewrite when_type_skip
    by (cbn [sv_type with_type with_size with_attr]; congruence);
  cbn [mbind result_bind].

Ltac hit_when :=
  rewrite when_type_hit by reflexivity; cbn [mbind result_bind].

(** Case analysis on the innermost operation of a chain of binds; the
    raising case closes a goal [Raise _ = Ok _ -> _]. *)
Ltac split_bind :=
  match goal with
  | |- context [@mbind result _ _ _ _ ?m] =>
    lazymatch m with
    | context [@mbind result _ _ _ _ _] => fail
    | context [when_type] => fail
    | _ => destruct m; cbn [mbind result_bind]; [| discriminate]
    end
  end.

Lemma classify_volt (entry : fields) :
  classify entry (VInt 1)
  = name ← getitem entry 3;
    Ok (SlotVars (VStr (str_lit "volt"))
                 (if decide (name = PICO_INTERNAL) then 6 else 1)
                 (<["name" := name]> ∅)).
Proof.
  unfold classify. skip_when. hit_when.
  unfold with_name. destruct (getitem entry 3) as [name|e];
    cbn [mbind result_bind]; [| reflexivity].
  destruct (decide (name = PICO_INTERNAL)); repeat skip_when; reflexivity.
Qed.

Lemma classify_size (entry : fields) (type : pyval) (sv : slot_vars) :
  classify entry type = Ok sv ->
  sv_elementSize sv = element_count type (entry !! 3).
Proof.
  destruct type as [z| | |]; cycle 1.
  1-3: unfold classify; repeat skip_when; intros [= <-]; reflexivity.
  destruct (decide (z = 1)) as [->|H1].
  { rewrite classify_volt. unfold getitem.
    destruct (entry !! 3) as [name|]; cbn [mbind result_bind]; [| discriminate].
    intros [= <-]. cbn [sv_elementSize element_count Z.eqb Pos.eqb andb].
    destruct (decide (name = PICO_INTERNAL)) as [->|Hn].
    - now rewrite bool_decide_eq_true_2.
    - rewrite bool_decide_eq_false_2 by congruence. reflexivity. }
  assert (Hcount : element_count (VInt z) (entry !! 3) = claimed_count z).
  { cbn [element_count]. apply Z.eqb_neq in H1. now rewrite H1. }
  rewrite Hcount. clear Hcount. unfold classify.
  destruct (decide (z = 0)) as [->|H0].
  { hit_when. repeat skip_when. intros [= <-]. reflexivity. }
  do 2 skip_when.
  destruct (decide (z = 2)) as [->|H2].
  { hit_when. unfold with_name. repeat split_bind. repeat skip_when.
    intros [= <-]. reflexivity. }
  skip_when.
  destruct (decide (z = 3)) as [->|H3].
  { hit_when. unfold with_name. repeat split_bind. repeat skip_when.
    intros [= <-]. reflexivity. }
  skip_when.
  destruct (decide (z = 5)) as [->|H5].
  { hit_when. unfold with_name. repeat split_bind. repeat skip_when.
    intros [= <-]. reflexivity. }
  skip_when.
  destruct (decide (z = 6)) as [->|H6].
  { hit_when. unfold with_name. repeat split_bind. repeat skip_when.
    intros [= <-]. reflexivity. }
  skip_when.
  destruct (decide (z = 8)) as [->|H8].
  { hit_when. unfold with_name. repeat split_bind. repeat skip_when.
    intros [= <-]. reflexivity. }
  skip_when.
  destruct (decide (z = 9)) as [->|H9].
  { hit_when. unfold with_name. repeat split_bind. repeat skip_when.
    intros [= <-]. reflexivity. }
  skip_when.
  destruct (decide (z = 14)) as [->|H14].
  { hit_when. intros [= <-]. reflexivity. }
  skip_when. intros [= <-]. cbn [sv_elementSize].
  unfold claimed_count.
  apply Z.eqb_neq in H0, H2, H5, H9. now rewrite H0, H2, H5, H9.
Qed.

Lemma second_of_subscript (entry : fields) (k : Z) (f v : pyval) :
  entry !! k = Some f -> subscript f 1 = Ok v -> second_of entry k = Some v.
Proof.
  intros Hf Hv. unfold second_of. rewrite Hf.
  destruct f as [| |s|a b]; try discriminate.
  - destruct s as [|c0 [|c1 s]]; try discriminate.
    now injection Hv as <-.
  - now injection Hv as <-.
Qed.

(** What one pass of the loop does to the registry and to the offset. *)
Lemma slot_advance (sensorList sensorList' : sensors) (p p' : Z)
    (entry : fields) :
  slot (sensorList, p) entry = Ok (sensorList', p') ->
  exists id a,
    slot_id entry = Some id /\
    sensorList' = od_set sensorList id a /\
    a !! "pos"%string = Some (VInt p) /\
    p' = p + count_of entry.
Proof.
  unfold slot, getitem.
  destruct (entry !! 0) as [f0|] eqn:E0; cbn [mbind result_bind];
    [| discriminate].
  destruct (subscript f0 1) as [id|] eqn:Eid; cbn [mbind result_bind];
    [| discriminate].
  destruct (entry !! 1) as [f1|] eqn:E1; cbn [mbind result_bind];
    [| discriminate].
  destruct (subscript f1 1) as [type|] eqn:Ety; cbn [mbind result_bind];
    [| discriminate].
  destruct (classify entry type) as [sv|] eqn:Esv; cbn [mbind result_bind];
    [| discriminate].
  intros [= <- <-]. eexists id, _.
  split; [exact (second_of_subscript _ _ _ _ E0 Eid) |].
  split; [reflexivity |].
  split; [apply lookup_insert_eq |].
  unfold count_of, slot_type.
  rewrite (second_of_subscript _ _ _ _ E1 Ety).
  now rewrite (classify_size _ _ _ Esv).
Qed.

Lemma sum_counts_app (count : fields -> Z) (l1 l2 : list fields) :
  sum_counts count (l1 ++ l2) = sum_counts count l1 + sum_counts count l2.
Proof.
  unfold sum_counts. induction l1 as [|e l1 IH]; cbn [app foldr]; lia.
Qed.

Lemma element_count_nonneg (type : pyval) (name : option pyval) :
  0 <= element_count type name.
Proof.
  destruct type as [z| | |]; cbn [element_count]; try lia.
  destruct (_ && _); [lia |].
  unfold claimed_count. repeat destruct (_ =? _); lia.
Qed.

Lemma count_of_nonneg (entry : fields) : 0 <= count_of entry.
Proof.
  unfold count_of. destruct (slot_type entry); [| lia].
  apply element_count_nonneg.
Qed.

Lemma sum_counts_nonneg (config : list fields) :
  0 <= sum_counts count_of config.
Proof.
  induction config as [|e config IH]; cbn [sum_counts foldr]; [lia |].
  pose proof (count_of_nonneg e). unfold sum_counts in IH. lia.
Qed.

Lemma slots_total (config : list fields) :
  forall (sensorList sensorList' : sensors) (p p' : Z),
    slots (sensorList, p) config = Ok (sensorList', p') ->
    p' = p + sum_counts count_of config.
Proof.
  induction config as [|entry config IH]; intros sl sl' p p'.
  - cbn. intros [= _ <-]. lia.
  - cbn [slots sum_counts foldr].
    destruct (slot (sl, p) entry) as [[sl1 p1]|] eqn:E;
      cbn [mbind result_bind]; [| discriminate].
    intros H. apply IH in H.
    apply slot_advance in E as (_ & _ & _ & _ & _ & ->).
    unfold sum_counts in H. lia.
Qed.

Lemma slots_app (pre post : list fields) :
  forall (st st' : sensors * Z),
    slots st (pre ++ post) = Ok st' ->
    exists st1, slots st pre = Ok st1 /\ slots st1 post = Ok st'.
Proof.
  induction pre as [|entry pre IH]; intros st st'.
  - cbn. eauto.
  - cbn [app slots].
    destruct (slot st entry) as [st1|]; cbn [mbind result_bind];
      [| discriminate].
    apply IH.
Qed.

(** A later slot with another id leaves the entry alone. *)
Lemma slots_keep (post : list fields) (id : pyval) (a : attrs) :
  forall (sensorList sensorList' : sensors) (p p' : Z),
    Forall (fun entry => slot_id entry <> Some id) post ->
    od_get sensorList id = Ok a ->
    slots (sensorList, p) post = Ok (sensorList', p') ->
    od_get sensorList' id = Ok a.
Proof.
  induction post as [|entry post IH]; intros sl sl' p p' Hpost Hget.
  - cbn. now intros [= <- _].
  - cbn [slots]. inversion Hpost as [|? ? Hne Hpost']; subst.
    destruct (slot (sl, p) entry) as [[sl1 p1]|] eqn:E;
      cbn [mbind result_bind]; [| discriminate].
    apply slot_advance in E as (id' & a' & Hid' & -> & _ & _).
    apply IH; [assumption |].
    rewrite od_get_set_ne; [assumption | congruence].
Qed.

(** C4, as the program has it.  The registry builder gives each slot the
    running offset as its [pos] and then advances the offset by the
    slot's element count: 0 for the null type, 2 for current and
    barometer, 5 for battery, 6 for a volt sensor named "PICO INTERNAL",
    1 otherwise.  So a slot's [pos] is the sum of the counts of the
    slots before it, the next slot starts where this one ends, every
    [pos + count] is at most the sum of all counts, and the last slot
    reaches it. *)
Theorem registry_offsets (pre post : list fields) (entry : fields)
    (registry : sensors) (total : Z) :
  slots ([], 0) (pre ++ entry :: post) = Ok (registry, total) ->
  createSensorList (pre ++ entry :: post) = Ok registry /\
  total = sum_counts count_of (pre ++ entry :: post) /\
  (exists id,
     slot_id entry = Some id /\
     (Forall (fun later => slot_id later <> Some id) post ->
      exists a, od_get registry id = Ok a /\
                a !! "pos"%string = Some (VInt (sum_counts count_of pre)))) /\
  sum_counts count_of (pre ++ [entry])
  = sum_counts count_of pre + count_of entry /\
  0 <= count_of entry /\
  sum_counts count_of pre + count_of entry <= total /\
  (post = [] -> sum_counts count_of pre + count_of entry = total).
Proof.
  intros Hrun.
  pose proof (slots_total _ _ _ _ _ Hrun) as Htotal.
  rewrite Z.add_0_l in Htotal.
  split; [unfold createSensorList; now rewrite Hrun |].
  split; [assumption |].
  destruct (slots_app _ _ _ _ Hrun) as ([sl1 p1] & Hpre & Hrest).
  pose proof (slots_total _ _ _ _ _ Hpre) as Hp1. rewrite Z.add_0_l in Hp1.
  cbn [slots] in Hrest.
  destruct (slot (sl1, p1) entry) as [[sl2 p2]|] eqn:Eslot;
    cbn [mbind result_bind] in Hrest; [| discriminate].
  destruct (slot_advance _ _ _ _ _ Eslot) as (id & a & Hid & -> & Hpos & ->).
  split.
  { exists id. split; [assumption |]. intros Hpost. exists a.
    split; [| now rewrite <- Hp1].
    apply (slots_keep post id a _ _ _ _ Hpost (od_get_set_eq _ _ _) Hrest). }
  rewrite sum_counts_app in Htotal |- *.
  cbn [sum_counts foldr] in Htotal |- *. fold (sum_counts count_of post) in Htotal.
  pose proof (count_of_nonneg entry).
  pose proof (sum_counts_nonneg post).
  repeat split; try lia.
  intros ->. cbn [sum_counts foldr] in Htotal. lia.
Qed.

Lemma registry_offsets_witness :
  let pre := [slot_fields 1 1 "PICO INTERNAL"] in
  let entry := slot_fields 2 3 "Cabin" in
  createSensorList (pre ++ [entry]) = Ok pico_internal_registry /\
  7 = sum_counts count_of (pre ++ [entry]) /\
  (exists id,
     slot_id entry = Some id /\
     (Forall (fun later : fields => slot_id later <> Some id) [] ->
      exists a, od_get pico_internal_registry id = Ok a /\
                a !! "pos"%string = Some (VInt (sum_counts count_of pre)))) /\
  sum_counts count_of (pre ++ [entry])
  = sum_counts count_of pre + count_of entry /\
  0 <= count_of entry /\
  sum_counts count_of pre + count_of entry <= 7 /\
  (@nil fields = [] -> sum_counts count_of pre + count_of entry = 7).
Proof.
  intros pre entry.
  apply (registry_offsets pre [] entry pico_internal_registry 7).
  vm_compute. reflexivity.
Defined.

(** The glossary's counts alone put the slot after the internal volt
    sensor at offset 1; the builder puts it at 6. *)
Lemma offsets_not_as_listed : ~ offsets_as_listed.
Proof.
  intros H.
  specialize (H [slot_fields 1 1 "PICO INTERNAL"]
                [(VInt 1,
                  <["pos" := VInt 0]>
                    (<["type" := VStr (str_lit "volt")]>
                       (<["name" := PICO_INTERNAL]> ∅)))]
                6).
  assert (Hrec : Forall recognized [slot_fields 1 1 "PICO INTERNAL"]).
  { constructor; [| constructor]. exists 1. split; [reflexivity |].
    right. left. reflexivity. }
  specialize (H Hrec eq_refl). vm_compute in H. discriminate H.
Qed.

(** C9.  A volt sensor (type code 1) whose name field is exactly
    "PICO INTERNAL" gets element count 6, so the offset handed to every
    later slot is 6 further on; with any other name the count is 1. *)
Theorem pico_internal_takes_six (sensorList : sensors) (elementPos : Z)
    (entry : fields) (f0 f1 id name : pyval) (rest : list fields) :
  entry !! 0 = Some f0 -> subscript f0 1 = Ok id ->
  entry !! 1 = Some f1 -> subscript f1 1 = Ok (VInt 1) ->
  entry !! 3 = Some name ->
  let size := if decide (name = PICO_INTERNAL) then 6 else 1 in
  let registered :=
    od_set sensorList id
      (<["pos" := VInt elementPos]>
         (<["type" := VStr (str_lit "volt")]> (<["name" := name]> ∅))) in
  slot (sensorList, elementPos) entry = Ok (registered, elementPos + size) /\
  slots (sensorList, elementPos) (entry :: rest)
  = slots (registered, elementPos + size) rest.
Proof.
  intros H0 Hid H1 Hty Hname size registered.
  assert (Hslot : slot (sensorList, elementPos) entry
                  = Ok (registered, elementPos + size)).
  { unfold slot, getitem. rewrite H0. cbn [mbind result_bind]. rewrite Hid.
    cbn [mbind result_bind]. rewrite H1. cbn [mbind result_bind]. rewrite Hty.
    cbn [mbind result_bind]. rewrite classify_volt. unfold getitem.
    rewrite Hname. reflexivity. }
  split; [exact Hslot |].
  cbn [slots]. now rewrite Hslot.
Qed.

Lemma pico_internal_takes_six_witness :
  slots ([], 0) pico_internal_config
  = slots ([(VInt 1,
             <["pos" := VInt 0]>
               (<["type" := VStr (str_lit "volt")]>
                  (<["name" := PICO_INTERNAL]> ∅)))], 6)
          [slot_fields 2 3 "Cabin"] /\
  slot ([], 10) (slot_fields 4 1 "Starter")
  = Ok ([(VInt 4,
          <["pos" := VInt 10]>
            (<["type" := VStr (str_lit "volt")]>
               (<["name" := VStr (str_lit "Starter")]> ∅)))], 11).
Proof.
  split.
  - apply (pico_internal_takes_six [] 0 (slot_fields 1 1 "PICO INTERNAL")
             (VPair 0 1) (VPair 0 1) (VInt 1) PICO_INTERNAL
             [slot_fields 2 3 "Cabin"]); reflexivity.
  - apply (pico_internal_takes_six [] 10 (slot_fields 4 1 "Starter")
             (VPair 0 4) (VPair 0 1) (VInt 4) (VStr (str_lit "Starter")) []);
      reflexivity.
Defined.

(** ** The CRC engine *)

Lemma all_from_spec (f : Z -> bool) (n : nat) :
  forall z, all_from n z f = true ->
            forall i, z <= i < z + Z.of_nat n -> f i = true.
Proof.
  induction n as [|n IH]; intros z Hall i Hi; [lia |].
  cbn [all_from] in Hall. destruct (f z) eqn:Ez; [| discriminate].
  destruct (Z.eq_dec i z) as [->|Hne]; [assumption |].
  apply (IH (z + 1) Hall). lia.
Qed.

Lemma byte_val_range (b : byte) : 0 <= byte_val b < 256.
Proof.
  unfold byte_val. pose proof (Byte.to_N_bounded b) as H.
  apply N2Z.inj_le in H. change (Z.of_N 255) with 255 in H.
  pose proof (N2Z.is_nonneg (Byte.to_N b)). lia.
Qed.

Lemma byte_val_of_Z (z : Z) : 0 <= z < 256 -> byte_val (byte_of_Z z) = z.
Proof.
  intros Hz. unfold byte_val, byte_of_Z.
  destruct (Byte.of_N (Z.to_N z)) as [b|] eqn:E.
  - apply Byte.to_of_N in E. simpl. rewrite E. apply Z2N.id. lia.
  - apply Byte.of_N_None_iff in E. apply N2Z.inj_lt in E.
    rewrite Z2N.id in E by lia. change (Z.of_N 255) with 255 in E. lia.
Qed.

Lemma crc16_bit_range (poly crc : Z) : 0 <= crc16_bit poly crc < 65536.
Proof.
  unfold crc16_bit. change 65535 with (Z.ones 16).
  rewrite Z.land_ones by lia. apply Z.mod_pos_bound. lia.
Qed.

Lemma crc16_feed_range (poly crc : Z) (b : byte) :
  0 <= crc16_feed poly crc b < 65536.
Proof. unfold crc16_feed. cbn [Nat.iter]. apply crc16_bit_range. Qed.

Lemma crc16_ref_range (poly : Z) (data : bytes) :
  forall init, 0 <= init < 65536 -> 0 <= crc16_ref poly init data < 65536.
Proof.
  unfold crc16_ref. induction data as [|b data IH]; intros init Hinit.
  - exact Hinit.
  - cbn [fold_left]. apply IH, crc16_feed_range.
Qed.

Ltac bits :=
  apply Z.bits_inj'; intros n Hn;
  repeat first [rewrite Z.land_spec | rewrite Z.lxor_spec
               | rewrite Z.shiftl_spec by lia | rewrite Z.shiftr_spec by lia].

Lemma crc16_bit_lxor (poly a b : Z) :
  crc16_bit poly (Z.lxor a b)
  = Z.lxor (crc16_bit poly a) (crc16_bit poly b).
Proof.
  unfold crc16_bit. rewrite Z.lxor_spec.
  destruct (Z.testbit a 15), (Z.testbit b 15); cbn [xorb]; bits;
    repeat destruct (Z.testbit _ _); reflexivity.
Qed.

Lemma crc16_bits_lxor (poly : Z) (k : nat) (a b : Z) :
  Nat.iter k (crc16_bit poly) (Z.lxor a b)
  = Z.lxor (Nat.iter k (crc16_bit poly) a) (Nat.iter k (crc16_bit poly) b).
Proof.
  induction k as [|k IH]; [reflexivity |].
  rewrite !Nat.iter_succ, IH. apply crc16_bit_lxor.
Qed.

Lemma low_byte_shifts :
  forall lo, 0 <= lo < 256 ->
             Nat.iter 8 (crc16_bit 0x11189) lo = Z.shiftl lo 8.
Proof.
  intros lo Hlo.
  assert (H : all_from 256 0
                (fun lo => Nat.iter 8 (crc16_bit 0x11189) lo =? Z.shiftl lo 8)
              = true) by (vm_compute; reflexivity).
  apply Z.eqb_eq. apply (all_from_spec _ _ _ H). cbn. lia.
Qed.

Lemma high_byte_table :
  forall hi, 0 <= hi < 256 ->
             Nat.iter 8 (crc16_bit 0x11189) (Z.shiftl hi 8)
             = nth (Z.to_nat hi) (crcmod.mkTable 0x11189 16) 0.
Proof.
  intros hi Hhi.
  assert (H : (let table := crcmod.mkTable 0x11189 16 in
               all_from 256 0
                (fun hi => Nat.iter 8 (crc16_bit 0x11189) (Z.shiftl hi 8)
                           =? nth (Z.to_nat hi) table 0))
              = true) by (vm_compute; reflexivity).
  apply Z.eqb_eq. apply (all_from_spec _ _ _ H). cbn. lia.
Qed.

Lemma testbit_above (a k n : Z) :
  0 <= a < 2 ^ k -> k <= n -> Z.testbit a n = false.
Proof.
  intros Ha Hn. destruct (Z.eq_dec a 0) as [->|Hne]; [apply Z.bits_0 |].
  apply Z.bits_above_log2; [lia |].
  assert (Z.log2 a < k) by (apply Z.log2_lt_pow2; lia). lia.
Qed.

Lemma testbit_255 (n : Z) : Z.testbit 255 n = (0 <=? n) && (n <? 8).
Proof.
  change 255 with (Z.ones 8).
  destruct (Z.leb_spec 0 n); [| now rewrite Z.testbit_neg_r by lia].
  destruct (Z.ltb_spec n 8).
  - now rewrite Z.ones_spec_low by lia.
  - now rewrite Z.ones_spec_high by lia.
Qed.

Lemma split_register (crc x : Z) :
  0 <= crc < 65536 ->
  Z.lxor crc (Z.shiftl x 8)
  = Z.lxor (Z.shiftl (Z.lxor x (Z.land (Z.shiftr crc 8) 255)) 8)
           (Z.land crc 255).
Proof.
  intros Hcrc. bits. rewrite !testbit_255.
  destruct (Z.ltb_spec n 8) as [Hlow|Hhigh].
  - rewrite !(Z.testbit_neg_r _ (n - 8)) by lia.
    replace (0 <=? n) with true by (symmetry; apply Z.leb_le; lia).
    now destruct (Z.testbit crc n).
  - rewrite Z.shiftr_spec by lia.
    replace (n - 8 + 8) with n by lia.
    rewrite andb_false_r, andb_false_r, xorb_false_r.
    replace (0 <=? n - 8) with true by (symmetry; apply Z.leb_le; lia).
    destruct (Z.ltb_spec (n - 8) 8).
    + destruct (Z.testbit crc n), (Z.testbit x (n - 8)); reflexivity.
    + rewrite (testbit_above crc 16 n) by lia.
      destruct (Z.testbit x (n - 8)); reflexivity.
Qed.

Lemma shift_low_byte (crc : Z) :
  Z.land (Z.shiftl crc 8) 65280 = Z.shiftl (Z.land crc 255) 8.
Proof.
  change 65280 with (Z.shiftl 255 8). now rewrite Z.shiftl_land.
Qed.

Lemma high_index_range (crc x : Z) :
  0 <= x < 256 ->
  0 <= Z.lxor x (Z.land (Z.shiftr crc 8) 255) < 256.
Proof.
  intros Hx.
  assert (Hl : 0 <= Z.land (Z.shiftr crc 8) 255 < 256).
  { change 255 with (Z.ones 8). rewrite Z.land_ones by lia.
    apply Z.mod_pos_bound. lia. }
  split; [apply Z.lxor_nonneg; lia |].
  destruct (Z.eq_dec (Z.lxor x (Z.land (Z.shiftr crc 8) 255)) 0) as [->|Hne];
    [lia |].
  change 256 with (2 ^ 8). apply Z.log2_lt_pow2.
  - assert (0 <= Z.lxor x (Z.land (Z.shiftr crc 8) 255))
      by (apply Z.lxor_nonneg; lia). lia.
  - eapply Z.le_lt_trans; [apply Z.log2_lxor; lia |].
    apply Z.max_lub_lt.
    + destruct (Z.eq_dec x 0) as [->|]; [cbn; lia |].
      apply Z.log2_lt_pow2; lia.
    + destruct (Z.eq_dec (Z.land (Z.shiftr crc 8) 255) 0) as [->|];
        [cbn; lia |].
      apply Z.log2_lt_pow2; lia.
Qed.

(** crcmod's table step is eight steps of the bitwise register. *)
Lemma crc16_byte_feed (crc : Z) (x : byte) :
  0 <= crc < 65536 ->
  crcmod.crc16_byte (crcmod.mkTable 0x11189 16) crc x
  = crc16_feed 0x11189 crc x.
Proof.
  intros Hcrc. unfold crcmod.crc16_byte, crc16_feed.
  rewrite split_register by assumption.
  rewrite crc16_bits_lxor.
  rewrite high_byte_table by (apply high_index_range, byte_val_range).
  rewrite low_byte_shifts.
  - now rewrite shift_low_byte.
  - change 255 with (Z.ones 8). rewrite Z.land_ones by lia.
    apply Z.mod_pos_bound. lia.
Qed.

Lemma crcmod_crc16_ref (data : bytes) :
  forall crc, 0 <= crc < 65536 ->
    fold_left (crcmod.crc16_byte (crcmod.mkTable 0x11189 16)) data crc
    = crc16_ref 0x11189 crc data.
Proof.
  unfold crc16_ref. induction data as [|b data IH]; intros crc Hcrc.
  - reflexivity.
  - cbn [fold_left]. rewrite crc16_byte_feed by assumption.
    apply IH, crc16_feed_range.
Qed.

Lemma mkCrcFun_crc16_ref (data : bytes) :
  crcmod.mkCrcFun 0x11189 0 0 data = crc16_ref 0x11189 0 data.
Proof.
  unfold crcmod.mkCrcFun, crcmod.crc16.
  change (Z.lxor 0 0) with 0. change (Z.land 0 65535) with 0.
  rewrite crcmod_crc16_ref by lia. apply Z.lxor_0_l.
Qed.

Lemma slice_inner {A} (l : list A) :
  slice l 1 (-1) = firstn (length l - 2) (skipn 1 l).
Proof.
  unfold slice, slice_bound. cbn [Z.ltb Z.compare Z.to_nat Pos.to_nat
                                  Pos.iter_op Nat.add].
  destruct l as [|x [|y l]]; [reflexivity | reflexivity |].
  cbn [length Nat.min].
  replace (Z.to_nat (Z.max 0 (Z.of_nat (S (S (length l))) + -1)))
    with (S (length l)) by lia.
  reflexivity.
Qed.

(** C8, as the program has it.  With its default arguments (offset 1,
    length -1) [add_crc] takes the checksum of [buffer[1:-1]], the buffer
    without its first and its last byte, with the CRC-16 of generator
    polynomial 0x11189, initial value 0, not reversed, no output XOR,
    and appends exactly two bytes, the checksum in big-endian order; the
    bytes before them are unchanged. *)
Theorem add_crc_appends (data : bytes) :
  let crc := crc16_ref 0x11189 0 (slice data 1 (-1)) in
  add_crc data
  = Ok (data ++ [byte_of_Z (crc / 256); byte_of_Z (crc mod 256)]) /\
  be16 (byte_of_Z (crc / 256)) (byte_of_Z (crc mod 256)) = crc /\
  slice data 1 (-1) = firstn (length data - 2) (skipn 1 data).
Proof.
  intros crc.
  assert (Hcrc : 0 <= crc < 65536) by (apply crc16_ref_range; lia).
  split; [| split].
  - unfold add_crc, add_crc_with. rewrite mkCrcFun_crc16_ref. fold crc.
    unfold to_bytes2.
    replace ((0 <=? crc) && (crc <? 65536)) with true; [reflexivity |].
    symmetry. apply andb_true_iff. split; [apply Z.leb_le | apply Z.ltb_lt]; lia.
  - unfold be16. rewrite !byte_val_of_Z.
    + pose proof (Z.div_mod crc 256). lia.
    + apply Z.mod_pos_bound. lia.
    + split; [apply Z.div_pos; lia | apply Z.div_lt_upper_bound; lia].
  - apply slice_inner.
Qed.

(** The checksum the device itself sent, [32 CF], is the one [add_crc]
    computes for the frame before it. *)
Example device_answer_crc :
  add_crc device_answer = Ok (device_answer ++ [x32; xcf]).
Proof. vm_compute. reflexivity. Qed.

Example count_request_crc :
  add_crc count_request = Ok (count_request ++ [xa8; xc0]).
Proof. vm_compute. reflexivity. Qed.

(** The last byte of the buffer is not part of the checksum. *)
Lemma crc_skips_last_byte : ~ crc_covers_rest.
Proof.
  intros H. specialize (H count_request). rewrite count_request_crc in H.
  vm_compute in H. discriminate H.
Qed.

(** ** Binary64 facts *)

Lemma digits2_size (p : positive) : digits2_pos p = Pos.size p.
Proof. induction p; cbn; congruence. Qed.

Lemma digits2_bounds (p : positive) :
  2 ^ (Zpos (digits2_pos p) - 1) <= Zpos p < 2 ^ Zpos (digits2_pos p).
Proof.
  rewrite digits2_size.
  pose proof (Pos.size_gt p) as Hgt. pose proof (Pos.size_le p) as Hle.
  apply Pos2Z.pos_lt_pos in Hgt. apply Pos2Z.pos_le_pos in Hle.
  rewrite Pos2Z.inj_pow in Hgt, Hle.
  change (Zpos p~0) with (2 * Zpos p) in Hle.
  replace (Zpos (Pos.size p)) with (Zpos (Pos.size p) - 1 + 1) in Hle at 1 by lia.
  rewrite Z.pow_add_r in Hle by lia. change (2 ^ 1) with 2 in Hle.
  lia.
Qed.

Lemma digits2_unique (p : positive) (d : Z) :
  2 ^ (d - 1) <= Zpos p < 2 ^ d -> Zpos (digits2_pos p) = d.
Proof.
  intros [Hlo Hhi]. pose proof (digits2_bounds p) as [Hlo' Hhi'].
  destruct (Z.lt_trichotomy (Zpos (digits2_pos p)) d) as [H|[H|H]];
    [exfalso | assumption | exfalso].
  - assert (2 ^ Zpos (digits2_pos p) <= 2 ^ (d - 1))
      by (apply Z.pow_le_mono_r; lia). lia.
  - assert (0 <= d \/ d < 0) as [Hd|Hd] by lia.
    + assert (2 ^ d <= 2 ^ (Zpos (digits2_pos p) - 1))
        by (apply Z.pow_le_mono_r; lia). lia.
    + rewrite (Z.pow_neg_r 2 d) in Hhi by lia. lia.
Qed.

Lemma iter_xO_pow (p k : positive) :
  Zpos (Pos.iter xO p k) = Zpos p * 2 ^ Zpos k.
Proof.
  induction k as [|k IH] using Pos.peano_ind.
  - cbn [Pos.iter]. change (2 ^ 1) with 2. lia.
  - rewrite Pos.iter_succ, Pos2Z.inj_succ, Z.pow_succ_r by lia.
    change (Zpos (Pos.iter xO p k)~0) with (2 * Zpos (Pos.iter xO p k)).
    rewrite IH. lia.
Qed.

Lemma digits2_iter_xO (p : positive) (k : positive) :
  Zpos (digits2_pos (Pos.iter xO p k)) = Zpos (digits2_pos p) + Zpos k.
Proof.
  apply digits2_unique.
  pose proof (digits2_bounds p) as [Hlo Hhi].
  rewrite iter_xO_pow.
  replace (Zpos (digits2_pos p) + Zpos k - 1)
    with (Zpos (digits2_pos p) - 1 + Zpos k) by lia.
  rewrite !Z.pow_add_r by lia.
  assert (0 < 2 ^ Zpos k) by (apply Z.pow_pos_nonneg; lia).
  nia.
Qed.

Lemma binary_round_aux_canonical (s : bool) (m : positive) (e : Z) :
  canonical_mantissa prec emax m e = true ->
  e <= emax - prec ->
  binary_round_aux prec emax s (Zpos m) e loc_Exact = S754_finite s m e.
Proof.
  intros Hcan He. unfold canonical_mantissa in Hcan. apply Z.eqb_eq in Hcan.
  unfold binary_round_aux, shr_fexp. cbn [Zdigits2 shr_record_of_loc].
  rewrite Hcan, Z.sub_diag. cbn [shr shr_m loc_of_shr_record round_nearest_even].
  cbn [Zdigits2 shr_record_of_loc].
  rewrite Hcan, Z.sub_diag. cbn [shr shr_m].
  apply Z.leb_le in He. now rewrite He.
Qed.

Lemma Z2f_finite (p : positive) :
  Zpos p < 2 ^ 53 ->
  exists m e, binary_round prec emax false p 0 = S754_finite false m e /\
              binary_round prec emax true p 0 = S754_finite true m e /\
              bounded prec emax m e = true.
Proof.
  intros Hp. pose proof (digits2_bounds p) as [Hlo Hhi].
  assert (Hd : Zpos (digits2_pos p) <= 53).
  { destruct (Z.le_gt_cases (Zpos (digits2_pos p)) 53); [assumption |].
    assert (2 ^ 53 <= 2 ^ (Zpos (digits2_pos p) - 1))
      by (apply Z.pow_le_mono_r; lia). lia. }
  unfold binary_round, shl_align.
  rewrite Z.add_0_r.
  assert (Hf : fexp prec emax (Zpos (digits2_pos p)) = Zpos (digits2_pos p) - 53).
  { unfold fexp, emin, prec, emax. lia. }
  rewrite Hf.
  destruct (Zpos (digits2_pos p) - 53 - 0) as [|k|k] eqn:Ek; [| lia |].
  - assert (Hcan : canonical_mantissa prec emax p 0 = true).
    { unfold canonical_mantissa. rewrite Z.add_0_r, Hf. apply Z.eqb_eq. lia. }
    exists p, 0. rewrite !binary_round_aux_canonical by (assumption || (cbv; discriminate)).
    repeat split. unfold bounded. now rewrite Hcan.
  - assert (Hcan : canonical_mantissa prec emax (Pos.iter xO p k)
                     (Zpos (digits2_pos p) - 53) = true).
    { unfold canonical_mantissa. rewrite digits2_iter_xO.
      apply Z.eqb_eq. unfold fexp, emin, prec, emax. lia. }
    exists (Pos.iter xO p k), (Zpos (digits2_pos p) - 53).
    rewrite !binary_round_aux_canonical
      by (assumption || (unfold emax, prec; lia)).
    repeat split. unfold bounded. rewrite Hcan.
    apply Z.leb_le. unfold emax, prec. lia.
Qed.

Lemma float_of_int_small (z : Z) :
  Z.abs z < 2 ^ 53 -> float_of_int z = Ok (Z2f z).
Proof.
  intros Hz. unfold float_of_int. fold (Z2f z). unfold Z2f, binary_normalize.
  destruct z as [|p|p]; [reflexivity | |];
    destruct (Z2f_finite p ltac:(lia)) as (m & e & Hpos & Hneg & _).
  - now rewrite Hpos.
  - now rewrite Hneg.
Qed.

Lemma Z2f_valid (z : Z) :
  Z.abs z < 2 ^ 53 -> valid_binary prec emax (Z2f z) = true.
Proof.
  intros Hz. unfold Z2f, binary_normalize.
  destruct z as [|p|p]; [reflexivity | |];
    destruct (Z2f_finite p ltac:(lia)) as (m & e & Hpos & Hneg & Hb).
  - now rewrite Hpos.
  - now rewrite Hneg.
Qed.

Lemma binary_round_aux_opp (s : bool) (m e : Z) (l : location) :
  SFopp (binary_round_aux prec emax s m e l)
  = binary_round_aux prec emax (negb s) m e l.
Proof.
  unfold binary_round_aux.
  destruct (shr_fexp prec emax m e l) as [mrs' e'].
  destruct (shr_fexp prec emax _ e' loc_Exact) as [mrs'' e''].
  destruct (shr_m mrs''); [reflexivity | | reflexivity].
  destruct (e'' <=? emax - prec); reflexivity.
Qed.

Lemma Z2f_prim (z : Z) :
  Z.abs z < 2 ^ 62 -> Z2f z = FloatOps.Prim2SF (prim_of_Z z).
Proof.
  intros Hz.
  assert (Hnn : forall n, 0 <= n < 2 ^ 62 ->
            Z2f n = FloatOps.Prim2SF (PrimFloat.of_uint63 (Uint63.of_Z n))).
  { intros n Hn. rewrite FloatAxioms.of_uint63_spec, Uint63.of_Z_spec.
    rewrite Z.mod_small; [reflexivity |].
    change Uint63.wB with (2 ^ 63). 
    assert (2 ^ 62 < 2 ^ 63) by (apply Z.pow_lt_mono_r; lia). lia. }
  destruct z as [|p|p]; cbn [prim_of_Z]; try (apply Hnn; lia).
  rewrite FloatAxioms.opp_spec, <- Hnn by lia.
  unfold Z2f, binary_normalize, binary_round.
  destruct (shl_align _ _ _) as [mz ez].
  now rewrite binary_round_aux_opp.
Qed.

Lemma ratio_prim (a k : Z) :
  Z.abs a < 2 ^ 62 -> Z.abs k < 2 ^ 62 ->
  ratio a k = FloatOps.Prim2SF (PrimFloat.div (prim_of_Z a) (prim_of_Z k)).
Proof.
  intros Ha Hk. unfold ratio. rewrite FloatAxioms.div_spec.
  now rewrite <- !Z2f_prim.
Qed.

Lemma ratio_valid (a k : Z) :
  Z.abs a < 2 ^ 62 -> Z.abs k < 2 ^ 62 ->
  valid_binary prec emax (ratio a k) = true.
Proof.
  intros Ha Hk. rewrite ratio_prim by assumption.
  apply FloatAxioms.Prim2SF_valid.
Qed.

Lemma fmul_neg_one (x : spec_float) :
  valid_binary prec emax x = true -> fmul x (Z2f (-1)) = SFopp x.
Proof.
  intros Hx. change (Z2f (-1)) with (S754_finite true 4503599627370496 (-52)).
  destruct x as [s|s| |s m e];
    [destruct s; reflexivity | destruct s; reflexivity | reflexivity |].
  cbn [valid_binary] in Hx. unfold bounded in Hx.
  apply andb_true_iff in Hx as [Hcan He].
  unfold canonical_mantissa in Hcan. apply Z.eqb_eq in Hcan.
  apply Z.leb_le in He.
  unfold fmul, SFmul, SFopp.
  replace (xorb s true) with (negb s) by (destruct s; reflexivity).
  rewrite Pos.mul_comm.
  change (4503599627370496 * m)%positive with (Pos.iter xO m 52).
  unfold binary_round_aux, shr_fexp.
  cbn [Zdigits2 shr_record_of_loc].
  rewrite digits2_iter_xO.
  replace (Z.pos (digits2_pos m) + 52 + (e + -52))
    with (Z.pos (digits2_pos m) + e) by lia.
  rewrite Hcan. replace (e - (e + -52)) with 52 by lia.
  cbn [shr].
  replace (SpecFloat.iter_pos shr_1 52
             {| shr_m := Z.pos (Pos.iter xO m 52);
                shr_r := false; shr_s := false |})
    with {| shr_m := Z.pos m; shr_r := false; shr_s := false |}
    by (vm_compute; reflexivity).
  cbn [shr_m loc_of_shr_record round_nearest_even Zdigits2].
  replace (e + -52 + 52) with e by lia.
  rewrite Hcan, Z.sub_diag. cbn [shr shr_m].
  apply Z.leb_le in He. now rewrite He.
Qed.

(** ** The current and battery readers *)

Lemma Z2f_nonzero (k : Z) : 0 < k < 2 ^ 53 -> is_zero (Z2f k) = false.
Proof.
  intros Hk. destruct k as [|p|p]; try lia.
  destruct (Z2f_finite p ltac:(lia)) as (m & e & Hpos & _).
  unfold Z2f, binary_normalize. now rewrite Hpos.
Qed.

Lemma div_by_lit_ratio (z k : Z) :
  Z.abs z < 2 ^ 53 -> 0 < k < 2 ^ 53 ->
  div_by_lit (VInt z) k = Ok (ratio z k).
Proof.
  intros Hz Hk. unfold div_by_lit. cbn [as_int mbind result_bind].
  rewrite !float_of_int_small by lia. cbn [mbind result_bind].
  unfold py_truediv. now rewrite Z2f_nonzero.
Qed.

Lemma pow2_53 : 2 ^ 53 = 9007199254740992.
Proof. reflexivity. Qed.
Lemma pow2_62 : 2 ^ 62 = 4611686018427387904.
Proof. reflexivity. Qed.

(** The sign convention as both readers spell it out. *)
Lemma current_formula (raw : Z) :
  0 <= raw < 65536 ->
  (if 25000 <? raw then div_by_lit (VInt (65535 - raw)) 100
   else x ← div_by_lit (VInt raw) 100;
        m ← float_of_int (-1);
        Ok (fmul x m))
  = Ok (signed_current raw).
Proof.
  intros Hraw. unfold signed_current.
  destruct (25000 <? raw).
  - apply div_by_lit_ratio; rewrite pow2_53; lia.
  - rewrite div_by_lit_ratio by (rewrite pow2_53; lia).
    cbn [mbind result_bind].
    rewrite float_of_int_small by (rewrite pow2_53; lia).
    cbn [mbind result_bind].
    rewrite fmul_neg_one; [reflexivity |].
    apply ratio_valid; rewrite pow2_62; lia.
Qed.

Lemma tmp_update_get (tmp : sensors) (sensorId : pyval) (k : string)
    (v : pyval) (a : attrs) :
  od_get tmp sensorId = Ok a ->
  tmp_update tmp sensorId k (Ok v) = Ok (od_set tmp sensorId (<[k := v]> a)).
Proof. intros H. unfold tmp_update. now rewrite H. Qed.

Lemma tmp_update_set (tmp : sensors) (sensorId : pyval) (k : string)
    (v : pyval) (a : attrs) :
  tmp_update (od_set tmp sensorId a) sensorId k (Ok v)
  = Ok (od_set tmp sensorId (<[k := v]> a)).
Proof.
  unfold tmp_update. rewrite od_get_set_eq. cbn [mbind result_bind].
  now rewrite od_set_set.
Qed.

Lemma component_pair (element : fields) (p off a b : Z) :
  element !! (p + off) = Some (VPair a b) ->
  component element (VInt p) off 0 = Ok (VInt a) /\
  component element (VInt p) off 1 = Ok (VInt b).
Proof.
  intros H. unfold component, getitem. cbn [as_int mbind result_bind].
  rewrite H. split; reflexivity.
Qed.

Lemma readCurrent_eq (element : fields) (tmp : sensors) (sensorId : pyval)
    (p c d : Z) (a0 : attrs) :
  element !! p = Some (VPair c d) ->
  0 <= d < 65536 ->
  od_get tmp sensorId = Ok a0 ->
  readCurrent element tmp sensorId (VInt p)
  = Ok (od_set tmp sensorId (<["current" := VFloat (signed_current d)]> a0)).
Proof.
  intros He Hd Hget. unfold readCurrent.
  rewrite <- (Z.add_0_r p) in He.
  destruct (component_pair _ _ _ _ _ He) as [_ ->].
  cbn [mbind result_bind as_int].
  rewrite current_formula by assumption. cbn [mbind result_bind].
  now apply tmp_update_get.
Qed.

Lemma readBatt_eq (sensorList : sensors) (element : fields) (tmp : sensors)
    (sensorId : pyval) (p a b c d e f : Z) (a0 : attrs) :
  element !! p = Some (VPair a b) ->
  element !! (p + 1) = Some (VPair c d) ->
  element !! (p + 2) = Some (VPair e f) ->
  0 <= a < 65536 -> 0 <= b < 65536 -> 0 <= d < 65536 -> 0 <= f < 65536 ->
  od_get tmp sensorId = Ok a0 ->
  let stateOfCharge := py_round2 (ratio a 16000) in
  let current := signed_current d in
  let a4 :=
    <["current" := VFloat current]>
      (<["voltage" := VFloat (ratio f 1000)]>
         (<["capacity.remaining" := VFloat (fmul (Z2f b) stateOfCharge)]>
            (<["stateOfCharge" := VFloat stateOfCharge]> a0))) in
  readBatt sensorList element tmp sensorId (VInt p)
  = if decide (a = 65535) then Ok (od_set tmp sensorId a4)
    else
      registered ← od_get sensorList sensorId;
      nominal ← getitem registered "capacity.nominal";
      n ← as_int nominal;
      t ← time_remaining n current stateOfCharge;
      Ok (od_set tmp sensorId (<["capacity.timeRemaining" := VInt t]> a4)).
Proof.
  intros H0 H1 H2 Ha Hb Hd Hf Hget soc cur a4.
  rewrite <- (Z.add_0_r p) in H0.
  destruct (component_pair _ _ _ _ _ H0) as [C00 C01].
  destruct (component_pair _ _ _ _ _ H1) as [_ C11].
  destruct (component_pair _ _ _ _ _ H2) as [_ C21].
  unfold readBatt, stateOfCharge_of.
  rewrite C00. cbn [mbind result_bind].
  rewrite div_by_lit_ratio by (rewrite pow2_53; lia).
  cbn [mbind result_bind]. fold (py_round2 (ratio a 16000)). fold soc.
  rewrite (tmp_update_get _ _ _ _ _ Hget). cbn [mbind result_bind].
  rewrite C01. cbn [mbind result_bind as_int].
  rewrite (float_of_int_small b) by (rewrite pow2_53; lia).
  cbn [mbind result_bind]. rewrite tmp_update_set. cbn [mbind result_bind].
  rewrite C21. cbn [mbind result_bind].
  rewrite div_by_lit_ratio by (rewrite pow2_53; lia).
  cbn [mbind result_bind]. rewrite tmp_update_set. cbn [mbind result_bind].
  rewrite C11. cbn [mbind result_bind as_int].
  rewrite current_formula by assumption. cbn [mbind result_bind]. fold cur.
  rewrite tmp_update_set. cbn [mbind result_bind]. fold a4.
  destruct (decide (a = 65535)) as [->|Hne].
  - rewrite decide_False by (intros Hc; now apply Hc). reflexivity.
  - rewrite decide_True by congruence.
    destruct (od_get sensorList sensorId) as [registered|]; [| reflexivity].
    cbn [mbind result_bind].
    destruct (getitem registered "capacity.nominal") as [nominal|];
      [| reflexivity].
    cbn [mbind result_bind].
    destruct (as_int nominal) as [n|]; [| reflexivity].
    cbn [mbind result_bind]. unfold time_remaining.
    destruct (int_truediv n 12) as [x|]; [| reflexivity].
    cbn [mbind result_bind].
    destruct (py_truediv x _) as [q|]; [| reflexivity].
    cbn [mbind result_bind].
    destruct (py_round q) as [t|]; [| reflexivity].
    cbn [mbind result_bind]. now rewrite tmp_update_set.
Qed.

(** What a successful battery reading holds. *)
Lemma readBatt_ok (sensorList : sensors) (element : fields) (tmp tmp' : sensors)
    (sensorId : pyval) (p a b c d e f : Z) (a0 : attrs) :
  element !! p = Some (VPair a b) ->
  element !! (p + 1) = Some (VPair c d) ->
  element !! (p + 2) = Some (VPair e f) ->
  0 <= a < 65536 -> 0 <= b < 65536 -> 0 <= d < 65536 -> 0 <= f < 65536 ->
  od_get tmp sensorId = Ok a0 ->
  readBatt sensorList element tmp sensorId (VInt p) = Ok tmp' ->
  exists a',
    od_get tmp' sensorId = Ok a' /\
    a' !! "stateOfCharge"%string = Some (VFloat (py_round2 (ratio a 16000))) /\
    a' !! "capacity.remaining"%string
    = Some (VFloat (fmul (Z2f b) (py_round2 (ratio a 16000)))) /\
    a' !! "current"%string = Some (VFloat (signed_current d)).
Proof.
  intros H0 H1 H2 Ha Hb Hd Hf Hget.
  rewrite (readBatt_eq _ _ _ _ _ _ _ _ _ _ _ _ H0 H1 H2 Ha Hb Hd Hf Hget).
  cbv zeta. destruct (decide (a = 65535)) as [_|_].
  - intros [= <-]. eexists. split; [apply od_get_set_eq |].
    repeat split; now simplify_map_eq.
  - destruct (od_get sensorList sensorId) as [registered|];
      cbn [mbind result_bind]; [| discriminate].
    destruct (getitem registered "capacity.nominal") as [nominal|];
      cbn [mbind result_bind]; [| discriminate].
    destruct (as_int nominal) as [n|]; cbn [mbind result_bind];
      [| discriminate].
    destruct (time_remaining n _ _) as [t|]; cbn [mbind result_bind];
      [| discriminate].
    intros [= <-]. eexists. split; [apply od_get_set_eq |].
    repeat split; now simplify_map_eq.
Qed.

(** C1, as the program has it.  The battery reader stores
    stateOfCharge = round(element[pos][0]/16000, 2) and
    capacity.remaining = element[pos][1] * stateOfCharge, where
    element[pos] is the frame field at the sensor's registry offset: the
    factor is the field's second component, not the nominal capacity of
    the registry. *)
Theorem battery_charge_and_remaining (sensorList : sensors) (element : fields)
    (tmp tmp' : sensors) (sensorId : pyval) (p a b c d e f : Z) (a0 : attrs) :
  element !! p = Some (VPair a b) ->
  element !! (p + 1) = Some (VPair c d) ->
  element !! (p + 2) = Some (VPair e f) ->
  0 <= a < 65536 -> 0 <= b < 65536 -> 0 <= d < 65536 -> 0 <= f < 65536 ->
  od_get tmp sensorId = Ok a0 ->
  readBatt sensorList element tmp sensorId (VInt p) = Ok tmp' ->
  let stateOfCharge := py_round2 (ratio a 16000) in
  exists a',
    od_get tmp' sensorId = Ok a' /\
    a' !! "stateOfCharge"%string = Some (VFloat stateOfCharge) /\
    a' !! "capacity.remaining"%string
    = Some (VFloat (fmul (Z2f b) stateOfCharge)).
Proof.
  intros H0 H1 H2 Ha Hb Hd Hf Hget Hrun soc.
  destruct (readBatt_ok _ _ _ _ _ _ _ _ _ _ _ _ _ H0 H1 H2 Ha Hb Hd Hf Hget Hrun)
    as (a' & Hget' & Hsoc & Hrem & _).
  now exists a'.
Qed.

Example battery_reading_discharging :
  readBatt battery_registry battery_element battery_registry (VInt 7) (VInt 0)
  = Ok [(VInt 7, battery_reading (Z2f (-10)) 604800)].
Proof. vm_compute. reflexivity. Qed.

Example battery_reading_charging :
  readBatt battery_registry charging_element battery_registry (VInt 7) (VInt 0)
  = Ok [(VInt 7, battery_reading (Z2f 10) 720)].
Proof. vm_compute. reflexivity. Qed.

Lemma battery_charge_and_remaining_witness :
  exists a',
    od_get [(VInt 7, battery_reading (Z2f (-10)) 604800)] (VInt 7) = Ok a' /\
    a' !! "stateOfCharge"%string = Some (VFloat (py_round2 (ratio 8000 16000))) /\
    a' !! "capacity.remaining"%string
    = Some (VFloat (fmul (Z2f 7) (py_round2 (ratio 8000 16000)))).
Proof.
  apply (battery_charge_and_remaining battery_registry battery_element
           battery_registry [(VInt 7, battery_reading (Z2f (-10)) 604800)]
           (VInt 7) 0 8000 7 0 1000 0 12500 battery_attrs
           eq_refl eq_refl eq_refl);
    try lia; [reflexivity | exact battery_reading_discharging].
Defined.

(** With 7 in the field and 43200 in the registry, capacity.remaining is
    3.5, not 21600. *)
Lemma remaining_not_from_nominal : ~ remaining_from_nominal.
Proof.
  intros H.
  specialize (H battery_registry battery_element battery_registry _
                (VInt 7) 0 8000 7 43200 _ _
                eq_refl eq_refl eq_refl battery_reading_discharging eq_refl).
  vm_compute in H. discriminate H.
Qed.

(** C6.  Both the current reader and the battery reader store, under
    "current", (65535 - raw)/100 when raw > 25000 and -(raw/100)
    otherwise; the current reader takes raw from the second component
    of the field at the sensor's offset, the battery reader from the
    field after it.  Raw 30000 gives 355.35 and raw 1000 gives -10.0. *)
Theorem current_sign_convention :
  (forall (element : fields) (tmp : sensors) (sensorId : pyval) (p c d : Z)
          (a0 : attrs),
     element !! p = Some (VPair c d) ->
     0 <= d < 65536 ->
     od_get tmp sensorId = Ok a0 ->
     readCurrent element tmp sensorId (VInt p)
     = Ok (od_set tmp sensorId
             (<["current" := VFloat (signed_current d)]> a0))) /\
  (forall (sensorList : sensors) (element : fields) (tmp tmp' : sensors)
          (sensorId : pyval) (p a b c d e f : Z) (a0 : attrs),
     element !! p = Some (VPair a b) ->
     element !! (p + 1) = Some (VPair c d) ->
     element !! (p + 2) = Some (VPair e f) ->
     0 <= a < 65536 -> 0 <= b < 65536 -> 0 <= d < 65536 -> 0 <= f < 65536 ->
     od_get tmp sensorId = Ok a0 ->
     readBatt sensorList element tmp sensorId (VInt p) = Ok tmp' ->
     exists a',
       od_get tmp' sensorId = Ok a' /\
       a' !! "current"%string = Some (VFloat (signed_current d))) /\
  signed_current 30000 = nearest_ratio 35535 100 /\
  signed_current 1000 = Z2f (-10).
Proof.
  split; [| split; [| split]].
  - intros element tmp sid p c d a0 He Hd Hget.
    exact (readCurrent_eq _ _ _ _ c _ _ He Hd Hget).
  - intros sl el tmp tmp' sid p a b c d e f a0 H0 H1 H2 Ha Hb Hd Hf Hget Hrun.
    destruct (readBatt_ok _ _ _ _ _ _ _ _ _ _ _ _ _
                H0 H1 H2 Ha Hb Hd Hf Hget Hrun)
      as (a' & Hget' & _ & _ & Hcur).
    now exists a'.
  - vm_compute. reflexivity.
  - vm_compute. reflexivity.
Qed.

Lemma current_sign_convention_witness :
  readCurrent (<[0 := VPair 0 30000]> ∅) [(VInt 3, ∅)] (VInt 3) (VInt 0)
  = Ok [(VInt 3, <["current" := VFloat (nearest_ratio 35535 100)]> ∅)] /\
  exists a',
    od_get [(VInt 7, battery_reading (Z2f (-10)) 604800)] (VInt 7) = Ok a' /\
    a' !! "current"%string = Some (VFloat (signed_current 1000)).
Proof.
  destruct current_sign_convention as (Hcur & Hbatt & _).
  split.
  - apply (Hcur (<[0 := VPair 0 30000]> ∅) [(VInt 3, ∅)] (VInt 3) 0 0 30000 ∅);
      try reflexivity; lia.
  - apply (Hbatt battery_registry battery_element battery_registry
             [(VInt 7, battery_reading (Z2f (-10)) 604800)] (VInt 7)
             0 8000 7 0 1000 0 12500 battery_attrs
             eq_refl eq_refl eq_refl);
      try lia; [reflexivity | exact battery_reading_discharging].
Defined.

(** C7.  The battery reader stores capacity.timeRemaining =
    round(nominalCapacity/12/(current * stateOfCharge + 0.001)), with
    current and stateOfCharge as stored in the same reading and a
    negative estimate replaced by 604800; when the first raw element is
    65535 it stores nothing under that key. *)
Theorem battery_time_remaining (sensorList : sensors) (element : fields)
    (tmp : sensors) (sensorId : pyval) (p a b c d e f N : Z)
    (a0 registered : attrs) :
  element !! p = Some (VPair a b) ->
  element !! (p + 1) = Some (VPair c d) ->
  element !! (p + 2) = Some (VPair e f) ->
  0 <= a < 65536 -> 0 <= b < 65536 -> 0 <= d < 65536 -> 0 <= f < 65536 ->
  od_get tmp sensorId = Ok a0 ->
  od_get sensorList sensorId = Ok registered ->
  registered !! "capacity.nominal"%string = Some (VInt N) ->
  let stateOfCharge := py_round2 (ratio a 16000) in
  let current := signed_current d in
  exists a4 : attrs,
    a4 !! "stateOfCharge"%string = Some (VFloat stateOfCharge) /\
    a4 !! "current"%string = Some (VFloat current) /\
    a4 !! "capacity.timeRemaining"%string
    = a0 !! "capacity.timeRemaining"%string /\
    readBatt sensorList element tmp sensorId (VInt p)
    = if decide (a = 65535) then Ok (od_set tmp sensorId a4)
      else
        t ← time_remaining N current stateOfCharge;
        Ok (od_set tmp sensorId (<["capacity.timeRemaining" := VInt t]> a4)).
Proof.
  intros H0 H1 H2 Ha Hb Hd Hf Hget Hreg Hnom soc cur.
  eexists. split; [| split; [| split]]; cycle 3.
  - rewrite (readBatt_eq _ _ _ _ _ _ _ _ _ _ _ _ H0 H1 H2 Ha Hb Hd Hf Hget).
    cbv zeta. rewrite Hreg. cbn [mbind result_bind]. unfold getitem.
    rewrite Hnom. cbn [mbind result_bind as_int]. reflexivity.
  - now simplify_map_eq.
  - now simplify_map_eq.
  - now simplify_map_eq.
Qed.

Lemma battery_time_remaining_witness :
  time_remaining 43200 (signed_current 64535) (py_round2 (ratio 8000 16000))
  = Ok 720 /\
  time_remaining 43200 (signed_current 1000) (py_round2 (ratio 8000 16000))
  = Ok 604800 /\
  exists a4 : attrs,
    a4 !! "stateOfCharge"%string
    = Some (VFloat (py_round2 (ratio 8000 16000))) /\
    a4 !! "current"%string = Some (VFloat (signed_current 64535)) /\
    a4 !! "capacity.timeRemaining"%string = None /\
    readBatt battery_registry charging_element battery_registry (VInt 7)
      (VInt 0)
    = if decide (8000 = 65535) then Ok (od_set battery_registry (VInt 7) a4)
      else
        t ← time_remaining 43200 (signed_current 64535)
               (py_round2 (ratio 8000 16000));
        Ok (od_set battery_registry (VInt 7)
              (<["capacity.timeRemaining" := VInt t]> a4)).
Proof.
  split; [vm_compute; reflexivity |].
  split; [vm_compute; reflexivity |].
  apply (battery_time_remaining battery_registry charging_element
           battery_registry (VInt 7) 0 8000 7 0 64535 0 12500 43200
           battery_attrs battery_attrs);
    try reflexivity; lia.
Defined.

(** ** Two-decimal rounding and the temperature conversion *)

(** The nearest integer is the only one within half a unit. *)
Lemma div_half_even_unique (a b n : Z) :
  0 < b -> 2 * Z.abs (a - n * b) < b -> div_half_even a b = n.
Proof.
  intros Hb Hn. unfold div_half_even.
  pose proof (Z.div_mod a b ltac:(lia)) as Hdm.
  pose proof (Z.mod_pos_bound a b Hb) as Hr.
  assert (Hq : a / b = n \/ a / b = n - 1) by nia.
  destruct (Z.compare_spec (2 * (a mod b)) b) as [He|Hl|Hg];
    destruct Hq as [Hq|Hq]; rewrite ?Hq in *; nia.
Qed.

Lemma div_half_even_upper (a b : Z) :
  0 <= a -> 0 < b -> 0 <= div_half_even a b <= a / b + 1.
Proof.
  intros Ha Hb. unfold div_half_even.
  assert (0 <= a / b) by (apply Z.div_pos; lia).
  destruct (_ ?= _); [destruct (Z.even _) | |]; lia.
Qed.

(** Rounding a quotient by 100 whose remainder is [r]. *)
Lemma round_quotient (q r : Z) :
  0 <= r < 100 ->
  let m := round_nearest_even q (new_location 100 r) in
  q <= m <= q + 1 /\ Z.abs (100 * m - (100 * q + r)) <= 50.
Proof.
  intros Hr. unfold new_location. change (Z.even 100) with true. cbv iota.
  unfold new_location_even.
  destruct (Z.eqb_spec r 0) as [->|Hne]; cbn [round_nearest_even]; [lia |].
  destruct (Z.compare_spec (2 * r) 100) as [He|Hl|Hg];
    cbn [round_nearest_even]; try lia.
  destruct (Z.even q); lia.
Qed.

(** The same after the quotient lost its last bit. *)
Lemma round_shifted_quotient (q : positive) (r : Z) :
  0 <= r < 100 ->
  let mrs := shr_1 (shr_record_of_loc (Zpos q) (new_location 100 r)) in
  let m := round_nearest_even (shr_m mrs) (loc_of_shr_record mrs) in
  2 * m <= Zpos q + 1 /\ Zpos q - 1 <= 2 * m /\
  Z.abs (200 * m - (100 * Zpos q + r)) <= 100.
Proof.
  intros Hr. unfold new_location. change (Z.even 100) with true. cbv iota.
  unfold new_location_even.
  destruct (Z.eqb_spec r 0) as [->|Hne];
    [| destruct (Z.compare_spec (2 * r) 100) as [He|Hl|Hg]];
    destruct q as [q|q|];
    cbn [shr_record_of_loc shr_1 orb shr_m loc_of_shr_record
         round_nearest_even];
    try lia;
    try (destruct (Z.even (Zpos q)); lia).
  cbn. lia.
Qed.

Lemma shr_record_loc (m : Z) (l : location) :
  loc_of_shr_record (shr_record_of_loc m l) = l /\
  shr_m (shr_record_of_loc m l) = m.
Proof. destruct l as [|[| |]]; split; reflexivity. Qed.

(** The last step of [binary_round_aux] on a mantissa of 53 bits, or on
    2^53. *)
Lemma round_aux_finish (s : bool) (m1 e1 : Z) :
  2 ^ 52 <= m1 <= 2 ^ 53 -> -1000 <= e1 <= 900 ->
  exists (m : positive) (k : Z),
    (let '(mrs, e) := shr_fexp prec emax m1 e1 loc_Exact in
     match shr_m mrs with
     | Z0 => S754_zero s
     | Zpos m => if e <=? emax - prec then S754_finite s m e
                 else S754_infinity s
     | Zneg _ => S754_nan
     end) = S754_finite s m (e1 + k) /\
    0 <= k <= 1 /\ Zpos m * 2 ^ k = m1.
Proof.
  intros Hm He. destruct m1 as [|p|p]; try lia.
  unfold shr_fexp. cbn [Zdigits2 shr_record_of_loc].
  destruct (Z.eq_dec (Zpos p) (2 ^ 53)) as [E|Hne].
  - change (2 ^ 53) with 9007199254740992 in E. injection E as ->.
    change (Zpos (digits2_pos 9007199254740992)) with 54.
    replace (fexp prec emax (54 + e1) - e1) with 1
      by (unfold fexp, emin, prec, emax; lia).
    cbn [shr SpecFloat.iter_pos shr_1 shr_m orb].
    exists 4503599627370496%positive, 1.
    replace (e1 + 1 <=? emax - prec) with true
      by (symmetry; apply Z.leb_le; unfold emax, prec; lia).
    repeat split; try lia; reflexivity.
  - rewrite (digits2_unique p 53) by lia.
    replace (fexp prec emax (53 + e1) - e1) with 0
      by (unfold fexp, emin, prec, emax; lia).
    cbn [shr shr_m]. exists p, 0.
    replace (e1 <=? emax - prec) with true
      by (symmetry; apply Z.leb_le; unfold emax, prec; lia).
    rewrite Z.add_0_r. change (2 ^ 0) with 1. repeat split; lia.
Qed.


Lemma pow2_52 : 2 ^ 52 = 4503599627370496.
Proof. reflexivity. Qed.
Lemma pow2_54 : 2 ^ 54 = 18014398509481984.
Proof. reflexivity. Qed.

(** A quotient by 100 of 53 or 54 bits, rounded by [binary_round_aux]:
    the result is within half a unit of its last place. *)
Lemma round_div100 (s : bool) (M e' : Z) :
  2 ^ 52 * 100 <= M < 2 ^ 54 * 100 -> -1000 <= e' <= 800 ->
  exists (m : positive) (k : Z),
    (let '(q, r) := Z.div_eucl M 100 in
     binary_round_aux prec emax s q e' (new_location 100 r))
    = S754_finite s m (e' + k) /\
    0 <= k <= 2 /\
    Z.abs (100 * Zpos m * 2 ^ k - M) <= 50 * 2 ^ k.
Proof.
  intros HM He. rewrite pow2_52, pow2_54 in HM.
  pose proof (Z_div_mod M 100 ltac:(lia)) as Hdm.
  destruct (Z.div_eucl M 100) as [q r]. destruct Hdm as [HMq Hr].
  assert (Hq : 4503599627370496 <= q < 18014398509481984) by lia.
  destruct q as [|qp|qp]; try lia.
  unfold binary_round_aux.
  destruct (Z_lt_le_dec (Zpos qp) (2 ^ 53)) as [Hlt|Hge];
    rewrite pow2_53 in *.
  - assert (Hs : shr_fexp prec emax (Zpos qp) e' (new_location 100 r)
                 = (shr_record_of_loc (Zpos qp) (new_location 100 r), e')).
    { unfold shr_fexp. cbn [Zdigits2].
      rewrite (digits2_unique qp 53)
        by (change (2 ^ (53 - 1)) with 4503599627370496;
            change (2 ^ 53) with 9007199254740992; lia).
      replace (fexp prec emax (53 + e') - e') with 0
        by (unfold fexp, emin, prec, emax; lia).
      reflexivity. }
    rewrite Hs.
    destruct (shr_record_loc (Zpos qp) (new_location 100 r)) as [-> ->].
    pose proof (round_quotient (Zpos qp) r Hr) as [Hm1 Herr].
    cbv zeta in Hm1, Herr.
    set (m1 := round_nearest_even (Zpos qp) (new_location 100 r)) in *.
    destruct (round_aux_finish s m1 e' ltac:(rewrite pow2_52, pow2_53; lia)
                ltac:(lia)) as (m & k & Hfin & Hk & Hval).
    exists m, k. split; [exact Hfin |]. split; [lia |].
    assert (k = 0 \/ k = 1) as [-> | ->] by lia.
    + change (2 ^ 0) with 1 in *. lia.
    + change (2 ^ 1) with 2 in *. lia.
  - assert (Hs : shr_fexp prec emax (Zpos qp) e' (new_location 100 r)
                 = (shr_1 (shr_record_of_loc (Zpos qp) (new_location 100 r)),
                    e' + 1)).
    { unfold shr_fexp. cbn [Zdigits2].
      rewrite (digits2_unique qp 54)
        by (change (2 ^ (54 - 1)) with 9007199254740992;
            change (2 ^ 54) with 18014398509481984; lia).
      replace (fexp prec emax (54 + e') - e') with 1
        by (unfold fexp, emin, prec, emax; lia).
      reflexivity. }
    rewrite Hs.
    pose proof (round_shifted_quotient qp r Hr) as (Hup & Hlow & Herr).
    cbv zeta in Hup, Hlow, Herr.
    set (mrs := shr_1 (shr_record_of_loc (Zpos qp) (new_location 100 r))) in *.
    set (m1 := round_nearest_even (shr_m mrs) (loc_of_shr_record mrs)) in *.
    destruct (round_aux_finish s m1 (e' + 1)
                ltac:(rewrite pow2_52, pow2_53; lia) ltac:(lia))
      as (m & k & Hfin & Hk & Hval).
    exists m, (1 + k). split; [| split; [lia |]].
    + rewrite Hfin. f_equal. lia.
    + assert (k = 0 \/ k = 1) as [-> | ->] by lia.
      * change (2 ^ (1 + 0)) with 2. change (2 ^ 0) with 1 in *. lia.
      * change (2 ^ (1 + 1)) with 4. change (2 ^ 1) with 2 in *. lia.
Qed.

(** The double nearest to [p/100] reads back as [p] hundredths. *)
Lemma decimal_roundtrip (s : bool) (p : positive) :
  Zpos p < 2 ^ 30 ->
  exists (m : positive) (e : Z),
    fdiv (S754_finite s p 0) (S754_finite false 100 0) = S754_finite s m e /\
    scaled_nearest 2 m e = Zpos p.
Proof.
  intros Hp. pose proof (digits2_bounds p) as [Hlo Hhi].
  set (d := Zpos (digits2_pos p)) in *.
  assert (Hd : 1 <= d <= 30).
  { split; [unfold d; lia |].
    destruct (Z.le_gt_cases d 30); [assumption |].
    assert (2 ^ 30 <= 2 ^ (d - 1)) by (apply Z.pow_le_mono_r; lia). lia. }
  unfold fdiv, SFdiv, SFdiv_core_binary.
  replace (xorb s false) with s by (destruct s; reflexivity).
  cbn [Zdigits2]. fold d. change (Zpos (digits2_pos 100)) with 7.
  replace (Z.min (fexp prec emax (d + 0 - (7 + 0))) (0 - 0)) with (d - 60)
    by (unfold fexp, emin, prec, emax; lia).
  replace (0 - 0 - (d - 60)) with (60 - d) by lia.
  destruct (60 - d) as [|t|t] eqn:Et; try lia.
  rewrite Z.shiftl_mul_pow2 by lia. rewrite <- Et.
  set (M := Zpos p * 2 ^ (60 - d)).
  assert (Hpow : 2 ^ (d - 1) * 2 ^ (60 - d) = 2 ^ 59 /\
                 2 ^ d * 2 ^ (60 - d) = 2 ^ 60).
  { rewrite <- !Z.pow_add_r by lia. split; f_equal; lia. }
  destruct Hpow as [Hp59 Hp60].
  assert (Hpos : 0 < 2 ^ (60 - d)) by (apply Z.pow_pos_nonneg; lia).
  assert (HM : 2 ^ 59 <= M < 2 ^ 60) by (unfold M; nia).
  change (2 ^ 59) with 576460752303423488 in HM.
  change (2 ^ 60) with 1152921504606846976 in HM.
  destruct (round_div100 s M (d - 60)
              ltac:(rewrite pow2_52, pow2_54; lia) ltac:(lia))
    as (m & k & Hres & Hk & Herr).
  exists m, (d - 60 + k). split.
  { change (IntDef.Z.div_eucl M 100) with (Z.div_eucl M 100).
    destruct (Z.div_eucl M 100) as [q r]. exact Hres. }
  unfold scaled_nearest. change (10 ^ Z.of_nat 2) with 100.
  replace (0 <=? d - 60 + k) with false
    by (symmetry; apply Z.leb_gt; lia).
  apply div_half_even_unique; [apply Z.pow_pos_nonneg; lia |].
  assert (Hsplit : 2 ^ (60 - d) = 2 ^ (- (d - 60 + k)) * 2 ^ k).
  { rewrite <- Z.pow_add_r by lia. f_equal. lia. }
  assert (Hbig : 2 ^ 7 <= 2 ^ (- (d - 60 + k)))
    by (apply Z.pow_le_mono_r; lia).
  change (2 ^ 7) with 128 in Hbig.
  unfold M in Herr. rewrite Hsplit in Herr.
  set (T := 2 ^ (- (d - 60 + k))) in *.
  assert (k = 0 \/ k = 1 \/ k = 2) as [-> | [-> | ->]] by lia.
  - change (2 ^ 0) with 1 in Herr. lia.
  - change (2 ^ 1) with 2 in Herr. lia.
  - change (2 ^ 2) with 4 in Herr. lia.
Qed.

Lemma quantize2_idempotent (x : spec_float) :
  small x -> quantize2 (quantize2 x) = quantize2 x.
Proof.
  intros Hx. destruct x as [s|s| |s m e]; try reflexivity.
  destruct Hx as [Hm He]. cbn [quantize2].
  destruct (scaled_nearest 2 m e) as [|p|p] eqn:En; try reflexivity.
  assert (Hp : Zpos p < 2 ^ 30).
  { rewrite <- En. unfold scaled_nearest. change (10 ^ Z.of_nat 2) with 100.
    replace (0 <=? e) with false by (symmetry; apply Z.leb_gt; lia).
    assert (Hpos : 0 < 2 ^ (- e)) by (apply Z.pow_pos_nonneg; lia).
    pose proof (div_half_even_upper (Zpos m * 100) (2 ^ (- e))
                  ltac:(lia) Hpos) as [_ Hup].
    assert (Hbig : 2 ^ 32 <= 2 ^ (- e)) by (apply Z.pow_le_mono_r; lia).
    assert (Zpos m * 100 / 2 ^ (- e) < 2 ^ 29).
    { apply Z.div_lt_upper_bound; [assumption |].
      rewrite pow2_53 in Hm.
      change (2 ^ 32) with 4294967296 in Hbig.
      change (2 ^ 29) with 536870912. nia. }
    change (2 ^ 30) with 1073741824. change (2 ^ 29) with 536870912 in *.
    lia. }
  destruct (decimal_roundtrip s p Hp) as (m' & e' & Hdiv & Hback).
  rewrite Hdiv. cbn [quantize2]. rewrite Hback. exact Hdiv.
Qed.

Lemma kelvin_sum_prim (z : Z) :
  Z.abs z < 2 ^ 62 ->
  fadd (ratio z 10) (nearest_ratio 27315 100)
  = FloatOps.Prim2SF (kelvin_prim z).
Proof.
  intros Hz. unfold kelvin_prim.
  rewrite FloatAxioms.add_spec, <- ratio_prim by (rewrite ?pow2_62; lia).
  reflexivity.
Qed.

Lemma small_of_bound (x : PrimFloat.float) :
  PrimFloat.ltb (PrimFloat.abs x) (prim_of_Z 1048576) = true ->
  small (FloatOps.Prim2SF x).
Proof.
  intros Hlt. rewrite FloatAxioms.ltb_spec, FloatAxioms.abs_spec in Hlt.
  pose proof (FloatAxioms.Prim2SF_valid x) as Hv.
  change (FloatOps.Prim2SF (prim_of_Z 1048576))
    with (S754_finite false 4503599627370496 (-32)) in Hlt.
  destruct (FloatOps.Prim2SF x) as [s|s| |s m e]; cbn [small]; try exact I.
  split.
  - cbn [valid_binary] in Hv. unfold bounded in Hv.
    apply andb_true_iff in Hv as [Hcan _].
    unfold canonical_mantissa in Hcan. apply Z.eqb_eq in Hcan.
    pose proof (digits2_bounds m) as [_ Hhi].
    assert (Hd : Zpos (digits2_pos m) <= 53)
      by (revert Hcan; unfold fexp, emin, FloatOps.prec, FloatOps.emax; lia).
    assert (2 ^ Zpos (digits2_pos m) <= 2 ^ 53)
      by (apply Z.pow_le_mono_r; lia).
    lia.
  - unfold SFltb, SFcompare, SFabs in Hlt.
    destruct (Z.compare_spec e (-32)) as [He|He|He]; [lia | lia |].
    exfalso. revert Hlt. clear. discriminate.
Qed.

Lemma kelvin_bounded (raw : Z) :
  0 <= raw < 65536 ->
  PrimFloat.ltb (PrimFloat.abs (kelvin_prim (signed16 raw))) (prim_of_Z 1048576)
  = true.
Proof.
  intros Hraw.
  assert (H : all_from 65536 0
                (fun raw => PrimFloat.ltb
                              (PrimFloat.abs (kelvin_prim (signed16 raw)))
                              (prim_of_Z 1048576))
              = true) by (vm_compute; reflexivity).
  assert (E : Z.of_nat 65536 = 65536) by (vm_compute; reflexivity).
  apply (all_from_spec _ _ _ H). rewrite E. lia.
Qed.

(** C5.  For every raw 16-bit value [toTemperature] reads it as signed
    (65536 is subtracted when it exceeds 32768) and returns
    round(raw/10 + 273.15, 2); formatting that value with two decimals
    and reading it back changes nothing.  Raw 0 gives 273.15 and raw
    65535 gives 273.05. *)
Theorem temperature_conversion :
  (forall raw, 0 <= raw < 65536 ->
               toTemperature (VInt raw) = Ok (VFloat (kelvin raw))) /\
  kelvin 0 = nearest_ratio 27315 100 /\
  kelvin 65535 = nearest_ratio 27305 100.
Proof.
  split; [| split; vm_compute; reflexivity].
  intros raw Hraw. unfold toTemperature. cbn [as_int mbind result_bind].
  fold (signed16 raw).
  assert (Hs : Z.abs (signed16 raw) < 65536)
    by (unfold signed16; destruct (32768 <? raw) eqn:E;
        [apply Z.ltb_lt in E | apply Z.ltb_ge in E]; lia).
  rewrite div_by_lit_ratio by (rewrite pow2_53; lia).
  cbn [mbind result_bind]. unfold kelvin, py_round2.
  rewrite quantize2_idempotent; [reflexivity |].
  rewrite kelvin_sum_prim by (rewrite pow2_62; lia).
  apply small_of_bound, kelvin_bounded, Hraw.
Qed.

Lemma temperature_conversion_witness :
  toTemperature (VInt 50) = Ok (VFloat (kelvin 50)) /\
  kelvin 50 = nearest_ratio 27815 100.
Proof.
  destruct temperature_conversion as [H _].
  split; [apply H; lia | vm_compute; reflexivity].
Defined.

(** * Further properties of the code *)

(** ** The decoder at the edges *)

Lemma parseLoop_done (steps : nat) (response : bytes) (dict : fields) :
  (length response <= 6)%nat -> parseLoop steps response dict = Some (Ok dict).
Proof.
  intros H. assert (Hit : (6 <? length response)%nat = false)
    by (apply Nat.ltb_ge; lia).
  destruct steps; cbn [parseLoop]; rewrite Hit; reflexivity.
Qed.

(** X1.  A frame of 20 bytes or fewer, the 14 header bytes and at most six
    more, decodes to the empty mapping: nothing is read and nothing
    raises, whatever the bytes are. *)
Theorem parseResponse_short (response : bytes) :
  (length response <= 20)%nat -> parseResponse response = Ok ∅.
Proof.
  intros H. unfold parseResponse.
  rewrite parseLoop_done; [reflexivity |].
  rewrite slice_from_length by lia. lia.
Qed.

Lemma parseResponse_short_witness :
  parseResponse (repeat xff 20) = Ok ∅.
Proof. apply parseResponse_short. rewrite repeat_length. lia. Defined.

Lemma int_from_bytes_snoc (l : bytes) (b : byte) :
  int_from_bytes (l ++ [b]) = int_from_bytes l * 256 + byte_val b.
Proof. unfold int_from_bytes. now rewrite fold_left_app. Qed.

Lemma int_from_bytes_bound (l : bytes) :
  0 <= int_from_bytes l < 256 ^ Z.of_nat (length l).
Proof.
  induction l as [|b l IH] using rev_ind.
  - cbn. lia.
  - rewrite int_from_bytes_snoc, length_app. cbn [length].
    replace (Z.of_nat (length l + 1)) with (Z.succ (Z.of_nat (length l))) by lia.
    rewrite Z.pow_succ_r by lia.
    pose proof (byte_val_range b). nia.
Qed.

Lemma slice_length_le {A} (l : list A) (lo hi : Z) :
  0 <= lo -> 0 <= hi -> (length (slice l lo hi) <= Z.to_nat hi - Z.to_nat lo)%nat.
Proof.
  intros Hlo Hhi. rewrite slice_firstn_skipn by assumption.
  rewrite length_firstn. lia.
Qed.

Lemma pair_value (data : bytes) :
  field_value (VPair (int_from_bytes (slice data 0 2))
                     (int_from_bytes (slice data 2 4))).
Proof.
  cbn [field_value].
  pose proof (int_from_bytes_bound (slice data 0 2)) as Ha.
  pose proof (int_from_bytes_bound (slice data 2 4)) as Hb.
  pose proof (slice_length_le data 0 2 ltac:(lia) ltac:(lia)) as La.
  pose proof (slice_length_le data 2 4 ltac:(lia) ltac:(lia)) as Lb.
  assert (Hpow : forall n, (n <= 2)%nat -> 256 ^ Z.of_nat n <= 65536).
  { intros n Hn. change 65536 with (256 ^ 2).
    apply Z.pow_le_mono_r; lia. }
  specialize (Hpow _ La) as Ha'. specialize (Hpow _ Lb) as Hb'.
  lia.
Qed.

(** [bytes.decode()] has one way to fail. *)
Lemma decode_raises (l : bytes) (e : exn) :
  decode l = Raise e -> e = UnicodeDecodeError.
Proof.
  unfold decode. revert e.
  induction l as [l IH] using (induction_ltof1 _ (@length byte)).
  unfold ltof in IH. intros e.
  destruct l as [|c0 t0]; [discriminate |].
  cbn [utf8_decode].
  repeat match goal with
  | |- context [utf8_decode ?t] =>
    let Ht := fresh "Ht" in
    destruct (utf8_decode t) as [?|?] eqn:Ht;
    [| apply IH in Ht; [subst | cbn [length]; lia]]
  | |- context [match ?x with _ => _ end] => destruct x
  end; cbn [mbind result_bind]; congruence.
Qed.

(** What one call of [getNextField] on two bytes or more can do. *)
Lemma getNextField_cases (response : bytes) :
  (2 <= length response)%nat ->
  getNextField response = Ok None \/
  getNextField response = Raise UnicodeDecodeError \/
  exists nr v rest, getNextField response = Ok (Some (nr, v, rest)) /\
                    0 <= nr < 256 /\ field_value v.
Proof.
  intros Hlen. unfold getNextField.
  destruct (index_Some response 0) as (b0 & -> & _); [lia |].
  destruct (index_Some response 1) as (b1 & -> & _); [lia |].
  cbn [mbind result_bind].
  pose proof (byte_val_range b0) as Hb0.
  destruct (byte_val b1 =? 1).
  { right; right. do 3 eexists. split; [reflexivity |].
    split; [assumption | apply pair_value]. }
  destruct (byte_val b1 =? 3).
  { right; right. destruct (decide _).
    - do 3 eexists. split; [reflexivity |]. split; [assumption | exact I].
    - do 3 eexists. split; [reflexivity |].
      split; [assumption | apply pair_value]. }
  destruct (byte_val b1 =? 4); [| now left].
  destruct (decode _) as [word|e] eqn:E; cbn [mbind result_bind].
  - right; right. do 3 eexists. split; [reflexivity |].
    split; [assumption | exact I].
  - right; left. f_equal. exact (decode_raises _ _ E).
Qed.

(** A property of the dictionary that every stored field keeps holds
    when the loop ends. *)
Lemma parseLoop_invariant (P : bytes -> fields -> Prop) :
  (forall r d nr v rest,
     (6 < length r)%nat -> P r d -> 0 <= nr < 256 -> field_value v ->
     getNextField r = Ok (Some (nr, v, rest)) -> P rest (<[nr := v]> d)) ->
  forall steps r d d',
    P r d -> parseLoop steps r d = Some (Ok d') ->
    exists r', (length r' <= 6)%nat /\ P r' d'.
Proof.
  intros Hstep. induction steps as [|steps IH]; intros r d d' HP.
  - cbn [parseLoop]. destruct (Nat.ltb_spec 6 (length r)); [discriminate |].
    intros [= <-]. eauto.
  - cbn [parseLoop]. destruct (Nat.ltb_spec 6 (length r)) as [Hlen|Hlen].
    + destruct (getNextField_cases r ltac:(lia))
        as [E|[E|(nr & v & rest & E & Hnr & Hv)]]; rewrite E; try discriminate.
      apply IH. now apply (Hstep r d nr v rest).
    + intros [= <-]. eauto.
Qed.

Lemma parseLoop_raises (steps : nat) :
  forall r d e, parseLoop steps r d = Some (Raise e) ->
                e = TypeError \/ e = UnicodeDecodeError.
Proof.
  induction steps as [|steps IH]; intros r d e; cbn [parseLoop].
  - destruct (6 <? length r)%nat; discriminate.
  - destruct (Nat.ltb_spec 6 (length r)) as [Hlen|Hlen]; [| discriminate].
    destruct (getNextField_cases r ltac:(lia))
      as [E|[E|(nr & v & rest & E & _)]]; rewrite E.
    + intros [= <-]. now left.
    + intros [= <-]. now right.
    + apply IH.
Qed.

Lemma parseResponse_loop (response : bytes) :
  parseLoop (length (slice_from response 14)) (slice_from response 14) ∅
  = Some (parseResponse response).
Proof.
  unfold parseResponse.
  destruct (parseLoop_enough _ (slice_from response 14) ∅ (Nat.le_refl _))
    as (r & -> & _).
  reflexivity.
Qed.

(** X2.  Every key of the decoded mapping is a byte value and every value is
    a pair of 16-bit integers or a text, also when the frame ends in the
    middle of a field. *)
Theorem parseResponse_values (response : bytes) (d : fields) (k : Z)
    (v : pyval) :
  parseResponse response = Ok d -> d !! k = Some v ->
  0 <= k < 256 /\ field_value v.
Proof.
  intros Hd. pose proof (parseResponse_loop response) as Hloop.
  rewrite Hd in Hloop.
  apply (parseLoop_invariant
           (fun _ d => forall k v, d !! k = Some v ->
                                   0 <= k < 256 /\ field_value v))
    in Hloop.
  - destruct Hloop as (_ & _ & H). apply H.
  - intros r d0 nr v0 rest _ IH Hnr Hv _ k0 v1.
    destruct (decide (nr = k0)) as [->|Hne].
    + rewrite lookup_insert_eq. intros [= <-]. now split.
    + rewrite lookup_insert_ne by assumption. apply IH.
  - intros k0 v0. rewrite lookup_empty. discriminate.
Qed.

Lemma parseResponse_values_witness :
  parseResponse sample_frame = Ok sample_fields /\
  sample_fields !! 9 = Some (VPair 1 2) /\
  0 <= 9 < 256 /\ field_value (VPair 1 2).
Proof.
  assert (H : parseResponse sample_frame = Ok sample_fields)
    by (vm_compute; reflexivity).
  split; [exact H |]. split; [reflexivity |].
  exact (parseResponse_values sample_frame sample_fields 9 (VPair 1 2) H
           eq_refl).
Defined.

(** X3.  The only exceptions that leave [parseResponse]: [TypeError] for an
    unknown field type and [UnicodeDecodeError] for a text that is not
    UTF-8.  No slice or subscript of the decoder raises [IndexError]. *)
Theorem parseResponse_exceptions (response : bytes) (e : exn) :
  parseResponse response = Raise e ->
  e = TypeError \/ e = UnicodeDecodeError.
Proof.
  intros He. pose proof (parseResponse_loop response) as Hloop.
  rewrite He in Hloop. exact (parseLoop_raises _ _ _ _ Hloop).
Qed.

Lemma parseResponse_exceptions_witness :
  parseResponse bad_frame = Raise TypeError /\
  (TypeError = TypeError \/ TypeError = UnicodeDecodeError).
Proof.
  assert (H : parseResponse bad_frame = Raise TypeError)
    by (vm_compute; reflexivity).
  split; [exact H | exact (parseResponse_exceptions bad_frame TypeError H)].
Defined.

(** ** Edge cases of one field *)

Lemma index_short {A} (l : list A) (i : nat) :
  (length l <= i)%nat -> index l i = Raise IndexError.
Proof.
  intros H. unfold index. now rewrite (proj2 (nth_error_None l i) H).
Qed.

Lemma find_none (l : bytes) (i : Z) :
  terminator_free l -> find_at [x00; xff] l i = -1.
Proof.
  revert i. induction l as [|b l IH]; intros i Hfree.
  - reflexivity.
  - assert (Hnot : starts_with [x00; xff] (b :: l) = false).
    { cbn [starts_with]. destruct (decide (x00 = b)) as [<-|]; [| reflexivity].
      destruct l as [|c l]; [reflexivity |]. cbn [starts_with].
      destruct (decide (xff = c)) as [<-|]; [| reflexivity].
      exfalso. apply (Hfree [] l). reflexivity. }
    cbn [find_at]. rewrite Hnot. apply IH.
    now apply terminator_free_tail in Hfree.
Qed.

Lemma slice_to_last {A} (l : list A) : slice_to l (-1) = removelast l.
Proof.
  unfold slice_to, slice_bound. cbn [Z.ltb Z.compare].
  rewrite removelast_firstn_len. f_equal. lia.
Qed.

(** X5.  A wide field cut off before its payload is complete does not fail
    either: the pair is read from the payload bytes that are there, an
    absent half counting as 0. *)
Theorem getNextField_wide_truncated (nr : byte) (pad payload : bytes) :
  length pad = 5%nat -> (length payload <= 3)%nat ->
  getNextField (nr :: x03 :: pad ++ payload)
  = Ok (Some (byte_val nr,
              VPair (int_from_bytes (firstn 2 payload))
                    (int_from_bytes (skipn 2 payload)),
              [])).
Proof.
  intros Hpad Hlen.
  destruct pad as [|a1 [|a2 [|a3 [|a4 [|a5 [|]]]]]]; try discriminate.
  unfold getNextField. cbn [index nth_error mbind result_bind app].
  change (byte_val x03 =? 1) with false.
  change (byte_val x03 =? 3) with true. cbv iota.
  rewrite slice_from_skipn, !slice_firstn_skipn by lia.
  destruct payload as [|p0 [|p1 [|p2 [|]]]]; cbn in Hlen; try lia;
    (rewrite decide_False by discriminate); reflexivity.
Qed.

Lemma getNextField_wide_truncated_witness :
  getNextField (x09 :: x03 :: repeat x00 5 ++ [x01])
  = Ok (Some (9, VPair 1 0, [])).
Proof.
  apply (getNextField_wide_truncated x09 (repeat x00 5) [x01]).
  - reflexivity.
  - cbn. lia.
Defined.

Lemma decode_ascii (l : bytes) :
  Forall (fun b => byte_val b < 128) l -> decode l = Ok (map Byte.to_N l).
Proof.
  unfold decode. induction 1 as [|b l Hb _ IH]; [reflexivity |].
  cbn [utf8_decode map].
  assert (Hlt : (Byte.to_N b <? 128)%N = true).
  { apply N.ltb_lt. unfold byte_val in Hb. lia. }
  rewrite Hlt, IH. reflexivity.
Qed.

Lemma ascii_terminator_free (text : bytes) :
  Forall (fun b => 0 < byte_val b < 128) text ->
  terminator_free (text ++ [x00]).
Proof.
  induction 1 as [|b text Hb _ IH]; intros pre post E.
  - do 2 (destruct pre as [|? pre]; try discriminate E).
  - destruct pre as [|c pre].
    + cbn [app] in E. injection E as -> _. vm_compute in Hb. destruct Hb. discriminate.
    + cbn [app] in E. injection E as _ E. exact (IH pre post E).
Qed.

(** X4.  A text field whose terminator [00 FF] never comes is not an
    error in itself: [find] answers -1, so the text is everything but
    the last byte, decoded as for a terminated field, and reading goes
    on at the second byte of that same text.  The only exception the
    field can raise is [UnicodeDecodeError], for a text that is not
    UTF-8; an ASCII text gives exactly its characters. *)
Theorem getNextField_unterminated (nr : byte) (pad text : bytes) :
  length pad = 5%nat -> terminator_free text ->
  getNextField (nr :: x04 :: pad ++ text)
  = (word ← decode (removelast text);
     Ok (Some (byte_val nr, VStr word, tail text))) /\
  (forall e, getNextField (nr :: x04 :: pad ++ text) = Raise e ->
             e = UnicodeDecodeError) /\
  (Forall (fun b => byte_val b < 128) text ->
   getNextField (nr :: x04 :: pad ++ text)
   = Ok (Some (byte_val nr, VStr (map Byte.to_N (removelast text)),
               tail text))).
Proof.
  intros Hpad Hfree.
  assert (Heq : getNextField (nr :: x04 :: pad ++ text)
                = (word ← decode (removelast text);
                   Ok (Some (byte_val nr, VStr word, tail text)))).
  { destruct pad as [|a1 [|a2 [|a3 [|a4 [|a5 [|]]]]]]; try discriminate.
    unfold getNextField. cbn [index nth_error mbind result_bind app].
    change (byte_val x04 =? 1) with false.
    change (byte_val x04 =? 3) with false.
    change (byte_val x04 =? 4) with true. cbv iota.
    rewrite (slice_from_skipn (nr :: _)) by lia.
    change (skipn (Z.to_nat 7) (nr :: _)) with text.
    unfold find. rewrite find_none by assumption.
    rewrite slice_to_last. change (-1 + 2) with 1.
    rewrite slice_from_skipn by lia.
    change (skipn (Z.to_nat 1) text) with (tail text).
    reflexivity. }
  rewrite Heq. split; [reflexivity |]. split.
  - intros e. destruct (decode (removelast text)) as [word|e'] eqn:E;
      cbn [mbind result_bind]; [discriminate |].
    intros [= <-]. exact (decode_raises _ _ E).
  - intros Hascii. rewrite decode_ascii; [reflexivity |].
    rewrite removelast_firstn_len. now apply Forall_take.
Qed.

Lemma getNextField_unterminated_witness :
  getNextField (x03 :: x04 :: repeat x00 5 ++ [x50; x49; x43; x4f])
  = Ok (Some (3, VStr (str_lit "PIC"), [x49; x43; x4f])) /\
  getNextField (x03 :: x04 :: repeat x00 5 ++ [xc3; xa9])
  = Raise UnicodeDecodeError.
Proof.
  split.
  - rewrite (proj1 (getNextField_unterminated x03 (repeat x00 5)
                      [x50; x49; x43; x4f] eq_refl
                      ltac:(intros pre post E;
                            do 5 (destruct pre as [|? pre];
                                  try discriminate E)))).
    reflexivity.
  - rewrite (proj1 (getNextField_unterminated x03 (repeat x00 5)
                      [xc3; xa9] eq_refl
                      ltac:(intros pre post E;
                            do 3 (destruct pre as [|? pre];
                                  try discriminate E)))).
    reflexivity.
Defined.

(** X6.  A text field of ASCII characters other than NUL gives exactly those
    characters, and reading goes on after the terminator. *)
Theorem getNextField_ascii (nr : byte) (pad text rest : bytes) :
  length pad = 5%nat ->
  Forall (fun b => 0 < byte_val b < 128) text ->
  getNextField (nr :: x04 :: pad ++ text ++ x00 :: xff :: rest)
  = Ok (Some (byte_val nr, VStr (map Byte.to_N text), rest)).
Proof.
  intros Hpad Htext.
  destruct pad as [|a1 [|a2 [|a3 [|a4 [|a5 [|]]]]]]; try discriminate.
  apply getNextField_text.
  - now apply ascii_terminator_free.
  - apply decode_ascii. eapply Forall_impl; [exact Htext |].
    cbn. intros b Hb. lia.
Qed.

Lemma getNextField_ascii_witness :
  getNextField (x03 :: x04 :: repeat x00 5 ++ [x50; x49] ++ [x00; xff; x07])
  = Ok (Some (3, VStr (str_lit "PI"), [x07])).
Proof.
  apply (getNextField_ascii x03 (repeat x00 5) [x50; x49] [x07]).
  - reflexivity.
  - repeat constructor.
Defined.

Lemma in_range_below (lo hi : N) (b : byte) :
  in_range lo hi b = true -> (hi < 245)%N -> byte_val b < 245.
Proof.
  unfold in_range, byte_val. intros H Hhi.
  apply andb_true_iff in H as [_ H]. apply N.leb_le in H. lia.
Qed.

Lemma is_cont_below (b : byte) : is_cont b = true -> byte_val b < 245.
Proof. intros H. apply (in_range_below 128 191 b H). lia. Qed.

(** No byte from F5 to FF occurs in UTF-8. *)
Lemma utf8_decode_below (l : bytes) :
  forall s, utf8_decode l = Ok s -> Forall (fun b => byte_val b < 245) l.
Proof.
  induction l as [l IH] using (induction_ltof1 _ (@length byte)).
  unfold ltof in IH. intros s.
  destruct l as [|b0 t0]; [constructor |].
  cbn [utf8_decode].
  destruct (N.ltb_spec (Byte.to_N b0) 128) as [H0|H0].
  { destruct (utf8_decode t0) as [s0|] eqn:E0; [| discriminate]. intros _.
    constructor; [unfold byte_val; lia |].
    apply (IH t0 ltac:(cbn [length]; lia) s0 E0). }
  destruct (in_range 194 223 b0) eqn:R2.
  { destruct t0 as [|b1 t1]; [discriminate |].
    destruct (is_cont b1) eqn:C1; [| discriminate].
    destruct (utf8_decode t1) as [s1|] eqn:E1; [| discriminate]. intros _.
    repeat constructor;
      [apply (in_range_below _ _ _ R2); lia | now apply is_cont_below |].
    apply (IH t1 ltac:(cbn [length]; lia) s1 E1). }
  destruct (in_range 224 239 b0) eqn:R3.
  { destruct t0 as [|b1 [|b2 t2]]; try discriminate.
    match goal with |- (if ?c && _ then _ else _) = _ -> _ =>
      destruct c eqn:C1 end; [| discriminate].
    destruct (is_cont b2) eqn:C2; [| discriminate]. cbn [andb].
    destruct (utf8_decode t2) as [s2|] eqn:E2; [| discriminate]. intros _.
    repeat constructor;
      [apply (in_range_below _ _ _ R3); lia | | now apply is_cont_below |].
    - repeat destruct (decide _) in C1;
        first [now apply is_cont_below
              | apply (in_range_below _ _ _ C1); lia].
    - apply (IH t2 ltac:(cbn [length]; lia) s2 E2). }
  destruct (in_range 240 244 b0) eqn:R4; [| discriminate].
  destruct t0 as [|b1 [|b2 [|b3 t3]]]; try discriminate.
  match goal with |- (if ?c && _ && _ then _ else _) = _ -> _ =>
    destruct c eqn:C1 end; [| discriminate].
  destruct (is_cont b2) eqn:C2; [| discriminate].
  destruct (is_cont b3) eqn:C3; [| discriminate]. cbn [andb].
  destruct (utf8_decode t3) as [s3|] eqn:E3; [| discriminate]. intros _.
  repeat constructor;
    [apply (in_range_below _ _ _ R4); lia | | now apply is_cont_below
    | now apply is_cont_below |].
  - repeat destruct (decide _) in C1;
      first [now apply is_cont_below
            | apply (in_range_below _ _ _ C1); lia].
  - apply (IH t3 ltac:(cbn [length]; lia) s3 E3).
Qed.

(** X7.  A text with a byte from F5 to FF in it is not UTF-8: the field
    raises [UnicodeDecodeError]. *)
Theorem getNextField_not_utf8 (nr : byte) (pad text rest : bytes) :
  length pad = 5%nat ->
  terminator_free (text ++ [x00]) ->
  Exists (fun b => 245 <= byte_val b) text ->
  getNextField (nr :: x04 :: pad ++ text ++ x00 :: xff :: rest)
  = Raise UnicodeDecodeError.
Proof.
  intros Hpad Hfree Hex.
  destruct pad as [|a1 [|a2 [|a3 [|a4 [|a5 [|]]]]]]; try discriminate.
  unfold getNextField. cbn [index nth_error mbind result_bind app].
  change (byte_val x04 =? 1) with false.
  change (byte_val x04 =? 3) with false.
  change (byte_val x04 =? 4) with true. cbv iota.
  rewrite (slice_from_skipn (nr :: _)) by lia.
  change (skipn (Z.to_nat 7) (nr :: _)) with (text ++ x00 :: xff :: rest).
  unfold find. rewrite find_terminator by assumption.
  rewrite slice_to_firstn by lia.
  replace (Z.to_nat (0 + Z.of_nat (length text))) with (length text) by lia.
  rewrite take_app_length.
  destruct (decode text) as [word|e] eqn:E.
  - exfalso. apply utf8_decode_below in E.
    apply Exists_exists in Hex as (b & Hin & Hb).
    rewrite Forall_forall in E. specialize (E b Hin). lia.
  - cbn [mbind result_bind]. f_equal. exact (decode_raises _ _ E).
Qed.

Lemma getNextField_not_utf8_witness :
  getNextField (x03 :: x04 :: repeat x00 5 ++ [x50; xff] ++ x00 :: xff :: [])
  = Raise UnicodeDecodeError.
Proof.
  apply (getNextField_not_utf8 x03 (repeat x00 5) [x50; xff] []).
  - reflexivity.
  - intros pre post E.
    do 4 (destruct pre as [|? pre]; try discriminate E).
  - apply Exists_cons_tl, Exists_cons_hd. vm_compute. discriminate.
Defined.

(** ** More on the checksum *)

Lemma to_bytes2_crc (data : bytes) :
  let crc := crc_func data in
  to_bytes2 crc = Ok [byte_of_Z (crc / 256); byte_of_Z (crc mod 256)] /\
  0 <= crc < 65536.
Proof.
  intros crc.
  assert (Hcrc : 0 <= crc < 65536).
  { unfold crc, crc_func. rewrite mkCrcFun_crc16_ref.
    apply crc16_ref_range; lia. }
  split; [| assumption]. unfold to_bytes2.
  replace ((0 <=? crc) && (crc <? 65536)) with true; [reflexivity |].
  symmetry. apply andb_true_iff. split; [apply Z.leb_le | apply Z.ltb_lt]; lia.
Qed.

(** X8.  The parameter called [length] is the index where the covered range
    stops, not a number of bytes: with [offset <= length <= len(data)]
    the checksum is taken over the [length - offset] bytes from
    [offset] on, and the call does not raise. *)
Theorem add_crc_with_range (data : bytes) (offset stop : nat) :
  (offset <= stop <= length data)%nat ->
  let crc := crc_func (firstn (stop - offset) (skipn offset data)) in
  add_crc_with data (Z.of_nat offset) (Z.of_nat stop)
  = Ok (data ++ [byte_of_Z (crc / 256); byte_of_Z (crc mod 256)]).
Proof.
  intros Hrange crc. unfold add_crc_with.
  rewrite slice_firstn_skipn by lia. rewrite !Nat2Z.id.
  change (crcmod.mkCrcFun 0x11189 0 0 ?x) with (crc_func x). subst crc.
  destruct (to_bytes2_crc (firstn (stop - offset) (skipn offset data)))
    as [-> _].
  reflexivity.
Qed.

Lemma add_crc_with_range_witness :
  add_crc_with count_request 6 13
  = Ok (count_request
        ++ (let crc := crc_func [x02; x04; x8c; x55; x4b; x00; x03] in
            [byte_of_Z (crc / 256); byte_of_Z (crc mod 256)])).
Proof.
  apply (add_crc_with_range count_request 6 13). cbn. lia.
Defined.

Lemma crc16_ref_app (poly init : Z) (l1 l2 : bytes) :
  crc16_ref poly init (l1 ++ l2) = crc16_ref poly (crc16_ref poly init l1) l2.
Proof. unfold crc16_ref. apply fold_left_app. Qed.

Lemma crc16_feed_own_bytes (crc : Z) :
  0 <= crc < 65536 ->
  crc16_feed 0x11189
    (crc16_feed 0x11189 crc (byte_of_Z (crc / 256))) (byte_of_Z (crc mod 256))
  = 0.
Proof.
  intros Hcrc.
  assert (Hhi : 0 <= crc / 256 < 256)
    by (split; [apply Z.div_pos; lia | apply Z.div_lt_upper_bound; lia]).
  assert (Hlo : 0 <= crc mod 256 < 256) by (apply Z.mod_pos_bound; lia).
  unfold crc16_feed. rewrite !byte_val_of_Z by assumption.
  assert (E : Z.lxor crc (Z.shiftl (crc / 256) 8) = crc mod 256).
  { change 256 with (2 ^ 8).
    rewrite <- Z.shiftr_div_pow2, <- Z.land_ones by lia.
    bits. destruct (Z.ltb_spec n 8).
    - rewrite Z.ones_spec_low by lia.
      rewrite (Z.testbit_neg_r _ (n - 8)) by lia.
      now destruct (Z.testbit crc n).
    - rewrite Z.ones_spec_high by lia.
      rewrite ?Z.shiftr_spec by lia.
      replace (n - 8 + 8) with n by lia.
      now destruct (Z.testbit crc n). }
  rewrite E, (low_byte_shifts (crc mod 256)) by assumption.
  rewrite Z.lxor_nilpotent. reflexivity.
Qed.

(** X9.  The check a receiver of the frame would make: the checksum of the
    covered bytes followed by the two bytes [add_crc] appended is 0. *)
Theorem add_crc_residue (data : bytes) :
  exists c1 c2,
    add_crc data = Ok (data ++ [c1; c2]) /\
    crc_func (slice data 1 (-1) ++ [c1; c2]) = 0.
Proof.
  unfold add_crc, add_crc_with.
  change (crcmod.mkCrcFun 0x11189 0 0 ?x) with (crc_func x).
  destruct (to_bytes2_crc (slice data 1 (-1))) as [-> Hcrc].
  do 2 eexists. split; [reflexivity |].
  unfold crc_func in *. rewrite mkCrcFun_crc16_ref in Hcrc.
  rewrite !mkCrcFun_crc16_ref. rewrite crc16_ref_app. cbn [crc16_ref fold_left].
  now apply crc16_feed_own_bytes.
Qed.

Lemma crc16_bit_kernel (d : Z) :
  0 <= d < 65536 -> crc16_bit 0x11189 d = 0 -> d = 0.
Proof.
  intros Hd. unfold crc16_bit.
  destruct (Z.testbit d 15) eqn:E15; intros H.
  - apply (f_equal (fun z => Z.testbit z 0)) in H.
    rewrite Z.land_spec, Z.lxor_spec, Z.shiftl_spec in H by lia.
    rewrite Z.testbit_neg_r in H by lia. discriminate H.
  - apply Z.bits_inj'. intros n Hn. rewrite Z.bits_0.
    destruct (Z.ltb_spec n 15) as [Hlow|Hhigh].
    + apply (f_equal (fun z => Z.testbit z (n + 1))) in H.
      rewrite Z.land_spec, Z.shiftl_spec, Z.bits_0 in H by lia.
      replace (n + 1 - 1) with n in H by lia.
      change 65535 with (Z.ones 16) in H.
      rewrite Z.ones_spec_low, andb_true_r in H by lia. exact H.
    + destruct (Z.eq_dec n 15) as [->|]; [exact E15 |].
      apply (testbit_above d 16); lia.
Qed.

Lemma crc16_bits_kernel (k : nat) (d : Z) :
  0 <= d < 65536 -> Nat.iter k (crc16_bit 0x11189) d = 0 -> d = 0.
Proof.
  intros Hd. induction k as [|k IH]; [trivial |].
  rewrite Nat.iter_succ. intros H. apply IH.
  apply crc16_bit_kernel; [| exact H].
  destruct k; [exact Hd | rewrite Nat.iter_succ; apply crc16_bit_range].
Qed.

Lemma lxor_range (a b : Z) :
  0 <= a < 65536 -> 0 <= b < 65536 -> 0 <= Z.lxor a b < 65536.
Proof.
  intros Ha Hb. split; [apply Z.lxor_nonneg; lia |].
  destruct (Z.eq_dec (Z.lxor a b) 0) as [->|Hne]; [lia |].
  assert (0 <= Z.lxor a b) by (apply Z.lxor_nonneg; lia).
  change 65536 with (2 ^ 16). apply Z.log2_lt_pow2; [lia |].
  eapply Z.le_lt_trans; [apply Z.log2_lxor; lia |].
  apply Z.max_lub_lt.
  - destruct (Z.eq_dec a 0) as [->|]; [cbn; lia |]. apply Z.log2_lt_pow2; lia.
  - destruct (Z.eq_dec b 0) as [->|]; [cbn; lia |]. apply Z.log2_lt_pow2; lia.
Qed.

(** Two registers that differ stay different whatever bytes follow. *)
Lemma crc16_ref_apart (post : bytes) :
  forall s s', 0 <= s < 65536 -> 0 <= s' < 65536 -> s <> s' ->
               crc16_ref 0x11189 s post <> crc16_ref 0x11189 s' post.
Proof.
  induction post as [|x post IH]; intros s s' Hs Hs' Hne; [exact Hne |].
  change (crc16_ref ?p ?i (?x :: ?l)) with (crc16_ref p (crc16_feed p i x) l).
  apply IH; try apply crc16_feed_range.
  unfold crc16_feed. intros E. apply Hne.
  apply Z.lxor_eq. apply (crc16_bits_kernel 8); [now apply lxor_range |].
  replace (Z.lxor s s')
    with (Z.lxor (Z.lxor s (Z.shiftl (byte_val x) 8))
                 (Z.lxor s' (Z.shiftl (byte_val x) 8))).
  - rewrite crc16_bits_lxor, E. apply Z.lxor_nilpotent.
  - rewrite Z.lxor_assoc, (Z.lxor_comm (Z.shiftl _ _)), Z.lxor_assoc,
      Z.lxor_nilpotent, Z.lxor_0_r. reflexivity.
Qed.

Lemma byte_val_inj (b b' : byte) : byte_val b = byte_val b' -> b = b'.
Proof.
  unfold byte_val. intros H. apply N2Z.inj in H.
  apply (f_equal Byte.of_N) in H. rewrite !Byte.of_to_N in H.
  now injection H.
Qed.

Lemma crc_func_detects (pre post : bytes) (b b' : byte) :
  b <> b' -> crc_func (pre ++ b :: post) <> crc_func (pre ++ b' :: post).
Proof.
  intros Hne. unfold crc_func. rewrite !mkCrcFun_crc16_ref.
  rewrite !crc16_ref_app.
  set (c := crc16_ref 0x11189 0 pre).
  assert (Hc : 0 <= c < 65536) by (apply crc16_ref_range; lia).
  change (crc16_ref ?p ?i (?x :: ?l)) with (crc16_ref p (crc16_feed p i x) l).
  apply crc16_ref_apart; try apply crc16_feed_range.
  unfold crc16_feed. intros E. apply Hne, byte_val_inj.
  pose proof (byte_val_range b) as Hb. pose proof (byte_val_range b') as Hb'.
  assert (Hd : Z.shiftl (Z.lxor (byte_val b) (byte_val b')) 8 = 0).
  { apply (crc16_bits_kernel 8).
    - rewrite Z.shiftl_mul_pow2 by lia.
      assert (0 <= Z.lxor (byte_val b) (byte_val b') < 256).
      { pose proof (high_index_range (Z.shiftl (byte_val b') 8) (byte_val b) Hb)
          as H.
        replace (Z.land (Z.shiftr (Z.shiftl (byte_val b') 8) 8) 255)
          with (byte_val b') in H; [exact H |].
        rewrite Z.shiftr_shiftl_l, Z.sub_diag, Z.shiftl_0_r by lia.
        change 255 with (Z.ones 8). rewrite Z.land_ones by lia.
        symmetry. apply Z.mod_small. lia. }
      change (2 ^ 8) with 256. lia.
    - rewrite Z.shiftl_lxor.
      replace (Z.lxor (Z.shiftl (byte_val b) 8) (Z.shiftl (byte_val b') 8))
        with (Z.lxor (Z.lxor c (Z.shiftl (byte_val b) 8))
                     (Z.lxor c (Z.shiftl (byte_val b') 8))).
      + rewrite crc16_bits_lxor, E. apply Z.lxor_nilpotent.
      + rewrite Z.lxor_assoc, <- (Z.lxor_assoc _ c), (Z.lxor_comm _ c),
          !Z.lxor_assoc, <- Z.lxor_assoc, Z.lxor_nilpotent, Z.lxor_0_l.
        reflexivity. }
  apply Z.lxor_eq. apply Z.shiftl_eq_0_iff in Hd; [exact Hd | lia].
Qed.

Lemma inner_bytes (first last : byte) (mid : bytes) :
  slice (first :: mid ++ [last]) 1 (-1) = mid.
Proof.
  rewrite slice_inner. cbn [skipn length]. rewrite length_app. cbn [length].
  replace (S (length mid + 1) - 2)%nat with (length mid) by lia.
  apply take_app_length.
Qed.

Lemma add_crc_inner (first last : byte) (mid : bytes) :
  let crc := crc_func mid in
  add_crc (first :: mid ++ [last])
  = Ok ((first :: mid ++ [last])
        ++ [byte_of_Z (crc / 256); byte_of_Z (crc mod 256)]).
Proof.
  intros crc. unfold add_crc, add_crc_with. rewrite inner_bytes.
  change (crcmod.mkCrcFun 0x11189 0 0 ?x) with (crc_func x). subst crc.
  destruct (to_bytes2_crc mid) as [-> _]. reflexivity.
Qed.

(** X10.  Changing any one byte between the first and the last of the buffer
    changes the two bytes that [add_crc] appends. *)
Theorem add_crc_detects_byte (first last b b' : byte) (pre post : bytes) :
  b <> b' ->
  exists c c',
    add_crc (first :: (pre ++ b :: post) ++ [last])
    = Ok ((first :: (pre ++ b :: post) ++ [last]) ++ c) /\
    add_crc (first :: (pre ++ b' :: post) ++ [last])
    = Ok ((first :: (pre ++ b' :: post) ++ [last]) ++ c') /\
    c <> c'.
Proof.
  intros Hne. do 2 eexists.
  split; [apply add_crc_inner |]. split; [apply add_crc_inner |].
  intros E. apply (crc_func_detects pre post b b' Hne).
  destruct (to_bytes2_crc (pre ++ b :: post)) as [_ H].
  destruct (to_bytes2_crc (pre ++ b' :: post)) as [_ H'].
  cbv zeta in H, H'.
  set (x := crc_func (pre ++ b :: post)) in *.
  set (y := crc_func (pre ++ b' :: post)) in *.
  injection E as Ehi Elo.
  apply (f_equal byte_val) in Ehi, Elo.
  rewrite !byte_val_of_Z in Ehi, Elo;
    try (apply Z.mod_pos_bound; lia);
    try (split; [apply Z.div_pos; lia | apply Z.div_lt_upper_bound; lia]).
  rewrite (Z.div_mod x 256), (Z.div_mod y 256) by lia. congruence.
Qed.

Lemma add_crc_detects_byte_witness :
  exists c c',
    add_crc (x00 :: ([x02] ++ x04 :: [x8c]) ++ [xff])
    = Ok ((x00 :: ([x02] ++ x04 :: [x8c]) ++ [xff]) ++ c) /\
    add_crc (x00 :: ([x02] ++ x05 :: [x8c]) ++ [xff])
    = Ok ((x00 :: ([x02] ++ x05 :: [x8c]) ++ [xff]) ++ c') /\
    c <> c'.
Proof.
  apply (add_crc_detects_byte x00 xff x04 x05 [x02] [x8c]). discriminate.
Defined.

(** ** More on the sensor registry *)

Lemma od_get_In {K V} `{EqDecision K} (d : list (K * V)) (k : K) (v : V) :
  od_get d k = Ok v -> (k, v) ∈ d.
Proof.
  induction d as [|[k' v'] d IH]; cbn [od_get]; [discriminate |].
  destruct (decide (k = k')) as [->|].
  - intros [= ->]. apply list_elem_of_here.
  - intros H. apply list_elem_of_further. now apply IH.
Qed.

Lemma od_set_In {K V} `{EqDecision K} (d : list (K * V)) (k k' : K) (v v' : V) :
  (k', v') ∈ od_set d k v -> (k' = k /\ v' = v) \/ (k', v') ∈ d.
Proof.
  induction d as [|[k0 v0] d IH]; cbn [od_set].
  - rewrite list_elem_of_singleton. intros [= <- <-]. now left.
  - destruct (decide (k = k0)) as [->|]; rewrite !elem_of_cons.
    + intros [[= <- <-]|H]; [now left | right; now right].
    + intros [H|H]; [right; now left |].
      destruct (IH H) as [?|?]; [now left | right; now right].
Qed.

Lemma od_set_keys {K V} `{EqDecision K} (d : list (K * V)) (k : K) (v : V) :
  map fst (od_set d k v)
  = if decide (k ∈ map fst d) then map fst d else map fst d ++ [k].
Proof.
  induction d as [|[k0 v0] d IH]; cbn [od_set map fst].
  - rewrite decide_False by apply not_elem_of_nil. reflexivity.
  - destruct (decide (k = k0)) as [->|Hne].
    + rewrite decide_True by apply list_elem_of_here. reflexivity.
    + cbn [map fst]. rewrite IH.
      destruct (decide (k ∈ map fst d)) as [Hin|Hin].
      * rewrite decide_True by now apply list_elem_of_further. reflexivity.
      * rewrite decide_False; [reflexivity |].
        rewrite elem_of_cons. intros [E|E]; [congruence | contradiction].
Qed.

Lemma slot_steps (sensorList : sensors) (p : Z) (entry : fields)
    (f0 f1 id type : pyval) :
  entry !! 0 = Some f0 -> subscript f0 1 = Ok id ->
  entry !! 1 = Some f1 -> subscript f1 1 = Ok type ->
  slot (sensorList, p) entry
  = (sv ← classify entry type;
     Ok (od_set sensorList id
           (<["pos" := VInt p]> (<["type" := sv_type sv]> (sv_attrs sv))),
         p + sv_elementSize sv)).
Proof.
  intros H0 Hid H1 Hty. unfold slot, getitem.
  rewrite H0. cbn [mbind result_bind]. rewrite Hid. cbn [mbind result_bind].
  rewrite H1. cbn [mbind result_bind]. rewrite Hty. reflexivity.
Qed.

Lemma slot_readable (sensorList sensorList' : sensors) (p p' : Z)
    (entry : fields) :
  0 <= p -> Forall (fun ia => readable (snd ia)) sensorList ->
  slot (sensorList, p) entry = Ok (sensorList', p') ->
  0 <= p' /\ Forall (fun ia => readable (snd ia)) sensorList'.
Proof.
  intros Hp Hall Hslot.
  pose proof (slot_advance _ _ _ _ _ Hslot) as (id & a & _ & -> & _ & ->).
  pose proof (count_of_nonneg entry). split; [lia |].
  revert Hslot. unfold slot.
  repeat split_bind. intros [= E _].
  apply Forall_forall. intros [k v] Hin. rewrite <- E in Hin.
  apply od_set_In in Hin as [[_ ->]|Hin].
  - cbn [snd]. split.
    + exists p. split; [apply lookup_insert_eq | assumption].
    + rewrite lookup_insert_ne by discriminate.
      rewrite lookup_insert_eq. eauto.
  - rewrite Forall_forall in Hall. apply (Hall _ Hin).
Qed.

Lemma slots_readable (config : list fields) :
  forall (sensorList sensorList' : sensors) (p p' : Z),
    0 <= p -> Forall (fun ia => readable (snd ia)) sensorList ->
    slots (sensorList, p) config = Ok (sensorList', p') ->
    Forall (fun ia => readable (snd ia)) sensorList'.
Proof.
  induction config as [|entry config IH]; intros sl sl' p p' Hp Hall.
  - cbn. now intros [= <- _].
  - cbn [slots].
    destruct (slot (sl, p) entry) as [[sl1 p1]|] eqn:E;
      cbn [mbind result_bind]; [| discriminate].
    destruct (slot_readable _ _ _ _ _ Hp Hall E) as [Hp1 Hall1].
    now apply IH.
Qed.

(** X11.  Whatever the config, every entry of the registry that
    [createSensorList] returns has a ["pos"] holding an integer that is
    not negative and a ["type"]: the two lookups at the head of the
    telemetry loop's body find their keys. *)
Theorem registry_entries_readable (config : list fields) (registry : sensors)
    (id : pyval) (a : attrs) :
  createSensorList config = Ok registry ->
  od_get registry id = Ok a ->
  readable a.
Proof.
  unfold createSensorList.
  destruct (slots ([], 0) config) as [[sl p]|] eqn:E;
    cbn [mbind result_bind fst]; [| discriminate].
  intros [= <-] Hget.
  pose proof (slots_readable config [] sl 0 p ltac:(lia) ltac:(constructor) E)
    as Hall.
  rewrite Forall_forall in Hall. apply (Hall _ (od_get_In _ _ _ Hget)).
Qed.

Lemma registry_entries_readable_witness :
  readable (<["pos" := VInt 6]>
              (<["type" := VStr (str_lit "thermometer")]>
                 (<["name" := VStr (str_lit "Cabin")]> ∅))).
Proof.
  apply (registry_entries_readable pico_internal_config pico_internal_registry
           (VInt 2)); vm_compute; reflexivity.
Defined.

Lemma classify_unlisted (entry : fields) (type : pyval) :
  (forall code, In code listed_codes -> type <> VInt code) ->
  classify entry type = Ok (SlotVars type 1 ∅).
Proof.
  intros H. unfold classify.
  repeat (rewrite when_type_skip
            by (cbn [sv_type]; apply H; cbn; tauto);
          cbn [mbind result_bind]).
  reflexivity.
Qed.

(** X12.  A slot whose type is none of the listed codes is registered all the
    same: under its id, with the unchanged type value as ["type"], no
    name, and one element. *)
Theorem unlisted_type_registered (sensorList : sensors) (elementPos : Z)
    (entry : fields) (f0 f1 id type : pyval) :
  entry !! 0 = Some f0 -> subscript f0 1 = Ok id ->
  entry !! 1 = Some f1 -> subscript f1 1 = Ok type ->
  (forall code, In code listed_codes -> type <> VInt code) ->
  slot (sensorList, elementPos) entry
  = Ok (od_set sensorList id
          (<["pos" := VInt elementPos]> (<["type" := type]> ∅)),
        elementPos + 1).
Proof.
  intros H0 Hid H1 Hty Hcode.
  rewrite (slot_steps _ _ _ _ _ _ _ H0 Hid H1 Hty).
  now rewrite classify_unlisted.
Qed.

Lemma unlisted_type_registered_witness :
  slot ([], 4) (<[1 := VPair 0 7]> (<[0 := VPair 0 12]> ∅))
  = Ok ([(VInt 12, <["pos" := VInt 4]> (<["type" := VInt 7]> ∅))], 5).
Proof.
  apply (unlisted_type_registered [] 4 _ (VPair 0 12) (VPair 0 7));
    try reflexivity.
  intros code Hin E. injection E as <-. vm_compute in Hin.
  repeat (destruct Hin as [Hin|Hin]; [discriminate Hin |]). exact Hin.
Defined.

Lemma classify_unnamed (entry : fields) (code : Z) :
  In code named_codes -> entry !! 3 = None ->
  classify entry (VInt code) = Raise KeyError.
Proof.
  intros Hin Hname. unfold classify.
  assert (Hget : getitem entry 3 = Raise KeyError)
    by (unfold getitem; now rewrite Hname).
  cbn in Hin.
  repeat (destruct Hin as [<-|Hin];
          [repeat skip_when; hit_when; unfold with_name; rewrite Hget;
           reflexivity |]).
  contradiction.
Qed.

Lemma slots_app_eq (pre post : list fields) :
  forall st, slots st (pre ++ post) = (st1 ← slots st pre; slots st1 post).
Proof.
  induction pre as [|entry pre IH]; intros st; [reflexivity |].
  cbn [app slots]. destruct (slot st entry) as [st1|]; cbn [mbind result_bind];
    [apply IH | reflexivity].
Qed.

Lemma createSensorList_slots (config : list fields) (registry : sensors) :
  createSensorList config = Ok registry ->
  exists p, slots ([], 0) config = Ok (registry, p).
Proof.
  unfold createSensorList.
  destruct (slots ([], 0) config) as [[sl p]|]; cbn [mbind result_bind fst];
    [| discriminate].
  intros [= <-]. eauto.
Qed.

(** X13.  A slot of a type that has a name (volt, current, thermometer,
    barometer, ohm, tank, battery) whose response carried no field 3
    stops the builder with [KeyError], whatever slots follow. *)
Theorem missing_name_KeyError (pre post : list fields) (registry : sensors)
    (entry : fields) (f0 f1 id : pyval) (code : Z) :
  createSensorList pre = Ok registry ->
  entry !! 0 = Some f0 -> subscript f0 1 = Ok id ->
  entry !! 1 = Some f1 -> subscript f1 1 = Ok (VInt code) ->
  In code named_codes -> entry !! 3 = None ->
  createSensorList (pre ++ entry :: post) = Raise KeyError.
Proof.
  intros Hpre H0 Hid H1 Hty Hcode Hname.
  destruct (createSensorList_slots _ _ Hpre) as (p & Hslots).
  unfold createSensorList. rewrite slots_app_eq, Hslots.
  cbn [mbind result_bind slots].
  rewrite (slot_steps _ _ _ _ _ _ _ H0 Hid H1 Hty).
  now rewrite classify_unnamed.
Qed.

Lemma missing_name_KeyError_witness :
  createSensorList
    (engine_room_config
     ++ <[1 := VPair 0 3]> (<[0 := VPair 0 6]> ∅) :: engine_room_config)
  = Raise KeyError.
Proof.
  apply (missing_name_KeyError engine_room_config engine_room_config
           engine_room_registry _ (VPair 0 6) (VPair 0 3) (VInt 6) 3);
    try reflexivity.
  cbn. tauto.
Defined.

Lemma list_item_fluid (table : list pystr) (k : Z) :
  0 <= k ->
  list_item table (VInt k)
  = if k <? Z.of_nat (length table)
    then Ok (VStr (nth (Z.to_nat k) table []))
    else Raise IndexError.
Proof.
  intros Hk. unfold list_item. cbn [as_int mbind result_bind].
  replace (k <? 0) with false by (symmetry; apply Z.ltb_ge; lia).
  replace (0 <=? k) with true by (symmetry; apply Z.leb_le; lia).
  cbn [andb]. destruct (Z.ltb_spec k (Z.of_nat (length table))); [| reflexivity].
  destruct (index_Some table (Z.to_nat k) ltac:(lia)) as (s & -> & Hs).
  cbn [mbind result_bind]. now rewrite (nth_error_nth _ _ _ Hs).
Qed.

Lemma classify_tank (entry : fields) (name : pyval) (a6 k a7 c : Z) :
  entry !! 3 = Some name ->
  entry !! 6 = Some (VPair a6 k) -> entry !! 7 = Some (VPair a7 c) ->
  classify entry (VInt 8)
  = (capacity ← int_truediv c 10;
     kind ← list_item fluid_type (VInt k);
     medium ← list_item fluid (VInt k);
     Ok (SlotVars (VStr (str_lit "tank")) 1
           (<["fluid" := medium]>
              (<["fluid_type" := kind]>
                 (<["capacity" := VFloat capacity]>
                    (<["name" := name]> ∅)))))).
Proof.
  intros Hname H6 H7. unfold classify. do 6 skip_when. hit_when.
  unfold with_name, getitem. rewrite Hname, H6, H7.
  cbn [mbind result_bind subscript as_int].
  destruct (int_truediv c 10); cbn [mbind result_bind]; [| reflexivity].
  destruct (list_item fluid_type (VInt k)); cbn [mbind result_bind];
    [| reflexivity].
  destruct (list_item fluid (VInt k)); cbn [mbind result_bind];
    [| reflexivity].
  do 2 skip_when. reflexivity.
Qed.

(** X14.  A tank slot.  The capacity is field 7's second value over 10, a
    double; field 6's second value picks the fluid from the two
    four-entry tables, and a fluid code of 4 or more stops the builder
    with [IndexError] once the capacity is computed.  The slot takes
    one element. *)
Theorem tank_slot (sensorList : sensors) (elementPos : Z) (entry : fields)
    (f0 f1 id name : pyval) (a6 k a7 c : Z) :
  entry !! 0 = Some f0 -> subscript f0 1 = Ok id ->
  entry !! 1 = Some f1 -> subscript f1 1 = Ok (VInt 8) ->
  entry !! 3 = Some name ->
  entry !! 6 = Some (VPair a6 k) -> entry !! 7 = Some (VPair a7 c) ->
  0 <= k ->
  slot (sensorList, elementPos) entry
  = (capacity ← int_truediv c 10;
     if k <? 4 then
       Ok (od_set sensorList id
             (<["pos" := VInt elementPos]>
                (<["type" := VStr (str_lit "tank")]>
                   (<["fluid" := VStr (nth (Z.to_nat k) fluid [])]>
                      (<["fluid_type" := VStr (nth (Z.to_nat k) fluid_type [])]>
                         (<["capacity" := VFloat capacity]>
                            (<["name" := name]> ∅)))))),
           elementPos + 1)
     else Raise IndexError).
Proof.
  intros H0 Hid H1 Hty Hname H6 H7 Hk.
  rewrite (slot_steps _ _ _ _ _ _ _ H0 Hid H1 Hty).
  rewrite (classify_tank _ _ _ _ _ _ Hname H6 H7).
  rewrite !list_item_fluid by lia.
  change (Z.of_nat (length fluid_type)) with 4.
  change (Z.of_nat (length fluid)) with 4.
  destruct (int_truediv c 10); cbn [mbind result_bind]; [| reflexivity].
  destruct (k <? 4); reflexivity.
Qed.

Lemma tank_slot_witness :
  slot ([], 3)
    (<[7 := VPair 0 1200]> (<[6 := VPair 0 2]> (slot_fields 9 8 "Port")))
  = Ok ([(VInt 9,
          <["pos" := VInt 3]>
            (<["type" := VStr (str_lit "tank")]>
               (<["fluid" := VStr (str_lit "fuel")]>
                  (<["fluid_type" := VStr (str_lit "diesel")]>
                     (<["capacity" := VFloat (nearest_ratio 120 1)]>
                        (<["name" := VStr (str_lit "Port")]> ∅))))))], 4) /\
  slot ([], 3)
    (<[7 := VPair 0 1200]> (<[6 := VPair 0 4]> (slot_fields 9 8 "Port")))
  = Raise IndexError.
Proof.
  split.
  - rewrite (tank_slot [] 3 _ (VPair 0 9) (VPair 0 8) (VInt 9)
               (VStr (str_lit "Port")) 0 2 0 1200);
      try reflexivity.
    lia.
  - rewrite (tank_slot [] 3 _ (VPair 0 9) (VPair 0 8) (VInt 9)
               (VStr (str_lit "Port")) 0 4 0 1200);
      try reflexivity.
    lia.
Defined.

(** X15.  A battery slot: the nominal capacity is field 5's second value
    times 36 times 12, an integer, and the slot takes five elements. *)
Theorem battery_slot (sensorList : sensors) (elementPos : Z) (entry : fields)
    (f0 f1 id name : pyval) (a5 n : Z) :
  entry !! 0 = Some f0 -> subscript f0 1 = Ok id ->
  entry !! 1 = Some f1 -> subscript f1 1 = Ok (VInt 9) ->
  entry !! 3 = Some name ->
  entry !! 5 = Some (VPair a5 n) ->
  slot (sensorList, elementPos) entry
  = Ok (od_set sensorList id
          (<["pos" := VInt elementPos]>
             (<["type" := VStr (str_lit "battery")]>
                (<["capacity.nominal" := VInt (432 * n)]>
                   (<["name" := name]> ∅)))),
        elementPos + 5).
Proof.
  intros H0 Hid H1 Hty Hname H5.
  rewrite (slot_steps _ _ _ _ _ _ _ H0 Hid H1 Hty).
  unfold classify. do 7 skip_when. hit_when.
  unfold with_name, getitem. rewrite Hname, H5.
  cbn [mbind result_bind subscript times_432]. skip_when.
  cbn [sv_type sv_attrs sv_elementSize with_size with_attr with_type].
  replace (n * 36 * 12) with (432 * n) by lia. reflexivity.
Qed.

Lemma battery_slot_witness :
  slot ([], 0) (<[5 := VPair 0 100]> (slot_fields 7 9 "House"))
  = Ok (battery_registry, 5).
Proof.
  apply (battery_slot [] 0 _ (VPair 0 7) (VPair 0 9) (VInt 7)
           (VStr (str_lit "House")) 0 100);
    reflexivity.
Defined.

Lemma slots_ids (config : list fields) :
  forall (sensorList sensorList' : sensors) (p p' : Z),
    NoDup (map fst sensorList) ->
    slots (sensorList, p) config = Ok (sensorList', p') ->
    NoDup (map fst sensorList') /\
    forall id, id ∈ map fst sensorList' <->
               id ∈ map fst sensorList \/
               exists entry, entry ∈ config /\ slot_id entry = Some id.
Proof.
  induction config as [|entry config IH]; intros sl sl' p p' Hnd.
  - cbn [slots]. intros [= <- _]. split; [assumption |].
    intros id. split; [now left |].
    intros [H|(entry & Hin & _)]; [assumption |].
    now apply not_elem_of_nil in Hin.
  - cbn [slots].
    destruct (slot (sl, p) entry) as [[sl1 p1]|] eqn:E;
      cbn [mbind result_bind]; [| discriminate].
    intros Hrest.
    apply slot_advance in E as (id0 & a & Hid0 & -> & _ & _).
    assert (Hkeys : forall id, id ∈ map fst (od_set sl id0 a) <->
                               id ∈ map fst sl \/ id = id0).
    { intros id. rewrite od_set_keys. destruct (decide (id0 ∈ map fst sl)).
      - split; [now left |]. intros [H | ->]; assumption.
      - rewrite elem_of_app, list_elem_of_singleton. reflexivity. }
    assert (Hnd1 : NoDup (map fst (od_set sl id0 a))).
    { rewrite od_set_keys. destruct (decide (id0 ∈ map fst sl)) as [|Hnew];
        [assumption |].
      apply NoDup_app. split; [assumption |]. split; [| apply NoDup_singleton].
      intros x Hx. rewrite list_elem_of_singleton. intros ->. contradiction. }
    destruct (IH _ _ _ _ Hnd1 Hrest) as [Hnd' Hiff].
    split; [assumption |]. intros id. rewrite Hiff, Hkeys.
    split.
    + intros [[H| ->]|(e & Hin & He)].
      * now left.
      * right. exists entry. split; [apply list_elem_of_here | assumption].
      * right. exists e. split; [now apply list_elem_of_further | assumption].
    + intros [H|(e & Hin & He)]; [left; now left |].
      apply elem_of_cons in Hin as [->|Hin].
      * left; right. congruence.
      * right. eauto.
Qed.

(** X16.  The registry has one entry for each id that occurs in the config
    and no other: a slot whose id was seen before replaces the
    attributes of the earlier entry and adds none. *)
Theorem registry_ids (config : list fields) (registry : sensors) :
  createSensorList config = Ok registry ->
  NoDup (map fst registry) /\
  forall id, id ∈ map fst registry <->
             exists entry, entry ∈ config /\ slot_id entry = Some id.
Proof.
  intros H. destruct (createSensorList_slots _ _ H) as (p & Hslots).
  destruct (slots_ids _ _ _ _ _ (NoDup_nil_2 : NoDup (map fst [])) Hslots)
    as [Hnd Hiff].
  split; [assumption |]. intros id. rewrite Hiff. split; [| now right].
  intros [Hin|Hex]; [| assumption]. now apply not_elem_of_nil in Hin.
Qed.

Lemma registry_ids_witness :
  NoDup (map fst pico_internal_registry) /\
  forall id, id ∈ map fst pico_internal_registry <->
             exists entry, entry ∈ pico_internal_config /\
                           slot_id entry = Some id.
Proof.
  apply registry_ids. vm_compute. reflexivity.
Defined.

(** ** The other readers and the dispatch *)

Lemma str_lit_inj (s t : string) : str_lit s = str_lit t -> s = t.
Proof.
  unfold str_lit. revert t.
  induction s as [|c s IH]; intros [|d t]; cbn; try discriminate;
    [reflexivity |].
  intros [= Hc Hs]. f_equal; [| now apply IH].
  rewrite <- (ascii_N_embedding c), <- (ascii_N_embedding d). now rewrite Hc.
Qed.

Lemma when_item_hit (name : string) (reader : sensors -> result sensors)
    (tmp : sensors) :
  when_item (VStr (str_lit name)) name reader tmp = reader tmp.
Proof. unfold when_item. now rewrite decide_True. Qed.

Lemma when_item_skip (itemType : pyval) (name : string)
    (reader : sensors -> result sensors) (tmp : sensors) :
  itemType <> VStr (str_lit name) -> when_item itemType name reader tmp = Ok tmp.
Proof. intros H. unfold when_item. now rewrite decide_False. Qed.

Lemma dispatch_steps (sensorList : sensors) (element : fields) (tmp : sensors)
    (item elId itemType : pyval) (a : attrs) :
  od_get sensorList item = Ok a ->
  a !! "pos"%string = Some elId -> a !! "type"%string = Some itemType ->
  dispatch sensorList element tmp item
  = (tmp ← when_item itemType "barometer"
             (fun t => readBaro element t item elId) tmp;
     tmp ← when_item itemType "thermometer"
             (fun t => readTemp element t item elId) tmp;
     tmp ← when_item itemType "battery"
             (fun t => readBatt sensorList element t item elId) tmp;
     tmp ← when_item itemType "ohm" (fun t => readOhm element t item elId) tmp;
     tmp ← when_item itemType "volt" (fun t => readVolt element t item elId) tmp;
     tmp ← when_item itemType "current"
             (fun t => readCurrent element t item elId) tmp;
     when_item itemType "tank" (fun t => readTank element t item elId) tmp).
Proof.
  intros Hget Hpos Hty. unfold dispatch, getitem.
  rewrite Hget. cbn [mbind result_bind]. rewrite Hpos, Hty. reflexivity.
Qed.

Ltac skip_item :=
  rewrite when_item_skip
    by (let E := fresh in intros E; vm_compute in E; discriminate E);
  cbn [mbind result_bind].

Ltac hit_item := rewrite when_item_hit; cbn [mbind result_bind].

(** X17.  A sensor whose type is none of the seven the loop reads (the null
    type, "XX", a numeric code left as it came) is passed over: its
    entry in the snapshot is the registry's. *)
Theorem dispatch_other_type (sensorList : sensors) (element : fields)
    (tmp : sensors) (item elId itemType : pyval) (a : attrs) :
  od_get sensorList item = Ok a ->
  a !! "pos"%string = Some elId -> a !! "type"%string = Some itemType ->
  (forall name, In name read_types -> itemType <> VStr (str_lit name)) ->
  dispatch sensorList element tmp item = Ok tmp.
Proof.
  intros Hget Hpos Hty Hother.
  rewrite (dispatch_steps _ _ _ _ _ _ _ Hget Hpos Hty).
  repeat (rewrite when_item_skip by (apply Hother; cbn; tauto);
          cbn [mbind result_bind]).
  reflexivity.
Qed.

Lemma dispatch_other_type_witness :
  let registry :=
    [(VInt 3, <["pos" := VInt 0]> (<["type" := VStr (str_lit "null")]> ∅))] in
  dispatch registry ∅ registry (VInt 3) = Ok registry.
Proof.
  intros registry.
  apply (dispatch_other_type registry ∅ registry (VInt 3) (VInt 0)
           (VStr (str_lit "null")) _ eq_refl eq_refl eq_refl).
  intros name Hin E. injection E as E. apply str_lit_inj in E. subst name.
  cbn in Hin. repeat (destruct Hin as [Hin|Hin]; [discriminate Hin |]).
  exact Hin.
Defined.

Lemma component_missing (element : fields) (p off : Z) (i : nat) :
  element !! (p + off) = None ->
  component element (VInt p) off i = Raise KeyError.
Proof.
  intros H. unfold component, getitem. cbn [as_int mbind result_bind].
  now rewrite H.
Qed.

Lemma tmp_update_KeyError (tmp : sensors) (sensorId : pyval) (k : string) :
  tmp_update tmp sensorId k (Raise KeyError) = Raise KeyError.
Proof.
  unfold tmp_update. destruct (od_get tmp sensorId) as [a|e] eqn:E;
    [reflexivity |].
  cbn [mbind result_bind]. f_equal.
  revert E. clear. induction tmp as [|[k' v] tmp IH]; cbn [od_get].
  - now intros [= <-].
  - destruct (decide (sensorId = k')); [discriminate | exact IH].
Qed.

(** X18.  A registered sensor of one of the seven read types whose offset is
    not among the fields of the frame ends the pass with [KeyError]. *)
Theorem dispatch_missing_element (sensorList : sensors) (element : fields)
    (tmp : sensors) (item : pyval) (p : Z) (name : string) (a : attrs) :
  od_get sensorList item = Ok a ->
  a !! "pos"%string = Some (VInt p) ->
  a !! "type"%string = Some (VStr (str_lit name)) ->
  In name read_types ->
  element !! p = None ->
  dispatch sensorList element tmp item = Raise KeyError.
Proof.
  intros Hget Hpos Hty Hin Hnone.
  rewrite (dispatch_steps _ _ _ _ _ _ _ Hget Hpos Hty).
  assert (Hc : forall i, component element (VInt p) 0 i = Raise KeyError).
  { intros i. apply component_missing. now rewrite Z.add_0_r. }
  cbn in Hin.
  repeat (destruct Hin as [<-|Hin];
          [repeat skip_item; hit_item;
           unfold readBaro, readTemp, readBatt, stateOfCharge_of, readOhm,
             readVolt, readCurrent, readTank;
           rewrite !Hc; cbn [mbind result_bind];
           rewrite ?tmp_update_KeyError; reflexivity |]).
  contradiction.
Qed.

Lemma dispatch_missing_element_witness :
  dispatch engine_room_registry ∅ engine_room_registry (VInt 5)
  = Raise KeyError.
Proof.
  apply (dispatch_missing_element engine_room_registry ∅ engine_room_registry
           (VInt 5) 0 "thermometer" _ eq_refl eq_refl eq_refl).
  - cbn. tauto.
  - reflexivity.
Defined.

Lemma component_first (element : fields) (p x y : Z) :
  element !! p = Some (VPair x y) ->
  component element (VInt p) 0 0 = Ok (VInt x) /\
  component element (VInt p) 0 1 = Ok (VInt y).
Proof.
  intros H. apply component_pair. now rewrite Z.add_0_r.
Qed.

(** X19.  A barometer's reading is the second value of its field plus 65536,
    an integer: never below 65536. *)
Theorem barometer_pressure (sensorList : sensors) (element : fields)
    (tmp : sensors) (item : pyval) (p x y : Z) (a a0 : attrs) :
  od_get sensorList item = Ok a ->
  a !! "pos"%string = Some (VInt p) ->
  a !! "type"%string = Some (VStr (str_lit "barometer")) ->
  od_get tmp item = Ok a0 ->
  element !! p = Some (VPair x y) ->
  dispatch sensorList element tmp item
  = Ok (od_set tmp item (<["pressure" := VInt (y + 65536)]> a0)).
Proof.
  intros Hget Hpos Hty Htmp Hel.
  rewrite (dispatch_steps _ _ _ _ _ _ _ Hget Hpos Hty).
  hit_item. unfold readBaro.
  destruct (component_first _ _ _ _ Hel) as [_ ->].
  cbn [mbind result_bind as_int].
  rewrite (tmp_update_get _ _ _ _ _ Htmp). cbn [mbind result_bind].
  repeat skip_item. reflexivity.
Qed.

Lemma barometer_pressure_witness :
  let registry :=
    [(VInt 4, <["pos" := VInt 2]>
                (<["type" := VStr (str_lit "barometer")]> ∅))] in
  dispatch registry (<[2 := VPair 1 35789]> ∅) registry (VInt 4)
  = Ok [(VInt 4, <["pressure" := VInt 101325]>
                   (<["pos" := VInt 2]>
                      (<["type" := VStr (str_lit "barometer")]> ∅)))].
Proof.
  intros registry.
  apply (barometer_pressure registry (<[2 := VPair 1 35789]> ∅) registry
           (VInt 4) 2 1 35789
           (<["pos" := VInt 2]> (<["type" := VStr (str_lit "barometer")]> ∅)));
    reflexivity.
Defined.

(** X20.  A tank's level is the first value of its field over 1000 and its
    volume the second value over 10000, both as doubles. *)
Theorem tank_levels (sensorList : sensors) (element : fields)
    (tmp : sensors) (item : pyval) (p x y : Z) (a a0 : attrs) :
  od_get sensorList item = Ok a ->
  a !! "pos"%string = Some (VInt p) ->
  a !! "type"%string = Some (VStr (str_lit "tank")) ->
  od_get tmp item = Ok a0 ->
  element !! p = Some (VPair x y) ->
  0 <= x < 65536 -> 0 <= y < 65536 ->
  dispatch sensorList element tmp item
  = Ok (od_set tmp item
          (<["currentVolume" := VFloat (ratio y 10000)]>
             (<["currentLevel" := VFloat (ratio x 1000)]> a0))).
Proof.
  intros Hget Hpos Hty Htmp Hel Hx Hy.
  rewrite (dispatch_steps _ _ _ _ _ _ _ Hget Hpos Hty).
  repeat skip_item. hit_item. unfold readTank.
  destruct (component_first _ _ _ _ Hel) as [-> ->].
  cbn [mbind result_bind].
  rewrite !div_by_lit_ratio by (rewrite pow2_53; lia).
  cbn [mbind result_bind].
  rewrite (tmp_update_get _ _ _ _ _ Htmp). cbn [mbind result_bind].
  apply tmp_update_set.
Qed.

Lemma tank_levels_witness :
  let registry :=
    [(VInt 4, <["pos" := VInt 2]> (<["type" := VStr (str_lit "tank")]> ∅))] in
  dispatch registry (<[2 := VPair 500 1250]> ∅) registry (VInt 4)
  = Ok [(VInt 4, <["currentVolume" := VFloat (nearest_ratio 1 8)]>
                   (<["currentLevel" := VFloat (nearest_ratio 1 2)]>
                      (<["pos" := VInt 2]>
                         (<["type" := VStr (str_lit "tank")]> ∅))))].
Proof.
  intros registry.
  apply (tank_levels registry (<[2 := VPair 500 1250]> ∅) registry
           (VInt 4) 2 500 1250
           (<["pos" := VInt 2]> (<["type" := VStr (str_lit "tank")]> ∅)));
    try reflexivity; lia.
Defined.

(** X21.  A volt sensor's reading is the second value of its field over 1000;
    an ohm sensor's reading is the second value as it came. *)
Theorem volt_and_ohm (sensorList : sensors) (element : fields)
    (tmp : sensors) (item : pyval) (p x y : Z) (a a0 : attrs) :
  od_get sensorList item = Ok a ->
  a !! "pos"%string = Some (VInt p) ->
  od_get tmp item = Ok a0 ->
  element !! p = Some (VPair x y) ->
  0 <= y < 65536 ->
  (a !! "type"%string = Some (VStr (str_lit "volt")) ->
   dispatch sensorList element tmp item
   = Ok (od_set tmp item (<["voltage" := VFloat (ratio y 1000)]> a0))) /\
  (a !! "type"%string = Some (VStr (str_lit "ohm")) ->
   dispatch sensorList element tmp item
   = Ok (od_set tmp item (<["ohm" := VInt y]> a0))).
Proof.
  intros Hget Hpos Htmp Hel Hy.
  destruct (component_first _ _ _ _ Hel) as [_ Hc].
  split; intros Hty;
    rewrite (dispatch_steps _ _ _ _ _ _ _ Hget Hpos Hty);
    repeat skip_item; hit_item.
  - unfold readVolt. rewrite Hc. cbn [mbind result_bind].
    rewrite div_by_lit_ratio by (rewrite pow2_53; lia).
    cbn [mbind result_bind].
    rewrite (tmp_update_get _ _ _ _ _ Htmp). cbn [mbind result_bind].
    repeat skip_item. reflexivity.
  - unfold readOhm. rewrite Hc.
    rewrite (tmp_update_get _ _ _ _ _ Htmp). cbn [mbind result_bind].
    repeat skip_item. reflexivity.
Qed.

Lemma volt_and_ohm_witness :
  let registry :=
    [(VInt 4, <["pos" := VInt 2]> (<["type" := VStr (str_lit "volt")]> ∅))] in
  dispatch registry (<[2 := VPair 0 12500]> ∅) registry (VInt 4)
  = Ok [(VInt 4, <["voltage" := VFloat (nearest_ratio 25 2)]>
                   (<["pos" := VInt 2]>
                      (<["type" := VStr (str_lit "volt")]> ∅)))].
Proof.
  intros registry.
  apply (volt_and_ohm registry (<[2 := VPair 0 12500]> ∅) registry
           (VInt 4) 2 0 12500
           (<["pos" := VInt 2]> (<["type" := VStr (str_lit "volt")]> ∅)));
    try reflexivity; lia.
Defined.

Lemma component_empty (element : fields) (p : Z) (i : nat) :
  element !! p = Some (VStr []) ->
  component element (VInt p) 0 i = Raise IndexError.
Proof.
  intros H. unfold component, getitem. cbn [as_int mbind result_bind].
  rewrite Z.add_0_r, H. cbn [mbind result_bind subscript].
  now rewrite index_short by (cbn; lia).
Qed.

Lemma tmp_update_raise (tmp : sensors) (sensorId : pyval) (k : string)
    (a : attrs) (e : exn) :
  od_get tmp sensorId = Ok a -> tmp_update tmp sensorId k (Raise e) = Raise e.
Proof. intros H. unfold tmp_update. now rewrite H. Qed.

(** X22.  The empty value that the payload [7F FF FF FF] decodes to, found at
    the offset of a sensor of one of the seven read types, ends the pass
    with [IndexError]: the readers subscript it. *)
Theorem dispatch_empty_value (sensorList : sensors) (element : fields)
    (tmp : sensors) (item : pyval) (p : Z) (name : string) (a a0 : attrs) :
  od_get sensorList item = Ok a ->
  a !! "pos"%string = Some (VInt p) ->
  a !! "type"%string = Some (VStr (str_lit name)) ->
  In name read_types ->
  od_get tmp item = Ok a0 ->
  element !! p = Some (VStr []) ->
  dispatch sensorList element tmp item = Raise IndexError.
Proof.
  intros Hget Hpos Hty Hin Htmp Hel.
  rewrite (dispatch_steps _ _ _ _ _ _ _ Hget Hpos Hty).
  assert (Hc : forall i, component element (VInt p) 0 i = Raise IndexError)
    by (intros i; now apply component_empty).
  cbn in Hin.
  destruct Hin as [<-|[<-|[<-|[<-|[<-|[<-|[<-|[]]]]]]]];
    repeat skip_item; hit_item;
    unfold readBaro, readTemp, readBatt, stateOfCharge_of, readOhm,
      readVolt, readCurrent, readTank;
    rewrite !Hc; cbn [mbind result_bind];
    rewrite ?(tmp_update_raise _ _ _ _ _ Htmp); reflexivity.
Qed.

Lemma dispatch_empty_value_witness :
  dispatch engine_room_registry (<[0 := VStr []]> ∅) engine_room_registry
    (VInt 5)
  = Raise IndexError.
Proof.
  apply (dispatch_empty_value engine_room_registry (<[0 := VStr []]> ∅)
           engine_room_registry (VInt 5) 0 "thermometer"
           (<["pos" := VInt 0]>
              (<["type" := VStr (str_lit "thermometer")]>
                 (<["name" := VStr (str_lit "Engine Room")]> ∅)))
           (<["pos" := VInt 0]>
              (<["type" := VStr (str_lit "thermometer")]>
                 (<["name" := VStr (str_lit "Engine Room")]> ∅))));
    try reflexivity.
  cbn. tauto.
Defined.

Lemma same_static_refl (tmp : sensors) : same_static tmp tmp.
Proof.
  unfold same_static. induction tmp as [|ia tmp IH]; constructor; auto.
Qed.

Lemma same_static_trans (t1 t2 t3 : sensors) :
  same_static t1 t2 -> same_static t2 t3 -> same_static t1 t3.
Proof.
  unfold same_static. intros H12. revert t3.
  induction H12 as [|x y l1 l2 [Hk Hv] _ IH]; intros t3 H23.
  - inversion H23. constructor.
  - inversion H23 as [|? z ? l3 [Hk' Hv'] H23']; subst.
    constructor; [| now apply IH].
    split; [congruence |]. intros k Hnot.
    now rewrite Hv', Hv.
Qed.

Lemma od_set_static (tmp : sensors) (id : pyval) (a : attrs) (k : string)
    (v : pyval) :
  od_get tmp id = Ok a -> k ∈ reading_keys ->
  same_static tmp (od_set tmp id (<[k := v]> a)).
Proof.
  intros Hget Hk. unfold same_static.
  induction tmp as [|[id' a'] tmp IH]; [discriminate |].
  cbn [od_get] in Hget. cbn [od_set].
  destruct (decide (id = id')) as [->|Hne].
  - injection Hget as ->. constructor; [| apply same_static_refl].
    split; [reflexivity |]. intros k' Hnot. cbn [snd].
    apply lookup_insert_ne. intros ->. contradiction.
  - constructor; [| now apply IH]. split; [reflexivity | reflexivity].
Qed.

Lemma tmp_update_static (tmp tmp' : sensors) (id : pyval) (k : string)
    (arg : result pyval) :
  k ∈ reading_keys ->
  tmp_update tmp id k arg = Ok tmp' -> same_static tmp tmp'.
Proof.
  intros Hk. unfold tmp_update.
  destruct (od_get tmp id) as [a|] eqn:Hget; cbn [mbind result_bind];
    [| discriminate].
  destruct arg as [v|]; cbn [mbind result_bind]; [| discriminate].
  intros [= <-]. now apply od_set_static.
Qed.

Ltac key_in := unfold reading_keys; set_solver.

Ltac static_step :=
  match goal with
  | |- tmp_update ?t _ ?k _ = Ok _ -> _ =>
    let H := fresh "Hu" in
    intros H; apply tmp_update_static in H; [| key_in]
  | |- (tmp_update ?t ?i ?k ?arg ≫= _) = Ok _ -> _ =>
    let H := fresh "Hu" in
    destruct (tmp_update t i k arg) eqn:H; cbn [mbind result_bind];
    [apply tmp_update_static in H; [| key_in] | discriminate]
  | |- (?m ≫= _) = Ok _ -> _ =>
    destruct m; cbn [mbind result_bind]; [| discriminate]
  end.

Ltac chain_static :=
  repeat match goal with
  | H : same_static ?a ?b |- same_static ?a ?c =>
    first [exact H | apply (same_static_trans a b c H); clear H]
  end.

Lemma readBaro_static (element : fields) (tmp tmp' : sensors)
    (id elId : pyval) :
  readBaro element tmp id elId = Ok tmp' -> same_static tmp tmp'.
Proof. unfold readBaro. static_step. chain_static. Qed.

Lemma readTemp_static (element : fields) (tmp tmp' : sensors)
    (id elId : pyval) :
  readTemp element tmp id elId = Ok tmp' -> same_static tmp tmp'.
Proof. unfold readTemp. static_step. chain_static. Qed.

Lemma readOhm_static (element : fields) (tmp tmp' : sensors)
    (id elId : pyval) :
  readOhm element tmp id elId = Ok tmp' -> same_static tmp tmp'.
Proof. unfold readOhm. static_step. chain_static. Qed.

Lemma readVolt_static (element : fields) (tmp tmp' : sensors)
    (id elId : pyval) :
  readVolt element tmp id elId = Ok tmp' -> same_static tmp tmp'.
Proof. unfold readVolt. static_step. chain_static. Qed.

Lemma readTank_static (element : fields) (tmp tmp' : sensors)
    (id elId : pyval) :
  readTank element tmp id elId = Ok tmp' -> same_static tmp tmp'.
Proof. unfold readTank. repeat static_step. chain_static. Qed.

Lemma readCurrent_static (element : fields) (tmp tmp' : sensors)
    (id elId : pyval) :
  readCurrent element tmp id elId = Ok tmp' -> same_static tmp tmp'.
Proof. unfold readCurrent. repeat static_step. chain_static. Qed.

Lemma readBatt_static (sensorList : sensors) (element : fields)
    (tmp tmp' : sensors) (id elId : pyval) :
  readBatt sensorList element tmp id elId = Ok tmp' -> same_static tmp tmp'.
Proof.
  unfold readBatt. repeat static_step.
  destruct (decide _).
  - repeat static_step. chain_static.
  - intros [= <-]. chain_static.
Qed.

Lemma when_item_static (itemType : pyval) (name : string)
    (reader : sensors -> result sensors) (tmp tmp' : sensors) :
  (forall t t', reader t = Ok t' -> same_static t t') ->
  when_item itemType name reader tmp = Ok tmp' -> same_static tmp tmp'.
Proof.
  intros Hreader. unfold when_item. destruct (decide _).
  - apply Hreader.
  - intros [= <-]. apply same_static_refl.
Qed.

Lemma dispatch_static (sensorList : sensors) (element : fields)
    (tmp tmp' : sensors) (item : pyval) :
  dispatch sensorList element tmp item = Ok tmp' -> same_static tmp tmp'.
Proof.
  unfold dispatch.
  destruct (od_get sensorList item) as [a|]; cbn [mbind result_bind];
    [| discriminate].
  destruct (getitem a "pos") as [elId|]; cbn [mbind result_bind];
    [| discriminate].
  destruct (getitem a "type") as [itemType|]; cbn [mbind result_bind];
    [| discriminate].
  repeat match goal with
  | |- (when_item ?ty ?n ?r ?t ≫= _) = Ok _ -> _ =>
    let H := fresh "Hw" in
    destruct (when_item ty n r t) eqn:H; cbn [mbind result_bind];
    [apply when_item_static in H | discriminate]
  end.
  1: intros Hw6; apply when_item_static in Hw6.
  1: chain_static.
  all: intros t t'.
  - apply readTank_static.
  - apply readCurrent_static.
  - apply readVolt_static.
  - apply readOhm_static.
  - apply readBatt_static.
  - apply readTemp_static.
  - apply readBaro_static.
Qed.

Lemma dispatch_all_static (sensorList : sensors) (element : fields)
    (items : list pyval) :
  forall tmp tmp',
    dispatch_all sensorList element tmp items = Ok tmp' -> same_static tmp tmp'.
Proof.
  induction items as [|item items IH]; intros tmp tmp'; cbn [dispatch_all].
  - intros [= <-]. apply same_static_refl.
  - destruct (dispatch sensorList element tmp item) as [tmp1|] eqn:E;
      cbn [mbind result_bind]; [| discriminate].
    intros H. apply dispatch_static in E. apply IH in H.
    exact (same_static_trans _ _ _ E H).
Qed.

Lemma same_static_get (tmp tmp' : sensors) (id : pyval) (a : attrs) :
  same_static tmp tmp' -> od_get tmp id = Ok a ->
  exists a', od_get tmp' id = Ok a' /\
             forall k, k ∉ reading_keys -> a' !! k = a !! k.
Proof.
  unfold same_static. induction 1 as [|[i b] [i' b'] l l' [Hk Hv] _ IH];
    [discriminate |].
  cbn [fst snd] in Hk, Hv. subst i'. cbn [od_get].
  destruct (decide (id = i)); [| exact IH].
  intros [= <-]. eauto.
Qed.

Lemma same_static_keys (tmp tmp' : sensors) :
  same_static tmp tmp' -> map fst tmp' = map fst tmp.
Proof.
  unfold same_static. induction 1 as [|x y l l' [Hk _] _ IH]; [reflexivity |].
  cbn [map]. now rewrite Hk, IH.
Qed.

(** X23.  The snapshot a cycle prints has the sensors of the registry, in the
    registry's order, and every attribute other than a reading (name,
    type, pos, capacity, fluid, ...) as the registry has it: the readers
    add or replace readings and nothing else. *)
Theorem snapshot_keeps_static (sensorList : sensors) (message : bytes)
    (element : fields) (snapshot : sensors) :
  cycle sensorList message = Ok (element, snapshot) ->
  map fst snapshot = map fst sensorList /\
  forall id a,
    od_get sensorList id = Ok a ->
    exists a', od_get snapshot id = Ok a' /\
               forall k, k ∉ reading_keys -> a' !! k = a !! k.
Proof.
  unfold cycle.
  destruct (parseResponse message) as [el|]; cbn [mbind result_bind];
    [| discriminate].
  destruct (dispatch_all sensorList el sensorList (map fst sensorList))
    as [snap|] eqn:E; cbn [mbind result_bind]; [| discriminate].
  intros [= _ <-]. apply dispatch_all_static in E.
  split; [now apply same_static_keys |].
  intros id a. now apply same_static_get.
Qed.

Lemma snapshot_keeps_static_witness :
  exists element snapshot,
    cycle engine_room_registry good_frame = Ok (element, snapshot) /\
    map fst snapshot = map fst engine_room_registry /\
    forall id a,
      od_get engine_room_registry id = Ok a ->
      exists a', od_get snapshot id = Ok a' /\
                 forall k, k ∉ reading_keys -> a' !! k = a !! k.
Proof.
  assert (H : {es | cycle engine_room_registry good_frame = Ok es}).
  { eexists. vm_compute. reflexivity. }
  destruct H as [[element snapshot] H]. exists element, snapshot.
  split; [exact H |].
  exact (snapshot_keeps_static engine_room_registry good_frame element
           snapshot H).
Defined.

(** ** The battery reader's division *)

Lemma low_charge_rounds (a : Z) :
  80 <= a <= 240 -> py_round2 (ratio a 16000) = nearest_ratio 1 100.
Proof.
  intros Ha.
  assert (H : all_from 161 80
                (fun a => bool_decide (py_round2 (ratio a 16000)
                                       = nearest_ratio 1 100)) = true)
    by (vm_compute; reflexivity).
  pose proof (all_from_spec _ _ _ H a ltac:(cbn; lia)) as Hb.
  exact (bool_decide_eq_true_1 _ Hb).
Qed.

(** X24.  A battery that draws 0.1 A (raw current 10) at a state of charge
    that rounds to 0.01 (raw 80 to 240) makes the denominator
    [current * stateOfCharge + 0.001] exactly zero: once the nominal
    capacity is divided by 12 the reader raises [ZeroDivisionError],
    which nothing catches. *)
Theorem readBatt_ZeroDivisionError (sensorList : sensors) (element : fields)
    (tmp : sensors) (sensorId : pyval) (p a b c e f N : Z)
    (a0 registered : attrs) :
  element !! p = Some (VPair a b) ->
  element !! (p + 1) = Some (VPair c 10) ->
  element !! (p + 2) = Some (VPair e f) ->
  80 <= a <= 240 -> 0 <= b < 65536 -> 0 <= f < 65536 ->
  od_get tmp sensorId = Ok a0 ->
  od_get sensorList sensorId = Ok registered ->
  registered !! "capacity.nominal"%string = Some (VInt N) ->
  readBatt sensorList element tmp sensorId (VInt p)
  = (perTwelve ← int_truediv N 12; Raise ZeroDivisionError).
Proof.
  intros H0 H1 H2 Ha Hb Hf Hget Hreg Hnom.
  rewrite (readBatt_eq _ _ _ _ _ _ _ _ _ _ _ _ H0 H1 H2 ltac:(lia) Hb
             ltac:(lia) Hf Hget).
  cbv zeta. rewrite decide_False by lia.
  rewrite Hreg. cbn [mbind result_bind]. unfold getitem. rewrite Hnom.
  cbn [mbind result_bind as_int]. unfold time_remaining.
  rewrite low_charge_rounds by assumption.
  destruct (int_truediv N 12) as [x|]; cbn [mbind result_bind];
    [| reflexivity].
  unfold py_truediv.
  replace (is_zero (fadd (fmul (signed_current 10) (nearest_ratio 1 100))
                         (nearest_ratio 1 1000)))
    with true by (vm_compute; reflexivity).
  reflexivity.
Qed.

Lemma readBatt_ZeroDivisionError_witness :
  readBatt battery_registry
    (<[2 := VPair 0 12500]> (<[1 := VPair 0 10]> (<[0 := VPair 160 7]> ∅)))
    battery_registry (VInt 7) (VInt 0)
  = Raise ZeroDivisionError.
Proof.
  rewrite (readBatt_ZeroDivisionError battery_registry _ battery_registry
             (VInt 7) 0 160 7 0 0 12500 43200 battery_attrs battery_attrs);
    try reflexivity; lia.
Defined.

(** ** The telemetry loop *)

(** X25.  Datagrams of 100 bytes or fewer, or of 1200 bytes or more, leave no
    trace: the run is the run over the accepted datagrams alone. *)
Theorem telemetry_ignores_rejected (sensorList : sensors)
    (datagrams : list bytes) :
  forall (old_element : fields) (printed : list sensors),
    telemetry sensorList old_element datagrams printed
    = telemetry sensorList old_element (List.filter accepted datagrams) printed.
Proof.
  induction datagrams as [|message rest IH]; intros old printed;
    [reflexivity |].
  cbn [telemetry List.filter]. destruct (accepted message) eqn:Hacc.
  - cbn [telemetry]. rewrite Hacc.
    destruct (parseResponse message) as [element|]; [| reflexivity].
    cbv zeta.
    destruct (dispatch_all sensorList element sensorList (map fst sensorList))
      as [snapshot|]; [apply IH | reflexivity].
  - apply IH.
Qed.

(** X26.  What a run prints: what was printed before, then one snapshot for
    each accepted datagram in order, each the snapshot of a cycle on
    that datagram and the registry alone, up to the end of the input or
    to the first accepted datagram whose cycle raises. *)
Theorem telemetry_prints_cycles (sensorList : sensors)
    (datagrams : list bytes) :
  forall (old_element old' : fields) (printed printed' : list sensors)
         (how : ending),
    telemetry sensorList old_element datagrams printed
    = (old', printed', how) ->
    exists (done : list bytes) (new : list sensors),
      printed' = printed ++ new /\
      Forall2 (fun message snapshot =>
                 snd <$> cycle sensorList message = Ok snapshot) done new /\
      match how with
      | Blocked => List.filter accepted datagrams = done
      | Uncaught e =>
        exists message rest,
          List.filter accepted datagrams = done ++ message :: rest /\
          cycle sensorList message = Raise e
      end.
Proof.
  induction datagrams as [|message rest IH];
    intros old old' printed printed' how.
  - cbn [telemetry]. intros [= _ <- <-]. exists [], [].
    rewrite app_nil_r. repeat split. constructor.
  - cbn [telemetry List.filter]. destruct (accepted message) eqn:Hacc.
    + assert (Hraise : forall e, cycle sensorList message = Raise e ->
                printed' = printed -> how = Uncaught e ->
                exists (done : list bytes) (new : list sensors),
                  printed' = printed ++ new /\
                  Forall2 (fun message snapshot =>
                             snd <$> cycle sensorList message = Ok snapshot)
                          done new /\
                  match how with
                  | Blocked => message :: List.filter accepted rest = done
                  | Uncaught e =>
                    exists message0 rest0,
                      message :: List.filter accepted rest
                      = done ++ message0 :: rest0 /\
                      cycle sensorList message0 = Raise e
                  end).
      { intros e Hc -> ->. exists [], []. rewrite app_nil_r.
        split; [reflexivity |]. split; [constructor |].
        now exists message, (List.filter accepted rest). }
      destruct (parseResponse message) as [element|e] eqn:Hp.
      * cbv zeta.
        destruct (dispatch_all sensorList element sensorList
                    (map fst sensorList)) as [snapshot|e] eqn:Hd.
        -- assert (Hc : cycle sensorList message = Ok (element, snapshot))
             by (unfold cycle; rewrite Hp; cbn [mbind result_bind];
                 now rewrite Hd).
           intros H. apply IH in H as (done & new & -> & Hall & Hhow).
           exists (message :: done), (snapshot :: new).
           rewrite <- app_assoc. split; [reflexivity |].
           split; [constructor; [now rewrite Hc | assumption] |].
           destruct how as [|e]; [now rewrite Hhow |].
           destruct Hhow as (m & rest' & -> & Hm). now exists m, rest'.
        -- intros [= _ <- <-]. apply (Hraise e); try reflexivity.
           unfold cycle. rewrite Hp. cbn [mbind result_bind]. now rewrite Hd.
      * intros [= _ <- <-]. apply (Hraise e); try reflexivity.
        unfold cycle. now rewrite Hp.
    + apply IH.
Qed.

Lemma telemetry_prints_cycles_witness :
  exists (done : list bytes) (new : list sensors),
    @nil sensors = [] ++ new /\
    Forall2 (fun message snapshot =>
               snd <$> cycle engine_room_registry message = Ok snapshot)
            done new /\
    exists message rest,
      List.filter accepted [bad_frame; good_frame] = done ++ message :: rest /\
      cycle engine_room_registry message = Raise TypeError.
Proof.
  apply (telemetry_prints_cycles engine_room_registry [bad_frame; good_frame]
           ∅ ∅ [] [] (Uncaught TypeError)).
  vm_compute. reflexivity.
Defined.

(** ** The hex dump *)

Lemma BinToHex_concat (message : bytes) :
  BinToHex message
  = concat (map (fun x => format_02x (byte_val x) ++ str_lit " ") message).
Proof.
  unfold BinToHex.
  assert (H : forall acc,
    fold_left (fun response x =>
                 response ++ format_02x (byte_val x) ++ str_lit " ")
              message acc
    = acc ++ concat (map (fun x => format_02x (byte_val x) ++ str_lit " ")
                         message)).
  { induction message as [|x message IH]; intros acc; cbn [fold_left map concat].
    - now rewrite app_nil_r.
    - rewrite IH. now rewrite <- !app_assoc. }
  apply (H []).
Qed.

Lemma hex_digit_inj (m n : Z) :
  0 <= m < 16 -> 0 <= n < 16 -> hex_digit m = hex_digit n -> m = n.
Proof.
  intros Hm Hn.
  assert (H : all_from 16 0
                (fun m => all_from 16 0
                   (fun n => negb (N.eqb (hex_digit m) (hex_digit n))
                             || (m =? n))) = true)
    by (vm_compute; reflexivity).
  pose proof (all_from_spec _ _ _ H m ltac:(cbn; lia)) as H1.
  pose proof (all_from_spec _ _ _ H1 n ltac:(cbn; lia)) as H2.
  intros E. rewrite E, N.eqb_refl in H2. cbn [negb orb] in H2.
  now apply Z.eqb_eq.
Qed.

(** X27.  [BinToHex] writes three characters for each byte, and messages that
    differ give texts that differ. *)
Theorem BinToHex_faithful (m1 m2 : bytes) :
  length (BinToHex m1) = (3 * length m1)%nat /\
  (BinToHex m1 = BinToHex m2 -> m1 = m2).
Proof.
  rewrite !BinToHex_concat. split.
  - induction m1 as [|x m1 IH]; [reflexivity |].
    cbn [map concat]. rewrite length_app, IH. cbn [length app format_02x str_lit
      map list_ascii_of_string]. lia.
  - revert m2. induction m1 as [|x m1 IH]; intros [|y m2]; cbn [map concat];
      try discriminate; [reflexivity |].
    cbn [format_02x app str_lit map list_ascii_of_string].
    intros [= Hhi Hlo Hrest].
    pose proof (byte_val_range x) as Hx. pose proof (byte_val_range y) as Hy.
    apply hex_digit_inj in Hhi;
      [| split; [apply Z.div_pos; lia | apply Z.div_lt_upper_bound; lia]
       | split; [apply Z.div_pos; lia | apply Z.div_lt_upper_bound; lia]].
    apply hex_digit_inj in Hlo; [| apply Z.mod_pos_bound; lia ..].
    f_equal; [| now apply IH].
    apply byte_val_inj.
    rewrite (Z.div_mod (byte_val x) 16), (Z.div_mod (byte_val y) 16) by lia.
    congruence.
Qed.

Example BinToHex_sample :
  BinToHex [x00; xff; x32; xcf] = str_lit "00 ff 32 cf ".
Proof. vm_compute. reflexivity. Qed.

(** ** Connecting *)

Lemma open_tcp_from_step (remaining : nat) (attempt : nat -> bool)
    (retry_delay : Z) (retries : nat) (trace : list io_event) :
  open_tcp_from (S remaining) attempt retry_delay retries trace
  = if attempt retries then (trace ++ [Connect], Ok (Some retries))
    else match remaining with
         | O => (trace ++ [Connect], Ok None)
         | S _ =>
           if retry_delay <? 0 then (trace ++ [Connect], Raise ValueError)
           else open_tcp_from remaining attempt retry_delay (S retries)
                  ((trace ++ [Connect]) ++ [Sleep retry_delay])
         end.
Proof. reflexivity. Qed.

Lemma open_tcp_from_success (attempt : nat -> bool) (retry_delay : Z) (k : nat) :
  0 <= retry_delay ->
  forall (remaining retries : nat) (trace : list io_event),
    (k < remaining)%nat ->
    attempt (retries + k)%nat = true ->
    (forall j, (j < k)%nat -> attempt (retries + j)%nat = false) ->
    open_tcp_from remaining attempt retry_delay retries trace
    = (trace ++ concat (repeat [Connect; Sleep retry_delay] k) ++ [Connect],
       Ok (Some (retries + k)%nat)).
Proof.
  intros Hd. induction k as [|k IH]; intros remaining retries trace Hk Hyes Hno.
  - destruct remaining as [|remaining]; [lia |].
    rewrite open_tcp_from_step. cbn [repeat concat app].
    rewrite Nat.add_0_r in Hyes |- *. now rewrite Hyes.
  - destruct remaining as [|[|remaining]]; try lia.
    rewrite open_tcp_from_step.
    pose proof (Hno 0%nat ltac:(lia)) as H0. rewrite Nat.add_0_r in H0.
    rewrite H0.
    replace (retry_delay <? 0) with false by (symmetry; apply Z.ltb_ge; lia).
    rewrite (IH (S remaining) (S retries)); try lia.
    + cbn [repeat concat app]. rewrite <- !app_assoc. cbn [app].
      do 2 f_equal. f_equal. lia.
    + now replace (S retries + k)%nat with (retries + S k)%nat by lia.
    + intros j Hj.
      replace (S retries + j)%nat with (retries + S j)%nat by lia.
      apply Hno. lia.
Qed.

Lemma open_tcp_from_failure (attempt : nat -> bool) (retry_delay : Z) :
  0 <= retry_delay ->
  forall (remaining retries : nat) (trace : list io_event),
    (forall j, (j < S remaining)%nat -> attempt (retries + j)%nat = false) ->
    open_tcp_from (S remaining) attempt retry_delay retries trace
    = (trace ++ Connect :: concat (repeat [Sleep retry_delay; Connect] remaining),
       Ok None).
Proof.
  intros Hd. induction remaining as [|remaining IH]; intros retries trace Hno.
  - rewrite open_tcp_from_step. cbn [repeat concat].
    pose proof (Hno 0%nat ltac:(lia)) as H0. rewrite Nat.add_0_r in H0.
    now rewrite H0.
  - rewrite open_tcp_from_step.
    pose proof (Hno 0%nat ltac:(lia)) as H0. rewrite Nat.add_0_r in H0.
    rewrite H0.
    replace (retry_delay <? 0) with false by (symmetry; apply Z.ltb_ge; lia).
    rewrite IH.
    + cbn [repeat concat app]. rewrite <- !app_assoc. reflexivity.
    + intros j Hj.
      replace (S retries + j)%nat with (retries + S j)%nat by lia.
      apply Hno. lia.
Qed.

(** X28.  [open_tcp] makes at most [max_retries] connection attempts: it
    returns the socket of the first one that succeeds, having slept
    [retry_delay] after each failure before it, and returns [None] when
    none of them does, without sleeping after the last. *)
Theorem open_tcp_attempts (attempt : nat -> bool) (max_retries retry_delay : Z) :
  0 <= retry_delay ->
  (forall k : nat,
     Z.of_nat k < max_retries -> attempt k = true ->
     (forall j, (j < k)%nat -> attempt j = false) ->
     open_tcp attempt max_retries retry_delay
     = (concat (repeat [Connect; Sleep retry_delay] k) ++ [Connect],
        Ok (Some k))) /\
  ((forall j : nat, Z.of_nat j < max_retries -> attempt j = false) ->
   open_tcp attempt max_retries retry_delay
   = (match Z.to_nat max_retries with
      | O => []
      | S n => Connect :: concat (repeat [Sleep retry_delay; Connect] n)
      end, Ok None)).
Proof.
  intros Hd. split.
  - intros k Hk Hyes Hno. unfold open_tcp.
    now rewrite (open_tcp_from_success attempt retry_delay k Hd) by
      (try lia; assumption).
  - intros Hno. unfold open_tcp.
    destruct (Z.to_nat max_retries) as [|n] eqn:En; [reflexivity |].
    rewrite open_tcp_from_failure; [reflexivity | assumption |].
    intros j Hj. apply Hno. lia.
Qed.

Lemma open_tcp_attempts_witness :
  open_tcp (fun n => Nat.eqb n 2) 5 5
  = ([Connect; Sleep 5; Connect; Sleep 5; Connect], Ok (Some 2%nat)) /\
  open_tcp (fun _ => false) 5 5
  = ([Connect; Sleep 5; Connect; Sleep 5; Connect; Sleep 5; Connect;
      Sleep 5; Connect], Ok None).
Proof.
  split.
  - apply (proj1 (open_tcp_attempts (fun n => Nat.eqb n 2) 5 5 ltac:(lia))
             2%nat); [lia | reflexivity |].
    intros [|[|j]] Hj; [reflexivity | reflexivity | lia].
  - apply (proj2 (open_tcp_attempts (fun _ => false) 5 5 ltac:(lia))).
    reflexivity.
Defined.

(** ** The configuration dialogue *)

Lemma add_crc_framed (data : bytes) : add_crc data = Ok (framed data).
Proof.
  unfold add_crc, add_crc_with, framed.
  change (crcmod.mkCrcFun 0x11189 0 0 ?x) with (crc_func x).
  destruct (to_bytes2_crc (slice data 1 (-1))) as [-> _]. reflexivity.
Qed.

Lemma od_set_fresh {K V} `{EqDecision K} (d : list (K * V)) (k : K) (v : V) :
  k ∉ map fst d -> od_set d k v = d ++ [(k, v)].
Proof.
  induction d as [|[k' v'] d IH]; cbn [od_set map fst app]; [reflexivity |].
  rewrite not_elem_of_cons. intros [Hne Hnot].
  rewrite decide_False by assumption. now rewrite IH.
Qed.

Lemma config_loop_run (n : nat) :
  forall (start : nat) (responses : list bytes) (elements : list fields)
         (later : list bytes) (trace : list io_event)
         (config : list (Z * fields)),
    Forall2 (fun r el => parseResponse r = Ok el) responses elements ->
    length elements = n ->
    (forall k, k ∈ map fst config -> k < Z.of_nat start) ->
    config_loop (seq start n) (responses ++ later) trace config
    = (trace
       ++ map (fun pos => Send (framed (slot_request (Z.of_nat pos))))
              (seq start n)
       ++ [Close],
       Returned (config ++ combine (map Z.of_nat (seq start n)) elements)).
Proof.
  induction n as [|n IH];
    intros start responses elements later trace config Hall Hlen Hkeys.
  - destruct elements; [| discriminate]. cbn [seq config_loop map app combine].
    now rewrite app_nil_r.
  - destruct Hall as [|r el responses elements Hr Hall]; [discriminate |].
    cbn [seq config_loop app]. rewrite add_crc_framed, Hr.
    rewrite od_set_fresh
      by (intros Hin; apply Hkeys in Hin; lia).
    rewrite (IH (S start) responses elements later); try assumption.
    + cbn [map combine]. rewrite <- !app_assoc. reflexivity.
    + cbn [length] in Hlen. lia.
    + intros k. rewrite map_app, elem_of_app. cbn [map fst].
      rewrite list_elem_of_singleton. intros [Hin| ->]; [| lia].
      apply Hkeys in Hin. lia.
Qed.

(** X29.  The dialogue when the device answers every request with a frame
    that decodes.  The program connects, sends the count request with
    its checksum, reads the number of slots from byte 19 of the answer,
    and then sends one request per slot, for the positions 0 up to that
    byte in order, each the fixed 33 bytes with the position at index 19
    and the checksum appended; it closes the socket and returns the
    decoded answers keyed by position, in that order.  Answers sent
    beyond the last slot are not read. *)
Theorem get_pico_config_dialogue (attempt : nat -> bool) (response : bytes)
    (count : byte) (responses later : list bytes) (elements : list fields) :
  attempt 0%nat = true ->
  nth_error response 19 = Some count ->
  Forall2 (fun r el => parseResponse r = Ok el) responses elements ->
  length elements = S (Z.to_nat (byte_val count)) ->
  let positions := seq 0 (S (Z.to_nat (byte_val count))) in
  get_pico_config attempt (response :: responses ++ later)
  = (Connect :: Send (framed count_request)
       :: map (fun pos => Send (framed (slot_request (Z.of_nat pos)))) positions
       ++ [Close],
     Returned (combine (map Z.of_nat positions) elements)).
Proof.
  intros Hconn Hcount Hall Hlen positions.
  unfold get_pico_config, open_tcp.
  change (Z.to_nat 5) with 5%nat. rewrite open_tcp_from_step, Hconn.
  rewrite add_crc_framed. unfold index. rewrite Hcount.
  pose proof (byte_val_range count) as Hb.
  replace (Z.to_nat (byte_val count + 1)) with (S (Z.to_nat (byte_val count)))
    by lia.
  rewrite (config_loop_run _ 0 responses elements later); try assumption.
  - reflexivity.
  - intros k Hin. now apply not_elem_of_nil in Hin.
Qed.

Lemma get_pico_config_dialogue_witness :
  get_pico_config (fun _ => true)
    [repeat x00 20;
     header ++ compact x00 0 1 ++ compact x01 0 3;
     header ++ compact x00 0 2 ++ compact x01 0 3;
     header]
  = (Connect :: Send (framed count_request)
       :: map (fun pos => Send (framed (slot_request (Z.of_nat pos))))
              (seq 0 (S (Z.to_nat (byte_val x00))))
       ++ [Close],
     Returned (combine (map Z.of_nat (seq 0 (S (Z.to_nat (byte_val x00)))))
                 [<[1 := VPair 0 3]> (<[0 := VPair 0 1]> (∅ : fields))])).
Proof.
  apply (get_pico_config_dialogue (fun _ => true)
           (repeat x00 20) x00
           [header ++ compact x00 0 1 ++ compact x01 0 3]
           [header ++ compact x00 0 2 ++ compact x01 0 3; header]
           [<[1 := VPair 0 3]> (<[0 := VPair 0 1]> ∅)]).
  - reflexivity.
  - reflexivity.
  - repeat constructor.
  - reflexivity.
Defined.

Lemma open_tcp_from_open (attempt : nat -> bool) (retry_delay : Z) :
  forall (remaining retries : nat) (trace : list io_event),
    Close ∉ trace ->
    Close ∉ fst (open_tcp_from remaining attempt retry_delay retries trace).
Proof.
  induction remaining as [|remaining IH]; intros retries trace Hnot;
    [exact Hnot |].
  assert (Hc : Close ∉ trace ++ [Connect])
    by (rewrite elem_of_app, list_elem_of_singleton; intros [?|?];
        [contradiction | discriminate]).
  rewrite open_tcp_from_step.
  destruct (attempt retries); [exact Hc |].
  destruct remaining as [|remaining']; [exact Hc |].
  destruct (retry_delay <? 0); [exact Hc |].
  apply IH. rewrite elem_of_app, list_elem_of_singleton.
  intros [?|?]; [contradiction | discriminate].
Qed.

Lemma config_loop_closes (positions : list nat) :
  forall (received : list bytes) (trace : list io_event)
         (config : list (Z * fields)),
    Close ∉ trace ->
    let '(trace', out) := config_loop positions received trace config in
    Close ∈ trace' <-> exists config', out = Returned config'.
Proof.
  induction positions as [|pos positions IH]; intros received trace config Hnot.
  - cbn [config_loop]. split; [eauto |].
    intros _. rewrite elem_of_app, list_elem_of_singleton. now right.
  - cbn [config_loop]. rewrite add_crc_framed.
    assert (Hs : Close ∉ trace ++ [Send (framed (slot_request (Z.of_nat pos)))])
      by (rewrite elem_of_app, list_elem_of_singleton; intros [?|?];
          [contradiction | discriminate]).
    destruct received as [|response received].
    { split; [contradiction | intros [? [=]]]. }
    destruct (parseResponse response) as [element|e].
    + apply IH. exact Hs.
    + split; [contradiction | intros [? [=]]].
Qed.

(** X30.  The socket is closed when, and only when, [get_pico_config] returns
    a config: an exception on the way (an answer too short for byte 19,
    a frame that does not decode, a timeout) leaves it open. *)
Theorem get_pico_config_closes (attempt : nat -> bool) (received : list bytes)
    (trace : list io_event) (out : outcome (list (Z * fields))) :
  get_pico_config attempt received = (trace, out) ->
  (Close ∈ trace <-> exists config, out = Returned config).
Proof.
  unfold get_pico_config, open_tcp.
  pose proof (open_tcp_from_open attempt 5 (Z.to_nat 5) 0 []
                ltac:(apply not_elem_of_nil)) as Hopen.
  destruct (open_tcp_from (Z.to_nat 5) attempt 5 0 []) as [t s].
  cbn [fst] in Hopen.
  destruct s as [s|e];
    [| intros [= <- <-]; split; [contradiction | intros [? [=]]]].
  rewrite add_crc_framed.
  destruct s as [n|];
    [| intros [= <- <-]; split; [contradiction | intros [? [=]]]].
  assert (Hs : Close ∉ t ++ [Send (framed count_request)])
    by (rewrite elem_of_app, list_elem_of_singleton; intros [?|?];
        [contradiction | discriminate]).
  destruct received as [|response received];
    [intros [= <- <-]; split; [contradiction | intros [? [=]]] |].
  destruct (index response 19) as [count|e];
    [| intros [= <- <-]; split; [contradiction | intros [? [=]]]].
  pose proof (config_loop_closes (seq 0 (Z.to_nat (byte_val count + 1)))
                received _ [] Hs) as H.
  destruct (config_loop _ _ _ _) as [t' o']. intros [= <- <-]. exact H.
Qed.

Lemma get_pico_config_closes_witness :
  get_pico_config (fun _ => true) [repeat x00 19]
  = ([Connect; Send (framed count_request)], Raised IndexError) /\
  (Close ∈ [Connect; Send (framed count_request)] <->
   exists config : list (Z * fields), Raised IndexError = Returned config).
Proof.
  assert (H : get_pico_config (fun _ => true) [repeat x00 19]
              = ([Connect; Send (framed count_request)], Raised IndexError)).
  { unfold get_pico_config, open_tcp. change (Z.to_nat 5) with 5%nat.
    rewrite open_tcp_from_step, add_crc_framed. reflexivity. }
  split; [exact H |].
  exact (get_pico_config_closes _ _ _ _ H).
Defined.
